(** * Hex-or-Hoax analyze route: heuristic scoring engine

    A shallow embedding of the analyze API route of the repository and the
    proofs of its specified properties.  The route exists in three variants:
    the one with the knowledge base ([src/unnamed/part_001], with
    [src/lib/rag.ts]) is embedded at the top level, the first one
    ([src/app/api/analyze/route.ts]) in [Module RouteV1]; the one with the
    sender analysis ([src/unnamed/part_002]) has the verdict thresholds and
    the guarded parse of the first and is not embedded.  The merge of spans
    for display is the page's ([src/app/page.tsx]).

    Conventions of the embedding.
    - A JavaScript string is the list of its UTF-16 code units ([jsstring]);
      offsets and lengths count code units, as [String.prototype.indexOf]
      and [length] do.
    - A JavaScript number that the code keeps integral is a [Z]; a number
      that comes out of a JSON document is a [Q].
    - [Array.prototype.push] on a local array is list append; a [Map] is an
      insertion-ordered association list. *)

From Equations Require Import Equations.
From Stdlib Require Import String Ascii.
From Stdlib Require Import ZArith List Bool Lia Sorting.Sorted Permutation.
From Stdlib Require Import QArith Qround Lqa.
Import ListNotations.
Open Scope Z_scope.

(** ** JavaScript strings *)

Definition jsstring := list Z.

(** An ASCII literal as a [jsstring]. *)
Definition lit (s : string) : jsstring :=
  map (fun a => Z.of_nat (nat_of_ascii a)) (list_ascii_of_string s).

Definition lits (l : list string) : list jsstring := map lit l.

Definition len (s : jsstring) : Z := Z.of_nat (length s).

Fixpoint str_eqb (a b : jsstring) : bool :=
  match a, b with
  | [], [] => true
  | x :: a', y :: b' => (x =? y) && str_eqb a' b'
  | _, _ => false
  end.

(** [String.prototype.toLowerCase], one code unit at a time.  The table
    covers Basic Latin, the Latin-1 Supplement, U+0130 (capital I with dot
    above, whose lowercase is the two units U+0069 U+0307) and U+212A (the
    Kelvin sign); every other unit is kept.  The phrases of the dictionary
    are ASCII, and the lemmas on the span locator below hold for any
    lowercased copy, whatever the table. *)
Definition lowerUnit (c : Z) : list Z :=
  if (65 <=? c) && (c <=? 90) then [c + 32]
  else if (192 <=? c) && (c <=? 222) && negb (c =? 215) then [c + 32]
  else if c =? 304 then [105; 775]
  else if c =? 8490 then [107]
  else [c].

Definition toLowerCase (s : jsstring) : jsstring := flat_map lowerUnit s.

(** [s.startsWith(needle)] at offset 0. *)
Fixpoint startsWith (needle s : jsstring) : bool :=
  match needle, s with
  | [], _ => true
  | n :: needle', c :: s' => (n =? c) && startsWith needle' s'
  | _ :: _, [] => false
  end.

(** First offset at or after [pos] where [needle] occurs; [s] is the suffix
    of the searched string that starts at [pos].  -1 when there is none. *)
Fixpoint search (needle s : jsstring) (pos : Z) : Z :=
  if startsWith needle s then pos
  else match s with
       | [] => -1
       | _ :: s' => search needle s' (pos + 1)
       end.

(** [s.indexOf(needle, from)]: the start is clamped into [0, s.length]. *)
Definition indexOf (s needle : jsstring) (from : Z) : Z :=
  let k := Z.min (Z.max from 0) (len s) in
  search needle (skipn (Z.to_nat k) s) k.

Definition includes (s needle : jsstring) : bool :=
  negb (indexOf s needle 0 =? -1).

(** [s.slice(a, b)] for [0 <= a]. *)
Definition slice (s : jsstring) (a b : Z) : jsstring :=
  firstn (Z.to_nat (b - a)) (skipn (Z.to_nat a) s).

(** ** Verdict *)

Inductive Verdict := harmless | suspicious | dangerous.

Definition verdictFromScore (score : Z) : Verdict :=
  if score >=? 70 then dangerous
  else if score >=? 35 then suspicious
  else harmless.

(** ** Span locator *)

Record Phrase := mkPhrase {
  ph_label : jsstring;
  phrase : jsstring;
  ph_reason : jsstring }.

Record Span := mkSpan {
  start : Z;
  end_ : Z;
  label : jsstring;
  reason : jsstring }.

(** How many more spans the list can take before the cap. *)
Definition room (cap : nat) (spans : list Span) : nat := cap - length spans.
Arguments room : simpl never.

(** The [while (true)] loop of [findSpans] for one phrase; [cap] is the
    constant of [if (spans.length >= cap) return spans] (40 here, 25 in the
    first variant of the route).  The boolean is [true] when the loop left
    through [return spans], [false] when it left through [break].  Every
    round pushes one span and the loop returns once there are [cap] of them,
    so [room cap spans] decreases. *)
Equations? whileLoop (cap : nat) (lower needle : jsstring) (p : Phrase)
    (idx : Z) (spans : list Span) : list Span * bool
    by wf (room cap spans) lt :=
  whileLoop cap lower needle p idx spans
    with Z.eq_dec (indexOf lower needle idx) (-1) => {
    | left _ := (spans, false);
    | right _
        with le_lt_dec cap
               (length (spans ++ [mkSpan (indexOf lower needle idx)
                                         (indexOf lower needle idx + len needle)
                                         (ph_label p) (ph_reason p)])) => {
        | left _ :=
            (spans ++ [mkSpan (indexOf lower needle idx)
                              (indexOf lower needle idx + len needle)
                              (ph_label p) (ph_reason p)], true);
        | right _below :=
            whileLoop cap lower needle p (indexOf lower needle idx + len needle)
              (spans ++ [mkSpan (indexOf lower needle idx)
                                (indexOf lower needle idx + len needle)
                                (ph_label p) (ph_reason p)]) } }.
Proof. unfold room in *. rewrite length_app in *. cbn [length] in *. lia. Qed.

(** The [for (const p of phrases)] loop. *)
Fixpoint forPhrases (cap : nat) (lower : jsstring) (phrases : list Phrase)
    (spans : list Span) : list Span :=
  match phrases with
  | [] => spans
  | p :: rest =>
      let r := whileLoop cap lower (toLowerCase (phrase p)) p 0 spans in
      if snd r then fst r else forPhrases cap lower rest (fst r)
  end.

Definition findSpansCap (cap : nat) (text : jsstring) (phrases : list Phrase)
    : list Span :=
  forPhrases cap (toLowerCase text) phrases [].

Definition findSpans : jsstring -> list Phrase -> list Span := findSpansCap 40.

(** The first [n] successive occurrences of [needle] in [lower] from [idx]
    on, each search resuming at the end of the previous match: what the
    [while] loop pushes, written by recursion on the number of rounds. *)
Fixpoint occurrences (n : nat) (lower needle : jsstring) (p : Phrase)
    (idx : Z) : list Span :=
  match n with
  | O => []
  | S n' =>
      let found := indexOf lower needle idx in
      if Z.eq_dec found (-1) then []
      else mkSpan found (found + len needle) (ph_label p) (ph_reason p)
             :: occurrences n' lower needle p (found + len needle)
  end.

Definition spanPhrases : list Phrase :=
  [ mkPhrase (lit "Urgency") (lit "urgent") (lit "High-pressure wording.");
    mkPhrase (lit "Urgency") (lit "immediately") (lit "Pushes fast action.");
    mkPhrase (lit "Authority") (lit "bank") (lit "Impersonation of a trusted org.");
    mkPhrase (lit "Authority") (lit "irs") (lit "Common authority-scam pattern.");
    mkPhrase (lit "Tech Trick") (lit "verification code") (lit "Never share one-time codes.");
    mkPhrase (lit "Tech Trick") (lit "otp") (lit "One-time codes enable takeovers.");
    mkPhrase (lit "Viral") (lit "link in bio") (lit "Common social bait phrase.");
    mkPhrase (lit "Viral") (lit "share before it's deleted") (lit "Virality pressure tactic.");
    mkPhrase (lit "Money Claim") (lit "double your money") (lit "Too-good-to-be-true money promise.") ].


(** ** Regular expressions

    The fragment of ECMAScript regular expressions that the route uses,
    matched the way the language specifies it: a backtracking matcher with
    continuations, ordered alternatives and greedy quantifiers.  None of the
    expressions has a back-reference or a look-around, so capture groups are
    plain grouping. *)

Inductive regex :=
| Eps
| Cls (negated : bool) (ranges : list (Z * Z))
| Seq (a b : regex)
| Alt (a b : regex)
| Rep (min : nat) (max : option nat) (a : regex)
| WordB
| Bol.

(** [Canonicalize] for the [i] flag without the [u] flag: the upper case of
    the unit, unless that leaves Latin-1 for ASCII.  Only the units that can
    meet a character of the patterns below are listed (Basic Latin and the
    Latin-1 Supplement); the rest is kept. *)
Definition canonicalize (c : Z) : Z :=
  if (97 <=? c) && (c <=? 122) then c - 32
  else if (224 <=? c) && (c <=? 254) && negb (c =? 247) then c - 32
  else c.

(** The unit whose canonical form [c] is, if it is not [c] itself. *)
Definition uncanonicalize (c : Z) : Z :=
  if (65 <=? c) && (c <=? 90) then c + 32
  else if (192 <=? c) && (c <=? 222) && negb (c =? 215) then c + 32
  else c.

Definition inRanges (ranges : list (Z * Z)) (c : Z) : bool :=
  existsb (fun r => (fst r <=? c) && (c <=? snd r)) ranges.

(** Does a member of the class have the canonical form of [c]? *)
Definition inClass (ignoreCase : bool) (ranges : list (Z * Z)) (c : Z) : bool :=
  if ignoreCase then
    existsb (fun a => inRanges ranges a && (canonicalize a =? canonicalize c))
            [c; canonicalize c; uncanonicalize (canonicalize c)]
  else inRanges ranges c.

(** [\w]: the basic word characters. *)
Definition isWordChar (c : Z) : bool :=
  inRanges [(97, 122); (65, 90); (48, 57); (95, 95)] c.

Definition wordAt (s : jsstring) (i : nat) : bool :=
  match nth_error s i with Some c => isWordChar c | None => false end.

Definition isLineTerminator (c : Z) : bool :=
  (c =? 10) || (c =? 13) || (c =? 8232) || (c =? 8233).

(** The matcher: [matchFrom ic r s i k] tries [r] at offset [i] of [s] and
    hands the end offset to the continuation [k].  A quantifier runs at most
    [min + length s] rounds (a round past the minimum has to consume a
    unit), which is the fuel of the inner loop. *)
Fixpoint matchFrom (ignoreCase : bool) (r : regex) (s : jsstring) (i : nat)
    (k : nat -> option nat) {struct r} : option nat :=
  match r with
  | Eps => k i
  | Cls negated ranges =>
      match nth_error s i with
      | Some c => if xorb negated (inClass ignoreCase ranges c) then k (S i) else None
      | None => None
      end
  | Seq a b => matchFrom ignoreCase a s i (fun j => matchFrom ignoreCase b s j k)
  | Alt a b =>
      match matchFrom ignoreCase a s i k with
      | Some e => Some e
      | None => matchFrom ignoreCase b s i k
      end
  | Rep min max a =>
      (fix repeatMatcher (fuel min : nat) (max : option nat) (i : nat)
           {struct fuel} : option nat :=
         match fuel with
         | O => None
         | S fuel' =>
             match max with
             | Some O => k i
             | _ =>
                 let z :=
                   matchFrom ignoreCase a s i
                     (fun j =>
                        if (min =? 0)%nat && (j =? i)%nat then None
                        else repeatMatcher fuel' (pred min) (option_map pred max) j) in
                 match min with
                 | S _ => z
                 | O => match z with Some e => Some e | None => k i end
                 end
             end
         end) (S (S (min + length s))) min max i
  | WordB =>
      let a := match i with O => false | S i' => wordAt s i' end in
      if xorb a (wordAt s i) then k i else None
  | Bol =>
      match i with
      | O => k i
      | S i' => match nth_error s i' with
                | Some c => if isLineTerminator c then k i else None
                | None => None
                end
      end
  end.

(** The first match at or after [i]: start and end offsets. *)
Fixpoint execFrom (fuel : nat) (ignoreCase : bool) (r : regex) (s : jsstring)
    (i : nat) : option (nat * nat) :=
  match matchFrom ignoreCase r s i Some with
  | Some e => Some (i, e)
  | None =>
      match fuel with
      | O => None
      | S fuel' => if (length s <=? i)%nat then None
                   else execFrom fuel' ignoreCase r s (S i)
      end
  end.

(** [re.test(s)] for a fresh expression. *)
Definition test (ignoreCase : bool) (r : regex) (s : jsstring) : bool :=
  match execFrom (length s) ignoreCase r s 0 with Some _ => true | None => false end.

(** [Array.from(s.matchAll(re)).map((m) => m[0])]: the successive matches,
    each search resuming at the end of the previous match (one unit further
    after an empty match). *)
Fixpoint matchAllFrom (fuel : nat) (ignoreCase : bool) (r : regex) (s : jsstring)
    (lastIndex : nat) : list jsstring :=
  match fuel with
  | O => []
  | S fuel' =>
      match (if (length s <? lastIndex)%nat then None
             else execFrom (length s) ignoreCase r s lastIndex) with
      | None => []
      | Some (b, e) =>
          firstn (e - b) (skipn b s)
            :: matchAllFrom fuel' ignoreCase r s (if (e =? b)%nat then S e else e)
      end
  end.

Definition matchAll (ignoreCase : bool) (r : regex) (s : jsstring) : list jsstring :=
  matchAllFrom (S (length s)) ignoreCase r s 0.

(** *** Writing expressions *)

Definition chr (a : ascii) : regex :=
  let c := Z.of_nat (nat_of_ascii a) in Cls false [(c, c)].

Definition rng (a b : ascii) : Z * Z :=
  (Z.of_nat (nat_of_ascii a), Z.of_nat (nat_of_ascii b)).

Definition one (a : ascii) : Z * Z := rng a a.

Fixpoint seqs (l : list regex) : regex :=
  match l with
  | [] => Eps
  | [r] => r
  | r :: l' => Seq r (seqs l')
  end.

Fixpoint alts (l : list regex) : regex :=
  match l with
  | [] => Eps
  | [r] => r
  | r :: l' => Alt r (alts l')
  end.

Definition str (s : string) : regex := seqs (map chr (list_ascii_of_string s)).
Definition plus (r : regex) : regex := Rep 1 None r.
Definition opt (r : regex) : regex := Rep 0 (Some 1%nat) r.
Definition atLeast (n : nat) (r : regex) : regex := Rep n None r.
Definition times (n : nat) (r : regex) : regex := Rep n (Some n) r.
Definition between (n m : nat) (r : regex) : regex := Rep n (Some m) r.

(** [\s]: white space and line terminators. *)
Definition spaceRanges : list (Z * Z) :=
  [(9, 13); (32, 32); (160, 160); (5760, 5760); (8192, 8202); (8232, 8233);
   (8239, 8239); (8287, 8287); (12288, 12288); (65279, 65279)].

Definition digit : regex := Cls false [rng "0" "9"].

(** ** Signal extractor *)

Definition notSpaceParen : regex := Cls true (spaceRanges ++ [one ")"]).

(** [/(https?:\/\/[^\s)]+)|(\b[a-zA-Z0-9.-]+\.[a-zA-Z]{2,}(?:\/[^\s)]+)?)|(\bbit\.ly\/[^\s)]+)/gi] *)
Definition urlRegex : regex :=
  alts
    [ seqs [str "http"; opt (chr "s"); str "://"; plus notSpaceParen];
      seqs [WordB;
            plus (Cls false [rng "a" "z"; rng "A" "Z"; rng "0" "9"; one "."; one "-"]);
            chr ".";
            atLeast 2 (Cls false [rng "a" "z"; rng "A" "Z"]);
            opt (seqs [chr "/"; plus notSpaceParen])];
      seqs [WordB; str "bit"; chr "."; str "ly"; chr "/"; plus notSpaceParen] ].

(** [/\b[A-Z0-9._%+-]+@[A-Z0-9.-]+\.[A-Z]{2,}\b/gi] *)
Definition emailRegex : regex :=
  seqs [WordB;
        plus (Cls false [rng "A" "Z"; rng "0" "9"; one "."; one "_"; one "%"; one "+"; one "-"]);
        chr "@";
        plus (Cls false [rng "A" "Z"; rng "0" "9"; one "."; one "-"]);
        chr ".";
        atLeast 2 (Cls false [rng "A" "Z"]);
        WordB].

Definition sepOpt : regex := opt (Cls false (spaceRanges ++ [one "."; one "-"])).

(** [/(\+?\d{1,2}\s?)?(\(?\d{3}\)?[\s.-]?)\d{3}[\s.-]?\d{4}/g] *)
Definition phoneRegex : regex :=
  seqs [opt (seqs [opt (chr "+"); between 1 2 digit; opt (Cls false spaceRanges)]);
        seqs [opt (chr "("); times 3 digit; opt (chr ")"); sepOpt];
        times 3 digit; sepOpt; times 4 digit].

(** [/bit\.ly|tinyurl|t\.co/i] *)
Definition shortenerRegex : regex :=
  alts [seqs [str "bit"; chr "."; str "ly"]; str "tinyurl"; seqs [chr "t"; chr "."; str "co"]].

Record Tactic := mkTactic {
  name : jsstring;
  confidence : Q;
  explanation : jsstring;
  evidence : list jsstring }.

(** What [extractSignals] returns. *)
Module Signals.
Record t := mk {
  urls : list jsstring;
  emails : list jsstring;
  phone_numbers : list jsstring;
  heuristic_score : Z;
  heuristic_tactics : list Tactic;
  suspicious_spans : list Span }.
End Signals.

(** The trigger phrases of each keyword category, in the order of the source. *)
Definition urgencyPhrases : list jsstring :=
  lits ["act now"; "urgent"; "immediately"; "within 24 hours"; "final notice";
        "asap"; "last chance"]%string.

Definition fearPhrases : list jsstring :=
  lits ["legal action"; "account suspended"; "locked"; "security alert";
        "warrant"; "police"; "breach"]%string.

Definition authorityPhrases : list jsstring :=
  lits ["irs"; "bank"; "support"; "microsoft"; "apple"; "payroll"; "hr"; "ceo";
        "admin"; "it team"]%string.

Definition moneyPhrases : list jsstring :=
  lits ["gift card"; "wire"; "bitcoin"; "crypto"; "payment"; "invoice";
        "refund"; "owe"; "transfer"]%string.

Definition otpPhrases : list jsstring :=
  lits ["verification code"; "otp"; "2fa"; "send the code"; "one-time code";
        "code we sent"]%string.

Definition rewardPhrases : list jsstring :=
  lits ["winner"; "free"; "bonus"; "claim"; "prize"; "reward"]%string.

Definition credPhrases : list jsstring :=
  lits ["password"; "login"; "sign in"; "reset"; "verify your account";
        "confirm your identity"]%string.

Definition attachmentPhrases : list jsstring :=
  lits ["attachment"; "invoice attached"; "open the file"; ".zip"; ".html";
        ".iso"; ".exe"; ".docm"]%string.

Definition viralPhrases : list jsstring :=
  [ (lit "share before it's deleted");
    (lit "share before it" ++ [8217] ++ lit "s deleted");
    (lit "they don" ++ [8217] ++ lit "t want you to know");
    (lit "they don't want you to know");
    (lit "link in bio");
    (lit "repost");
    (lit "share now");
    (lit "before it's removed");
    (lit "before it" ++ [8217] ++ lit "s removed") ].

Definition getRichPhrases : list jsstring :=
  lits ["double your money"; "guaranteed returns"; "overnight";
        "miracle trick"; "get rich quick"]%string.


(** [if (c) score += w], and [if (hits.length) tactics.push(t)]. *)
Definition addIf (c : bool) (w : Z) (score : Z) : Z := if c then score + w else score.
Definition pushIf {A : Type} (c : bool) (x : A) (l : list A) : list A :=
  if c then l ++ [x] else l.

(** [hits.length] as a condition. *)
Definition nonEmpty {A : Type} (l : list A) : bool :=
  match l with [] => false | _ :: _ => true end.

Definition lowSignal : Tactic :=
  mkTactic (lit "Low Signal") (60 # 1) (lit "No strong scam markers detected.") [].

Definition extractSignals (text : jsstring) : Signals.t :=
  let urls := firstn 40 (matchAll true urlRegex text) in
  let emails := firstn 40 (matchAll true emailRegex text) in
  let phone_numbers := firstn 40 (matchAll false phoneRegex text) in
  let lower := toLowerCase text in
  let has := fun s => includes lower s in
  let urgencyHits := filter has urgencyPhrases in
  let fearHits := filter has fearPhrases in
  let authorityHits := filter has authorityPhrases in
  let moneyHits := filter has moneyPhrases in
  let otpHits := filter has otpPhrases in
  let rewardHits := filter has rewardPhrases in
  let credHits := filter has credPhrases in
  let attachmentHits := filter has attachmentPhrases in
  let viralHits := filter has viralPhrases in
  let getRichHits := filter has getRichPhrases in
  let score := 0 in
  let score := addIf (nonEmpty urls) 16 score in
  let score := addIf (existsb (test true shortenerRegex) urls) 10 score in
  let score := addIf (nonEmpty moneyHits) 16 score in
  let score := addIf (nonEmpty otpHits) 26 score in
  let score := addIf (nonEmpty credHits) 18 score in
  let score := addIf (nonEmpty urgencyHits) 10 score in
  let score := addIf (nonEmpty fearHits) 10 score in
  let score := addIf (nonEmpty authorityHits) 7 score in
  let score := addIf (nonEmpty rewardHits) 10 score in
  let score := addIf (nonEmpty attachmentHits) 10 score in
  let score := addIf (nonEmpty viralHits) 22 score in
  let score := addIf (nonEmpty getRichHits) 22 score in
  let score := Z.min 100 score in
  let tactics := [] in
  let tactics := pushIf (nonEmpty urgencyHits)
        (mkTactic (lit "Urgency") (80 # 1)
           (lit "Deadlines and pressure reduce careful checking.")
           (firstn 3 urgencyHits)) tactics in
  let tactics := pushIf (nonEmpty fearHits)
        (mkTactic (lit "Fear") (78 # 1)
           (lit "Threat language pushes panic decisions.")
           (firstn 3 fearHits)) tactics in
  let tactics := pushIf (nonEmpty authorityHits)
        (mkTactic (lit "Authority") (72 # 1)
           (lit "Impersonation of trusted roles/orgs increases compliance.")
           (firstn 3 authorityHits)) tactics in
  let tactics := pushIf (nonEmpty moneyHits)
        (mkTactic (lit "Financial Hook") (82 # 1)
           (lit "Payment/refund/gift card themes are common scam patterns.")
           (firstn 3 moneyHits)) tactics in
  let tactics := pushIf (nonEmpty otpHits)
        (mkTactic (lit "Code Theft") (92 # 1)
           (lit "Requests for OTP/MFA codes are a major takeover indicator.")
           (firstn 3 otpHits)) tactics in
  let tactics := pushIf (nonEmpty credHits)
        (mkTactic (lit "Credential Harvest") (86 # 1)
           (lit "Attempts to steal logins via fake verification/reset.")
           (firstn 3 credHits)) tactics in
  let tactics := pushIf (nonEmpty attachmentHits)
        (mkTactic (lit "Attachment Lure") (75 # 1)
           (lit "Attachments are a common malware delivery method.")
           (firstn 3 attachmentHits)) tactics in
  let tactics := pushIf (nonEmpty viralHits)
        (mkTactic (lit "Virality / Engagement Bait") (85 # 1)
           (lit "Uses viral language to pressure sharing without verification.")
           (firstn 3 viralHits)) tactics in
  let tactics := pushIf (nonEmpty getRichHits)
        (mkTactic (lit "Too-Good-To-Be-True Money Claim") (88 # 1)
           (lit "Promises fast/guaranteed money " ++ [8212] ++ lit " a common fraud pattern.")
           (firstn 3 getRichHits)) tactics in
  let tactics := pushIf (negb (nonEmpty tactics)) lowSignal tactics in
  let suspicious_spans := findSpans text spanPhrases in
  Signals.mk urls emails phone_numbers score tactics suspicious_spans.

(** ** Attack-type classifier *)

(** [/\b(a|b|...)\b/]: one of the alternatives between word boundaries. *)
Definition wholeWord (l : list regex) : regex := seqs [WordB; alts l; WordB].

(** [share before it'?s deleted] *)
Definition shareBeforeDeleted : regex :=
  seqs [str "share before it"; opt (chr "'"); str "s deleted"].

(** [they don[’']t want you to know], with U+2019 in the class. *)
Definition theyDontWant : regex :=
  seqs [str "they don"; Cls false [(8217, 8217); one "'"]; str "t want you to know"].

Definition hasCredRegex : regex :=
  wholeWord [str "password"; str "login"; str "sign in"; str "verify your account";
             str "reset"; str "confirm your identity"].
Definition hasOtpRegex : regex :=
  wholeWord [str "otp"; str "verification code"; str "one-time code"; str "2fa";
             str "mfa"; str "code we sent"].
Definition hasMoneyRegex : regex :=
  wholeWord [str "gift card"; str "wire"; str "bank transfer"; str "invoice";
             str "payment"; str "crypto"; str "bitcoin"].
Definition hasImpersonationRegex : regex :=
  wholeWord [str "hr"; str "payroll"; str "it"; str "helpdesk"; str "admin";
             str "ceo"; str "cfo"; str "finance"; str "bank"; str "support"].
Definition hasAttachmentRegex : regex :=
  wholeWord [str "attachment"; str ".zip"; str ".html"; str ".iso"; str ".exe"; str ".docm"].
Definition hasViralityRegex : regex :=
  wholeWord [str "link in bio"; shareBeforeDeleted; theyDontWant; str "repost";
             str "share now"; str "viral"].
Definition hasGetRichRegex : regex :=
  wholeWord [str "double your money"; str "guaranteed returns"; str "overnight";
             str "miracle trick"; str "get rich quick"].

Inductive Kind := KText | KEmail | KSocial.
Inductive EmailMode := personal | work.

Definition Kind_eqb (a b : Kind) : bool :=
  match a, b with
  | KText, KText | KEmail, KEmail | KSocial, KSocial => true
  | _, _ => false
  end.

Record AttackType := mkAttackType {
  tag : jsstring;
  at_confidence : Q;
  rationale : jsstring }.

(** A [Map] from tags: the entries in insertion order; [set] on a key that
    is there replaces the value in place. *)
Definition TagMap := list (jsstring * AttackType).

Fixpoint mapGet (m : TagMap) (k : jsstring) : option AttackType :=
  match m with
  | [] => None
  | (k', v) :: m' => if str_eqb k' k then Some v else mapGet m' k
  end.

Fixpoint mapSet (m : TagMap) (k : jsstring) (v : AttackType) : TagMap :=
  match m with
  | [] => [(k, v)]
  | (k', v') :: m' => if str_eqb k' k then (k, v) :: m' else (k', v') :: mapSet m' k v
  end.

Definition mapValues (m : TagMap) : list AttackType := map snd m.

(** [Array.prototype.sort] is stable: an insertion sort in which an element
    stays in front of the first one it may precede.  [mayPrecede x y] is
    [compare(x, y) <= 0]. *)
Fixpoint insertSorted {A : Type} (mayPrecede : A -> A -> bool) (x : A) (l : list A)
    : list A :=
  match l with
  | [] => [x]
  | y :: l' => if mayPrecede x y then x :: y :: l'
               else y :: insertSorted mayPrecede x l'
  end.

Definition sortBy {A : Type} (mayPrecede : A -> A -> bool) (l : list A) : list A :=
  fold_right (insertSorted mayPrecede) [] l.

(** [!prev || t.confidence > prev.confidence] *)
Definition keepsMax (m : TagMap) (t : AttackType) : TagMap :=
  match mapGet m (tag t) with
  | None => mapSet m (tag t) t
  | Some prev =>
      if negb (Qle_bool (at_confidence t) (at_confidence prev))
      then mapSet m (tag t) t else m
  end.

Definition zq (z : Z) : Q := inject_Z z.

Definition buildAttackTypesHeuristic (kind : Kind) (text : jsstring)
    (urls : list jsstring) : list AttackType :=
  let hasCred := test true hasCredRegex text in
  let hasOtp := test true hasOtpRegex text in
  let hasMoney := test true hasMoneyRegex text in
  let hasImpersonation := test true hasImpersonationRegex text in
  let hasAttachment := test true hasAttachmentRegex text in
  let hasVirality := test true hasViralityRegex text in
  let hasGetRich := test true hasGetRichRegex text in
  let tags := [] in
  let tags :=
    if Kind_eqb kind KEmail || Kind_eqb kind KText then
      let tags := pushIf (hasCred || hasOtp || nonEmpty urls)
        (mkAttackType (lit "phishing")
           (zq (Z.min 95 (55 + (if hasOtp then 30 else 0) + (if hasCred then 20 else 0)
                             + (if nonEmpty urls then 10 else 0))))
           (lit "Tries to get you to click/login/share secrets.")) tags in
      let tags := pushIf hasImpersonation
        (mkAttackType (lit "pretexting") (zq 80)
           (lit "Pretends to be a trusted role/org to make you comply.")) tags in
      let tags := pushIf (hasMoney && hasImpersonation)
        (mkAttackType (lit "BEC / CEO fraud") (zq 85)
           (lit "Authority + payment request pattern.")) tags in
      let tags := pushIf hasAttachment
        (mkAttackType (lit "malware lure") (zq 75)
           (lit "Attachment-driven delivery is a common malware vector.")) tags in
      let tags := pushIf hasOtp
        (mkAttackType (lit "code theft") (zq 90)
           (lit "Requests for OTP/MFA codes are a major takeover indicator.")) tags in
      let tags := pushIf hasCred
        (mkAttackType (lit "credential harvesting") (zq 84)
           (lit "Attempts to capture logins via fake verification/reset.")) tags in
      pushIf (hasVirality || hasGetRich)
        (mkAttackType (lit "spam / engagement bait") (zq 85)
           (lit "Viral bait / get-rich-quick content is high-risk spam.")) tags
    else tags in
  let tags :=
    if Kind_eqb kind KSocial then
      let tags := pushIf hasVirality
        (mkAttackType (lit "misinformation / engagement bait") (zq 85)
           (lit "Uses virality pressure and vague claims to drive shares.")) tags in
      pushIf hasGetRich
        (mkAttackType (lit "investment fraud / get-rich-quick") (zq 84)
           (lit "Promises of quick money are common fraud patterns.")) tags
    else tags in
  let map := fold_left keepsMax tags [] in
  firstn 6 (sortBy (fun a b => Qle_bool (at_confidence b) (at_confidence a))
                   (mapValues map)).

(** ** Advice *)

Definition workEmailAdvice : list jsstring :=
  [ (lit "Do not click links or open attachments from this email.");
    (lit "Verify via an official channel (company directory/known number/official portal) " ++ [8212] ++ lit " not by replying.");
    (lit "Never share passwords, MFA/OTP codes, or approve unexpected sign-in prompts.");
    (lit "Report it to your security/IT team using the phishing report button or a ticket.");
    (lit "If you already clicked, change passwords via the official portal and notify IT immediately.") ].

Definition personalEmailAdvice : list jsstring :=
  [ (lit "Don" ++ [8217] ++ lit "t click links or download files from the message.");
    (lit "Open the official app/site directly to verify (don" ++ [8217] ++ lit "t use the message link).");
    (lit "Never share OTP codes, passwords, or banking information.");
    (lit "Block/report the sender as spam/phishing.") ].

(** The first of the next steps under a kind mismatch. *)
Definition tabSwitchInstruction : jsstring :=
  (lit "This doesn" ++ [8217] ++ lit "t look like an email " ++ [8212] ++ lit " switch to Social (or Text) tab for accurate analysis.").

Definition mismatchAdvice : list jsstring :=
  [ tabSwitchInstruction;
    (lit "Do not reshare. Virality pressure is a manipulation tactic.");
    (lit "Avoid " ++ [8216] ++ lit "link in bio" ++ [8217] ++ lit "/short links; verify with trusted sources.");
    (lit "Report/block the account if it pushes money or secrecy.") ].

Definition socialAdvice : list jsstring :=
  [ (lit "Don" ++ [8217] ++ lit "t reshare immediately " ++ [8212] ++ lit " verify via reliable sources.");
    (lit "Watch for engagement bait language.");
    (lit "Report impersonation/scam content.") ].

Definition textAdvice : list jsstring :=
  [ (lit "Don" ++ [8217] ++ lit "t click links or share codes.");
    (lit "Verify via official app/site.");
    (lit "Block/report if suspicious.") ].

(** ** Knowledge base ([src/lib/rag.ts])

    The entries come from [data/scam_kb.json], which is not among the
    sources: the table is a parameter of everything that reads it.  The two
    numbers of an entry are integers here. *)

Record KbEntry := mkKbEntry {
  id : jsstring;
  tags : list jsstring;
  title : jsstring;
  risk_boost : Z;
  min_risk : option Z;
  why_risky : list jsstring;
  what_to_do : list jsstring;
  safe_reply_template : jsstring }.

Definition normalize (s : jsstring) : jsstring := toLowerCase s.

(** [/(^subject:)|(^from:)|(^to:)|(^date:)|(^cc:)/m.test(text) || /@/.test(text)] *)
Definition headerLineRegex : regex :=
  alts [seqs [Bol; str "subject:"]; seqs [Bol; str "from:"]; seqs [Bol; str "to:"];
        seqs [Bol; str "date:"]; seqs [Bol; str "cc:"]].

Definition looksLikeEmail (text : jsstring) : bool :=
  test false headerLineRegex text || test false (chr "@") text.

(** The social-bait expression as [rag.ts] has it: the class after [don]
    holds the units U+00E2, U+20AC, U+2122 and the apostrophe. *)
Definition socialRegexRag : regex :=
  alts [str "link in bio"; shareBeforeDeleted;
        seqs [str "they don"; Cls false [(226, 226); (8364, 8364); (8482, 8482); one "'"];
              str "t want you to know"];
        str "repost"; str "viral"; str "double your money"; str "miracle trick"].

Definition emailMode_is_work (m : option EmailMode) : bool :=
  match m with Some work => true | _ => false end.

Definition kbScore (text : jsstring) (kind : Kind) (emailMode : option EmailMode)
    (e : KbEntry) : Z :=
  let t := normalize text in
  let score :=
    fold_left (fun score tag =>
                 let tagN := normalize tag in
                 addIf ((3 <=? len tagN) && includes t tagN) 3 score)
              (tags e) 0 in
  let score :=
    addIf (str_eqb (id e) (lit "format_not_email") && Kind_eqb kind KEmail
           && negb (looksLikeEmail text) && test true socialRegexRag text) 12 score in
  addIf (emailMode_is_work emailMode && str_eqb (id e) (lit "ceo_gift_cards")) 1 score.

Definition retrieveKbK (kb : list KbEntry) (text : jsstring) (kind : Kind)
    (emailMode : option EmailMode) (k : nat) : list KbEntry :=
  let scored := map (fun e => (e, kbScore text kind emailMode e)) kb in
  map fst
    (firstn k
       (sortBy (fun a b => snd b <=? snd a)
               (filter (fun x => 0 <? snd x) scored))).

(** [k] defaults to 4. *)
Definition retrieveKb (kb : list KbEntry) (text : jsstring) (kind : Kind)
    (emailMode : option EmailMode) : list KbEntry :=
  retrieveKbK kb text kind emailMode 4.

Definition kbRiskBoost (entries : list KbEntry) : Z :=
  fold_left (fun sum e => sum + risk_boost e) entries 0.

Definition kbMinRisk (entries : list KbEntry) : Z :=
  fold_left (fun m e => Z.max m (match min_risk e with Some r => r | None => 0 end))
            entries 0.

(** ** JSON values

    What [JSON.parse] returns; an object keeps its keys in insertion order,
    a repeated key keeping its first place and its last value. *)

#[local] Set Warnings "-register-all".
Inductive JValue :=
| JNull
| JBool (b : bool)
| JNum (q : Q)
| JStr (s : jsstring)
| JArr (items : list JValue)
| JObj (members : list (jsstring * JValue)).

Fixpoint objSet (m : list (jsstring * JValue)) (k : jsstring) (v : JValue)
    : list (jsstring * JValue) :=
  match m with
  | [] => [(k, v)]
  | (k', v') :: m' => if str_eqb k' k then (k, v) :: m' else (k', v') :: objSet m' k v
  end.

(** [o[k]]: [None] is [undefined]. *)
Fixpoint objGet (m : list (jsstring * JValue)) (k : jsstring) : option JValue :=
  match m with
  | [] => None
  | (k', v) :: m' => if str_eqb k' k then Some v else objGet m' k
  end.

Definition isJsonSpace (c : Z) : bool :=
  (c =? 32) || (c =? 9) || (c =? 10) || (c =? 13).

Fixpoint skipSpace (s : jsstring) : jsstring :=
  match s with
  | c :: s' => if isJsonSpace c then skipSpace s' else s
  | [] => []
  end.

Definition isDigit (c : Z) : bool := (48 <=? c) && (c <=? 57).

Definition hexValue (c : Z) : option Z :=
  if isDigit c then Some (c - 48)
  else if (97 <=? c) && (c <=? 102) then Some (c - 87)
  else if (65 <=? c) && (c <=? 70) then Some (c - 55)
  else None.

(** The rest of a string literal after its opening quote. *)
Fixpoint parseChars (s acc : jsstring) : option (jsstring * jsstring) :=
  match s with
  | [] => None
  | 34 :: rest => Some (acc, rest)
  | 92 :: e :: rest =>
      if e =? 117 then
        match rest with
        | h1 :: h2 :: h3 :: h4 :: rest' =>
            match hexValue h1, hexValue h2, hexValue h3, hexValue h4 with
            | Some a, Some b, Some c, Some d =>
                parseChars rest' (acc ++ [((a * 16 + b) * 16 + c) * 16 + d])
            | _, _, _, _ => None
            end
        | _ => None
        end
      else
        match (if (e =? 34) || (e =? 92) || (e =? 47) then Some e
               else if e =? 98 then Some 8
               else if e =? 102 then Some 12
               else if e =? 110 then Some 10
               else if e =? 114 then Some 13
               else if e =? 116 then Some 9
               else None) with
        | Some c => parseChars rest (acc ++ [c])
        | None => None
        end
  | c :: rest => if (c <? 32) || (c =? 92) then None else parseChars rest (acc ++ [c])
  end.

(** The leading digits of [s]: their value, their number, and the rest. *)
Fixpoint digits (s : jsstring) (value : Z) (count : nat) : Z * nat * jsstring :=
  match s with
  | c :: s' => if isDigit c then digits s' (value * 10 + (c - 48)) (S count)
               else (value, count, s)
  | [] => (value, count, [])
  end.

(** A number literal: [-? int frac? exp?], read exactly ([JSON.parse] rounds
    it to the nearest double). *)
Definition parseNumber (s : jsstring) : option (Q * jsstring) :=
  let '(negative, s) :=
    match s with 45 :: s' => (true, s') | _ => (false, s) end in
  let '(int, n, rest) := digits s 0 0 in
  let leadingZero := match s with 48 :: _ => true | _ => false end in
  if (n =? 0)%nat || (leadingZero && negb (n =? 1)%nat) then None
  else
    let fracPart :=
      match rest with
      | 46 :: r =>
          let '(f, k, r') := digits r 0 0 in
          if (k =? 0)%nat then None else Some (f, k, r')
      | _ => Some (0, O, rest)
      end in
    match fracPart with
    | None => None
    | Some (f, k, rest) =>
        let expPart :=
          match rest with
          | c :: r =>
              if (c =? 101) || (c =? 69) then
                let '(neg, r) :=
                  match r with
                  | 45 :: r' => (true, r')
                  | 43 :: r' => (false, r')
                  | _ => (false, r)
                  end in
                let '(e, m, r') := digits r 0 0 in
                if (m =? 0)%nat then None
                else Some ((if neg then - e else e), r')
              else Some (0, rest)
          | [] => Some (0, rest)
          end in
        match expPart with
        | None => None
        | Some (e, rest) =>
            let mantissa := int * 10 ^ Z.of_nat k + f in
            let q := Qred (inject_Z (if negative then - mantissa else mantissa)
                           * Qpower (10 # 1) (e - Z.of_nat k)) in
            Some (q, rest)
        end
    end.

Fixpoint parseValue (fuel : nat) (s : jsstring) : option (JValue * jsstring) :=
  match fuel with
  | O => None
  | S fuel' =>
      match skipSpace s with
      | 110 :: 117 :: 108 :: 108 :: rest => Some (JNull, rest)
      | 116 :: 114 :: 117 :: 101 :: rest => Some (JBool true, rest)
      | 102 :: 97 :: 108 :: 115 :: 101 :: rest => Some (JBool false, rest)
      | 34 :: rest =>
          match parseChars rest [] with
          | Some (str, rest') => Some (JStr str, rest')
          | None => None
          end
      | 91 :: rest =>
          match skipSpace rest with
          | 93 :: rest' => Some (JArr [], rest')
          | _ => match parseElements fuel' rest [] with
                 | Some (items, rest') => Some (JArr items, rest')
                 | None => None
                 end
          end
      | 123 :: rest =>
          match skipSpace rest with
          | 125 :: rest' => Some (JObj [], rest')
          | _ => match parseMembers fuel' rest [] with
                 | Some (members, rest') => Some (JObj members, rest')
                 | None => None
                 end
          end
      | c :: rest =>
          if (c =? 45) || isDigit c then
            match parseNumber (c :: rest) with
            | Some (q, rest') => Some (JNum q, rest')
            | None => None
            end
          else None
      | [] => None
      end
  end
with parseElements (fuel : nat) (s : jsstring) (acc : list JValue)
    : option (list JValue * jsstring) :=
  match fuel with
  | O => None
  | S fuel' =>
      match parseValue fuel' s with
      | Some (v, rest) =>
          match skipSpace rest with
          | 44 :: rest' => parseElements fuel' rest' (acc ++ [v])
          | 93 :: rest' => Some (acc ++ [v], rest')
          | _ => None
          end
      | None => None
      end
  end
with parseMembers (fuel : nat) (s : jsstring) (acc : list (jsstring * JValue))
    : option (list (jsstring * JValue) * jsstring) :=
  match fuel with
  | O => None
  | S fuel' =>
      match skipSpace s with
      | 34 :: rest =>
          match parseChars rest [] with
          | Some (key, rest') =>
              match skipSpace rest' with
              | 58 :: rest'' =>
                  match parseValue fuel' rest'' with
                  | Some (v, rest3) =>
                      match skipSpace rest3 with
                      | 44 :: rest4 => parseMembers fuel' rest4 (objSet acc key v)
                      | 125 :: rest4 => Some (objSet acc key v, rest4)
                      | _ => None
                      end
                  | None => None
                  end
              | _ => None
              end
          | None => None
          end
      | _ => None
      end
  end.

(** [JSON.parse(raw)]; [None] is the [SyntaxError] it throws.  A value takes
    one round of fuel for each element and two for each level of brackets,
    which are as many units of text at least. *)
Definition JSON_parse (raw : jsstring) : option JValue :=
  match parseValue (S (length raw)) raw with
  | Some (v, rest) => match skipSpace rest with [] => Some v | _ => None end
  | None => None
  end.

(** ** Request and response *)

Record Body := mkBody {
  kind : Kind;
  text : jsstring;
  emailMode : option EmailMode;
  senderEmail : option jsstring }.

Record Extracted := mkExtracted {
  urls : list jsstring;
  phone_numbers : list jsstring;
  emails : list jsstring }.

(** The value that [AnalyzeSchema.parse] returns. *)
Module Ai.
Record t := mk {
  risk_score : Q;
  verdict : Verdict;
  tactics : list Tactic;
  suspicious_spans : list Span;
  extracted : Extracted;
  attack_types : list AttackType;
  next_steps : list jsstring;
  safe_reply : jsstring;
  summary : jsstring }.
End Ai.

Record AnalysisResult := mkResult {
  risk_score : Z;
  verdict : Verdict;
  tactics : list Tactic;
  suspicious_spans : list Span;
  extracted : Extracted;
  attack_types : list AttackType;
  next_steps : list jsstring;
  safe_reply : jsstring;
  summary : jsstring }.

(** What went wrong when the handler answers [{ error }] with status 400. *)
Inductive Failure :=
| InvalidBody
| ModelCallFailed
| ModelOutputNotJson
| ModelOutputOffSchema.

Inductive Response :=
| Json (result : AnalysisResult)
| ErrorJson (cause : Failure) (status : Z).

(** The outcome of [client.chat.completions.create]: it rejects, or it
    resolves and [choices[0]?.message?.content] is a string or missing. *)
Inductive Completion :=
| Rejected
| Resolved (content : option jsstring).

(** [client]: [null] without [OPENAI_API_KEY]; otherwise the service, seen
    through the one answer it gives to the request at hand. *)
Inductive Client :=
| NoClient
| Service (answer : Completion).

(** ** Schema validation *)

Notation "x <- e ;; k" := (match e with Some x => k | None => None end)
  (at level 61, e at next level, right associativity).

Definition key (m : list (jsstring * JValue)) (k : string) : option JValue :=
  objGet m (lit k).

(** A member that has to be there. *)
Definition required {A : Type} (schema : JValue -> option A) (v : option JValue)
    : option A :=
  match v with Some v => schema v | None => None end.

(** [schema.default(d)] *)
Definition withDefault {A : Type} (d : A) (schema : JValue -> option A)
    (v : option JValue) : option A :=
  match v with Some v => schema v | None => Some d end.

(** [schema.optional()] *)
Definition optional {A : Type} (schema : JValue -> option A) (v : option JValue)
    : option (option A) :=
  match v with Some v => (x <- schema v ;; Some (Some x)) | None => Some None end.

Definition zString (v : JValue) : option jsstring :=
  match v with JStr s => Some s | _ => None end.

(** [z.number().min(lo).max(hi)] *)
Definition zNumberIn (lo hi : Q) (v : JValue) : option Q :=
  match v with
  | JNum q => if Qle_bool lo q && Qle_bool q hi then Some q else None
  | _ => None
  end.

(** [z.number().int()] *)
Definition zInt (v : JValue) : option Z :=
  match v with
  | JNum q => if (Qden (Qred q) =? 1)%positive then Some (Qnum (Qred q)) else None
  | _ => None
  end.

Fixpoint traverse {A B : Type} (f : A -> option B) (l : list A) : option (list B) :=
  match l with
  | [] => Some []
  | x :: l' => y <- f x ;; ys <- traverse f l' ;; Some (y :: ys)
  end.

Definition zArray {A : Type} (schema : JValue -> option A) (v : JValue)
    : option (list A) :=
  match v with JArr items => traverse schema items | _ => None end.

Definition zObject {A : Type} (schema : list (jsstring * JValue) -> option A)
    (v : JValue) : option A :=
  match v with JObj members => schema members | _ => None end.

Definition zKind (v : JValue) : option Kind :=
  s <- zString v ;;
  if str_eqb s (lit "text") then Some KText
  else if str_eqb s (lit "email") then Some KEmail
  else if str_eqb s (lit "social") then Some KSocial
  else None.

Definition zEmailMode (v : JValue) : option EmailMode :=
  s <- zString v ;;
  if str_eqb s (lit "personal") then Some personal
  else if str_eqb s (lit "work") then Some work
  else None.

Definition zVerdict (v : JValue) : option Verdict :=
  s <- zString v ;;
  if str_eqb s (lit "harmless") then Some harmless
  else if str_eqb s (lit "suspicious") then Some suspicious
  else if str_eqb s (lit "dangerous") then Some dangerous
  else None.

(** [z.string().min(3)] *)
Definition zText (v : JValue) : option jsstring :=
  s <- zString v ;; if 3 <=? len s then Some s else None.

Definition BodySchema_parse : JValue -> option Body :=
  zObject (fun o =>
    kind <- withDefault KText zKind (key o "kind") ;;
    text <- required zText (key o "text") ;;
    emailMode <- optional zEmailMode (key o "emailMode") ;;
    senderEmail <- optional zString (key o "senderEmail") ;;
    Some (mkBody kind text emailMode senderEmail)).

Definition zTactic : JValue -> option Tactic :=
  zObject (fun o =>
    name <- required zString (key o "name") ;;
    confidence <- required (zNumberIn 0 100) (key o "confidence") ;;
    evidence <- withDefault [] (zArray zString) (key o "evidence") ;;
    explanation <- required zString (key o "explanation") ;;
    Some (mkTactic name confidence explanation evidence)).

Definition zSpan : JValue -> option Span :=
  zObject (fun o =>
    start <- required zInt (key o "start") ;;
    end_ <- required zInt (key o "end") ;;
    label <- required zString (key o "label") ;;
    reason <- required zString (key o "reason") ;;
    Some (mkSpan start end_ label reason)).

Definition zExtracted : JValue -> option Extracted :=
  zObject (fun o =>
    urls <- withDefault [] (zArray zString) (key o "urls") ;;
    phone_numbers <- withDefault [] (zArray zString) (key o "phone_numbers") ;;
    emails <- withDefault [] (zArray zString) (key o "emails") ;;
    Some (mkExtracted urls phone_numbers emails)).

Definition zAttackType : JValue -> option AttackType :=
  zObject (fun o =>
    tag <- required zString (key o "tag") ;;
    confidence <- required (zNumberIn 0 100) (key o "confidence") ;;
    rationale <- required zString (key o "rationale") ;;
    Some (mkAttackType tag confidence rationale)).

Definition AnalyzeSchema_parse : JValue -> option Ai.t :=
  zObject (fun o =>
    risk_score <- required (zNumberIn 0 100) (key o "risk_score") ;;
    verdict <- required zVerdict (key o "verdict") ;;
    tactics <- withDefault [] (zArray zTactic) (key o "tactics") ;;
    suspicious_spans <- withDefault [] (zArray zSpan) (key o "suspicious_spans") ;;
    extracted <- withDefault (mkExtracted [] [] []) zExtracted (key o "extracted") ;;
    attack_types <- withDefault [] (zArray zAttackType) (key o "attack_types") ;;
    next_steps <- withDefault [] (zArray zString) (key o "next_steps") ;;
    safe_reply <- withDefault [] zString (key o "safe_reply") ;;
    summary <- withDefault [] zString (key o "summary") ;;
    Some (Ai.mk risk_score verdict tactics suspicious_spans extracted attack_types
                next_steps safe_reply summary)).

(** ** The handler *)

(** [/(link in bio|share before it'?s deleted|they don[’']t want you to know|repost|viral|double your money|miracle trick)/i] *)
Definition socialRegex : regex :=
  alts [str "link in bio"; shareBeforeDeleted; theyDontWant; str "repost"; str "viral";
        str "double your money"; str "miracle trick"].

Definition looksLikeSocial (text : jsstring) : bool := test true socialRegex text.

(** [Math.round(x)] on an exact number: the integer at or just above
    [x - 1/2].  The blend of the two scores is computed exactly here; in
    doubles it can differ by one when the exact blend is within rounding
    error of a half, and it keeps the bounds of the exact one. *)
Definition Math_round (x : Q) : Z := Qfloor (x + (1 # 2)).

(** [Math.min(25, Math.round(ragBoost / 3))] *)
Definition ragNudge (ragBoost : Z) : Z := Z.min 25 (Math_round (zq ragBoost / 3)).

(** [if (c) x = Math.max(x, floor)] *)
Definition raiseIf (c : bool) (floor : Z) (x : Z) : Z := if c then Z.max x floor else x.

(** [a || b] on strings: the empty string is falsy. *)
Definition orElse (a b : jsstring) : jsstring :=
  match a with [] => b | _ :: _ => a end.

(** [kbHits[0]?.safe_reply_template], [undefined] read as the empty string
    under [||]. *)
Definition firstTemplate (kbHits : list KbEntry) : jsstring :=
  match kbHits with e :: _ => safe_reply_template e | [] => [] end.

(** [Array.from(new Set(l))]: the first occurrence of each string, in order. *)
Fixpoint setFrom (l seen : list jsstring) : list jsstring :=
  match l with
  | [] => []
  | x :: l' => if existsb (str_eqb x) seen then setFrom l' seen
               else x :: setFrom l' (x :: seen)
  end.

Definition union40 (a b : list jsstring) : list jsstring :=
  firstn 40 (setFrom (a ++ b) []).

Definition mismatchSummary : jsstring :=
  (lit "This doesn" ++ [8217] ++ lit "t look like an email " ++ [8212] ++ lit " it reads like a viral/social post (engagement bait + unrealistic money claims). Treat as high-risk spam.").

(** The heuristic-only result, built before the model is consulted. *)
Definition fallbackResult (body : Body) (kindMismatch : bool)
    (signals : Signals.t) (attackTypesHeuristic : list AttackType)
    (kbHits : list KbEntry) : AnalysisResult :=
  let ragBoost := kbRiskBoost kbHits in
  let ragMinRisk := kbMinRisk kbHits in
  let fallbackScore := Signals.heuristic_score signals in
  let fallbackScore := Z.min 100 (fallbackScore + ragNudge ragBoost) in
  let fallbackScore := raiseIf (negb (ragMinRisk =? 0)) ragMinRisk fallbackScore in
  let fallbackScore := raiseIf kindMismatch 70 fallbackScore in
  mkResult
    fallbackScore
    (verdictFromScore fallbackScore)
    (Signals.heuristic_tactics signals)
    (Signals.suspicious_spans signals)
    (mkExtracted (Signals.urls signals) (Signals.phone_numbers signals)
                 (Signals.emails signals))
    attackTypesHeuristic
    (if kindMismatch then mismatchAdvice
     else match kind body with
          | KEmail => if emailMode_is_work (emailMode body) then workEmailAdvice
                      else personalEmailAdvice
          | KSocial => socialAdvice
          | KText => textAdvice
          end)
    (orElse (firstTemplate kbHits)
       (match kind body with
        | KEmail =>
            if emailMode_is_work (emailMode body)
            then (lit "I can" ++ [8217] ++ lit "t act on this request. I" ++ [8217] ++ lit "ll verify through official company channels before doing anything.")
            else (lit "I can" ++ [8217] ++ lit "t act on this request. I" ++ [8217] ++ lit "ll verify through the official website/app.")
        | _ => (lit "I can" ++ [8217] ++ lit "t act on this. I" ++ [8217] ++ lit "ll verify through official channels first.")
        end))
    (if kindMismatch then mismatchSummary
     else if fallbackScore >=? 35
     then (lit "This message shows common scam patterns and should be treated with caution.")
     else (lit "This message has low scam indicators based on quick checks.")).

(** The result when the model's answer passed the schema. *)
Definition blendedResult (ai : Ai.t) (kindMismatch : bool)
    (signals : Signals.t) (attackTypesHeuristic : list AttackType)
    (kbHits : list KbEntry) : AnalysisResult :=
  let ragBoost := kbRiskBoost kbHits in
  let ragMinRisk := kbMinRisk kbHits in
  let blended :=
    Math_round ((55 # 100) * Ai.risk_score ai
                + (45 # 100) * zq (Signals.heuristic_score signals)) in
  let blended := Z.min 100 (blended + ragNudge ragBoost) in
  let blended := raiseIf (negb (ragMinRisk =? 0)) ragMinRisk blended in
  let blended := raiseIf kindMismatch 70 blended in
  let summary := Ai.summary ai in
  let summary :=
    if kindMismatch
       && negb (includes (toLowerCase summary) (lit "doesn" ++ [8217] ++ lit "t look like an email"))
       && negb (includes (toLowerCase summary) (lit "doesn't look like an email"))
    then (lit "This doesn" ++ [8217] ++ lit "t look like an email format. ") ++ summary
    else summary in
  let safe_reply := orElse (firstTemplate kbHits) (Ai.safe_reply ai) in
  mkResult
    blended
    (verdictFromScore blended)
    (Ai.tactics ai)
    (if nonEmpty (Ai.suspicious_spans ai) then Ai.suspicious_spans ai
     else Signals.suspicious_spans signals)
    (mkExtracted
       (union40 (urls (Ai.extracted ai)) (Signals.urls signals))
       (union40 (phone_numbers (Ai.extracted ai)) (Signals.phone_numbers signals))
       (union40 (emails (Ai.extracted ai)) (Signals.emails signals)))
    (firstn 6 (if nonEmpty (Ai.attack_types ai) then Ai.attack_types ai
               else attackTypesHeuristic))
    (if kindMismatch then firstn 10 (mismatchAdvice ++ Ai.next_steps ai)
     else firstn 10 (Ai.next_steps ai))
    safe_reply
    summary.

(** [POST]: [req] is what [req.json()] gives ([None] when it rejects); any
    exception ends in the [catch] that answers with status 400.  The prompt
    that [buildPrompt] renders only reaches the service, whose answer is
    part of [client]. *)
Definition POST (kb : list KbEntry) (client : Client) (req : option JValue)
    : Response :=
  match req with
  | None => ErrorJson InvalidBody 400
  | Some json =>
  match BodySchema_parse json with
  | None => ErrorJson InvalidBody 400
  | Some body =>
      let looksLikeEmail := looksLikeEmail (text body) in
      let looksLikeSocial := looksLikeSocial (text body) in
      let kindMismatch :=
        Kind_eqb (kind body) KEmail && negb looksLikeEmail && looksLikeSocial in
      let signals := extractSignals (text body) in
      let attackTypesHeuristic :=
        buildAttackTypesHeuristic (kind body) (text body) (Signals.urls signals) in
      let kbHits := retrieveKb kb (text body) (kind body) (emailMode body) in
      let fallback :=
        fallbackResult body kindMismatch signals attackTypesHeuristic kbHits in
      match client with
      | NoClient => Json fallback
      | Service Rejected => ErrorJson ModelCallFailed 400
      | Service (Resolved content) =>
          let raw := match content with Some c => c | None => lit "{}" end in
          match JSON_parse raw with
          | None => ErrorJson ModelOutputNotJson 400
          | Some parsed =>
              match AnalyzeSchema_parse parsed with
              | None => ErrorJson ModelOutputOffSchema 400
              | Some ai =>
                  Json (blendedResult ai kindMismatch signals attackTypesHeuristic kbHits)
              end
          end
      end
  end
  end.

(** ** The first variant of the route ([src/app/api/analyze/route.ts])

    The same pipeline without knowledge base, attack types and mismatch
    detection, with its own weights and a cap of 25 spans.  Its handler
    guards [JSON.parse]. *)

Module RouteV1.

Definition spanPhrases : list Phrase :=
  [ mkPhrase (lit "Urgency") (lit "urgent") (lit "High-pressure wording.");
    mkPhrase (lit "Urgency") (lit "immediately") (lit "Pushes fast action.");
    mkPhrase (lit "Urgency") (lit "within 24 hours") (lit "Artificial deadline.");
    mkPhrase (lit "Authority") (lit "hr") (lit "Impersonation of an authority.");
    mkPhrase (lit "Authority") (lit "bank") (lit "Impersonation of a trusted org.");
    mkPhrase (lit "Authority") (lit "irs") (lit "Common authority-scam pattern.");
    mkPhrase (lit "Tech Trick") (lit "verification code") (lit "Code theft red flag.");
    mkPhrase (lit "Tech Trick") (lit "otp") (lit "Never share one-time codes.");
    mkPhrase (lit "Reward") (lit "winner") (lit "Prize bait.");
    mkPhrase (lit "Reward") (lit "claim") (lit "Bait wording to drive action.") ].

Definition findSpans : jsstring -> list Phrase -> list Span := findSpansCap 25.

(** [/(https?:\/\/[^\s)]+)|(\b[a-zA-Z0-9.-]+\.[a-zA-Z]{2,}\/[^\s)]+)|(\bbit\.ly\/[^\s)]+)/gi] *)
Definition urlRegex : regex :=
  alts
    [ seqs [str "http"; opt (chr "s"); str "://"; plus notSpaceParen];
      seqs [WordB;
            plus (Cls false [rng "a" "z"; rng "A" "Z"; rng "0" "9"; one "."; one "-"]);
            chr ".";
            atLeast 2 (Cls false [rng "a" "z"; rng "A" "Z"]);
            chr "/"; plus notSpaceParen];
      seqs [WordB; str "bit"; chr "."; str "ly"; chr "/"; plus notSpaceParen] ].

Definition urgencyPhrases : list jsstring :=
  lits ["act now"; "urgent"; "immediately"; "within 24 hours"; "final notice";
        "asap"]%string.

Definition fearPhrases : list jsstring :=
  lits ["legal action"; "account suspended"; "locked"; "security alert";
        "warrant"; "police"]%string.

Definition authorityPhrases : list jsstring :=
  lits ["irs"; "bank"; "support"; "microsoft"; "apple"; "payroll"; "hr"; "ceo"]%string.

Definition moneyPhrases : list jsstring :=
  lits ["gift card"; "wire"; "bitcoin"; "crypto"; "payment"; "invoice";
        "refund"; "owe"]%string.

Definition otpPhrases : list jsstring :=
  lits ["verification code"; "otp"; "2fa"; "send the code"; "code we sent"]%string.

Definition rewardPhrases : list jsstring :=
  lits ["winner"; "free"; "bonus"; "claim"; "prize"; "reward"]%string.

Definition extractSignals (text : jsstring) : Signals.t :=
  let urls := firstn 30 (matchAll true urlRegex text) in
  let emails := firstn 30 (matchAll true emailRegex text) in
  let phone_numbers := firstn 30 (matchAll false phoneRegex text) in
  let lower := toLowerCase text in
  let has := fun s => includes lower s in
  let urgencyHits := filter has urgencyPhrases in
  let fearHits := filter has fearPhrases in
  let authorityHits := filter has authorityPhrases in
  let moneyHits := filter has moneyPhrases in
  let otpHits := filter has otpPhrases in
  let rewardHits := filter has rewardPhrases in
  let score := 0 in
  let score := addIf (nonEmpty urls) 18 score in
  let score :=
    addIf (existsb (fun u => includes (toLowerCase u) (lit "bit.ly")
                             || includes (toLowerCase u) (lit "tinyurl")) urls)
          10 score in
  let score := addIf (nonEmpty moneyHits) 18 score in
  let score := addIf (nonEmpty otpHits) 22 score in
  let score := addIf (nonEmpty urgencyHits) 12 score in
  let score := addIf (nonEmpty fearHits) 12 score in
  let score := addIf (nonEmpty authorityHits) 8 score in
  let score := addIf (nonEmpty rewardHits) 10 score in
  let score := Z.min 100 score in
  let tactics := [] in
  let tactics := pushIf (nonEmpty urgencyHits)
        (mkTactic (lit "Urgency") (80 # 1)
           (lit "Pressure to act quickly reduces careful thinking.")
           (firstn 3 urgencyHits)) tactics in
  let tactics := pushIf (nonEmpty fearHits)
        (mkTactic (lit "Fear") (80 # 1)
           (lit "Threat language pushes panic decisions.")
           (firstn 3 fearHits)) tactics in
  let tactics := pushIf (nonEmpty authorityHits)
        (mkTactic (lit "Authority") (70 # 1)
           (lit "Impersonation of trusted roles/orgs increases compliance.")
           (firstn 3 authorityHits)) tactics in
  let tactics := pushIf (nonEmpty moneyHits)
        (mkTactic (lit "Money Hook") (80 # 1)
           (lit "Payment/refund themes are common scam patterns.")
           (firstn 3 moneyHits)) tactics in
  let tactics := pushIf (nonEmpty otpHits)
        (mkTactic (lit "Code Theft") (90 # 1)
           (lit "Asking for verification codes is a major red flag.")
           (firstn 3 otpHits)) tactics in
  let tactics := pushIf (nonEmpty rewardHits)
        (mkTactic (lit "Reward Bait") (70 # 1)
           (lit "Prizes/free offers lure clicks and data sharing.")
           (firstn 3 rewardHits)) tactics in
  let suspicious_spans := findSpans text spanPhrases in
  Signals.mk urls emails phone_numbers score tactics suspicious_spans.

(** A span of the response: the model may send any numbers from 0 up. *)
Record NSpan := mkNSpan {
  start : Q;
  end_ : Q;
  label : jsstring;
  reason : jsstring }.

Definition ofSpan (s : Span) : NSpan :=
  match s with mkSpan a b l r => mkNSpan (zq a) (zq b) l r end.

Module Ai.
Record t := mk {
  risk_score : Q;
  verdict : Verdict;
  tactics : list Tactic;
  suspicious_spans : list NSpan;
  extracted : Extracted;
  next_steps : list jsstring;
  safe_reply : jsstring;
  summary : jsstring }.
End Ai.

Record AnalysisResult := mkResult {
  risk_score : Z;
  verdict : Verdict;
  tactics : list Tactic;
  suspicious_spans : list NSpan;
  extracted : Extracted;
  next_steps : list jsstring;
  safe_reply : jsstring;
  summary : jsstring }.

Inductive Response :=
| Json (result : AnalysisResult)
| ErrorJson (cause : Failure) (status : Z).

(** [z.string().min(5)] *)
Definition zText (v : JValue) : option jsstring :=
  s <- zString v ;; if 5 <=? len s then Some s else None.

Definition BodySchema_parse : JValue -> option (Kind * jsstring) :=
  zObject (fun o =>
    kind <- withDefault KText zKind (key o "kind") ;;
    text <- required zText (key o "text") ;;
    Some (kind, text)).

(** [z.number().min(0)] *)
Definition zNumberFrom0 (v : JValue) : option Q :=
  match v with
  | JNum q => if Qle_bool 0 q then Some q else None
  | _ => None
  end.

Definition zNSpan : JValue -> option NSpan :=
  zObject (fun o =>
    start <- required zNumberFrom0 (key o "start") ;;
    end_ <- required zNumberFrom0 (key o "end") ;;
    label <- required zString (key o "label") ;;
    reason <- required zString (key o "reason") ;;
    Some (mkNSpan start end_ label reason)).

Definition zExtracted : JValue -> option Extracted :=
  zObject (fun o =>
    urls <- required (zArray zString) (key o "urls") ;;
    phone_numbers <- required (zArray zString) (key o "phone_numbers") ;;
    emails <- required (zArray zString) (key o "emails") ;;
    Some (mkExtracted urls phone_numbers emails)).

Definition AnalyzeSchema_parse : JValue -> option Ai.t :=
  zObject (fun o =>
    risk_score <- required (zNumberIn 0 100) (key o "risk_score") ;;
    verdict <- required zVerdict (key o "verdict") ;;
    tactics <- required (zArray zTactic) (key o "tactics") ;;
    suspicious_spans <- required (zArray zNSpan) (key o "suspicious_spans") ;;
    extracted <- required zExtracted (key o "extracted") ;;
    next_steps <- required (zArray zString) (key o "next_steps") ;;
    safe_reply <- required zString (key o "safe_reply") ;;
    summary <- required zString (key o "summary") ;;
    Some (Ai.mk risk_score verdict tactics suspicious_spans extracted
                next_steps safe_reply summary)).

(** [s.lastIndexOf(needle)] *)
Fixpoint searchLast (needle s : jsstring) (pos best : Z) : Z :=
  match s with
  | [] => if startsWith needle [] then pos else best
  | _ :: s' => searchLast needle s' (pos + 1) (if startsWith needle s then pos else best)
  end.

Definition lastIndexOf (s needle : jsstring) : Z := searchLast needle s 0 (-1).

Definition union30 (a b : list jsstring) : list jsstring :=
  firstn 30 (setFrom (a ++ b) []).

Definition fallbackResult (signals : Signals.t) : AnalysisResult :=
  let score := Signals.heuristic_score signals in
  mkResult
    score
    (verdictFromScore score)
    (if nonEmpty (Signals.heuristic_tactics signals)
     then Signals.heuristic_tactics signals
     else [mkTactic (lit "Low Signal") (60 # 1) (lit "No strong scam markers detected.") []])
    (map ofSpan (Signals.suspicious_spans signals))
    (mkExtracted (Signals.urls signals) (Signals.phone_numbers signals)
                 (Signals.emails signals))
    (if score >=? 35 then
       lits ["Do not click links or download attachments.";
             "Verify the sender using an official website/app (not the message).";
             "If it claims to be a company, contact support through official channels.";
             "Never share passwords, verification codes, or banking details.";
             "Report as spam/phishing in your email/SMS app."]%string
     else [(lit "If unsure, verify the sender through an official channel before acting.")])
    (if score >=? 35
     then (lit "Hi " ++ [8212] ++ lit " I can" ++ [8217] ++ lit "t act on this message. I" ++ [8217] ++ lit "ll verify through official channels. Please don" ++ [8217] ++ lit "t send links or codes.")
     else (lit "Thanks " ++ [8212] ++ lit " I" ++ [8217] ++ lit "ll verify this independently before taking any action."))
    (if score >=? 35
     then (lit "This message shows common scam patterns and should be treated with caution.")
     else (lit "This message has low scam indicators based on quick checks.")).

Definition blendedResult (ai : Ai.t) (signals : Signals.t) : AnalysisResult :=
  let blended :=
    Math_round ((55 # 100) * Ai.risk_score ai
                + (45 # 100) * zq (Signals.heuristic_score signals)) in
  mkResult
    blended
    (verdictFromScore blended)
    (Ai.tactics ai)
    (if nonEmpty (Ai.suspicious_spans ai) then Ai.suspicious_spans ai
     else map ofSpan (Signals.suspicious_spans signals))
    (mkExtracted
       (union30 (urls (Ai.extracted ai)) (Signals.urls signals))
       (union30 (phone_numbers (Ai.extracted ai)) (Signals.phone_numbers signals))
       (union30 (emails (Ai.extracted ai)) (Signals.emails signals)))
    (Ai.next_steps ai)
    (Ai.safe_reply ai)
    (Ai.summary ai).

(** The guarded parse: on a [SyntaxError] the text between the first [{]
    and the last [}] is tried; when there is no such text the handler
    answers with the fallback, [inl]. *)
Definition parseModelOutput (raw : jsstring) (fallback : AnalysisResult)
    : Response + JValue :=
  match JSON_parse raw with
  | Some parsed => inr parsed
  | None =>
      let a := indexOf raw (lit "{") 0 in
      let b := lastIndexOf raw (lit "}") in
      if (a >=? 0) && (b >? a) then
        match JSON_parse (slice raw a (b + 1)) with
        | Some parsed => inr parsed
        | None => inl (ErrorJson ModelOutputNotJson 400)
        end
      else inl (Json fallback)
  end.

Definition POST (client : Client) (req : option JValue) : Response :=
  match req with
  | None => ErrorJson InvalidBody 400
  | Some json =>
  match BodySchema_parse json with
  | None => ErrorJson InvalidBody 400
  | Some (kind, text) =>
      let signals := extractSignals text in
      let fallback := fallbackResult signals in
      match client with
      | NoClient => Json fallback
      | Service Rejected => ErrorJson ModelCallFailed 400
      | Service (Resolved content) =>
          let raw := match content with Some c => c | None => [] end in
          match parseModelOutput raw fallback with
          | inl response => response
          | inr parsed =>
              match AnalyzeSchema_parse parsed with
              | None => ErrorJson ModelOutputOffSchema 400
              | Some ai => Json (blendedResult ai signals)
              end
          end
      end
  end
  end.

End RouteV1.

(** ** The page's highlighter ([src/app/page.tsx])

    The part of [highlightText] that prepares the spans of a response for
    display: it drops the spans that do not fit the text, sorts them by
    start and joins each span into the previous one when it starts before
    the previous one ends.  [merged] is kept with its last element first. *)

Definition fitsText (text : jsstring) (s : Span) : bool :=
  (start s >=? 0) && (end_ s <=? len text) && (end_ s >? start s).

Definition mergeStep (merged : list Span) (s : Span) : list Span :=
  match merged with
  | [] => [s]
  | last :: before =>
      if start s >=? end_ last then s :: merged
      else if end_ s >? end_ last
           then mkSpan (start last) (end_ s) (label last) (reason last) :: before
           else merged
  end.

Definition highlightMerged (text : jsstring) (spans : list Span) : list Span :=
  let sorted := sortBy (fun a b => start a <=? start b) (filter (fitsText text) spans) in
  rev (fold_left mergeStep sorted []).

(** ** Notions used in the statements *)

(** The phrases of a category that the text contains: [phrases.filter(has)]. *)
Definition hits (phrases : list jsstring) (text : jsstring) : list jsstring :=
  filter (fun s => includes (toLowerCase text) s) phrases.

(** Whether at least one phrase of the category occurs in the text. *)
Definition triggers (phrases : list jsstring) (text : jsstring) : bool :=
  existsb (fun s => includes (toLowerCase text) s) phrases.

(** The score table of [extractSignals]: for each line that adds to the
    score, whether its condition holds for the text, and its weight. *)
Definition contributions (text : jsstring) : list (bool * Z) :=
  let urls := firstn 40 (matchAll true urlRegex text) in
  [ (nonEmpty urls, 16);
    (existsb (test true shortenerRegex) urls, 10);
    (triggers moneyPhrases text, 16);
    (triggers otpPhrases text, 26);
    (triggers credPhrases text, 18);
    (triggers urgencyPhrases text, 10);
    (triggers fearPhrases text, 10);
    (triggers authorityPhrases text, 7);
    (triggers rewardPhrases text, 10);
    (triggers attachmentPhrases text, 10);
    (triggers viralPhrases text, 22);
    (triggers getRichPhrases text, 22) ].

(** Which lines of the table fire. *)
Definition triggered (text : jsstring) : list bool := map fst (contributions text).

(** The weights of the table, line by line. *)
Definition weights : list Z := [16; 10; 16; 26; 18; 10; 10; 7; 10; 10; 22; 22].

Definition total (table : list (bool * Z)) : Z :=
  fold_right (fun (c : bool * Z) sum => (if fst c then snd c else 0) + sum) 0 table.

(** What every occurrence satisfies: it lies at or after the clamped start,
    inside the lowercased copy, and the copy reads [needle] there. *)
Definition occurrence_ok (lower needle : jsstring) (from : Z) (s : Span) : Prop :=
  Z.min (Z.max from 0) (len lower) <= start s /\
  end_ s = start s + len needle /\
  end_ s <= len lower /\
  slice lower (start s) (end_ s) = needle.

(** A text whose lowercase has one unit for each of its units (every ASCII
    text is one): offsets into the lowercased copy are offsets into it. *)
Definition lowersUnitwise (text : jsstring) : Prop :=
  Forall (fun c => length (lowerUnit c) = 1%nat) text.

(** The verdict that the thresholds 70 and 35 assign to a score. *)
Definition verdictMatches (score : Z) (v : Verdict) : Prop :=
  (v = dangerous <-> 70 <= score) /\
  (v = suspicious <-> 35 <= score < 70) /\
  (v = harmless <-> score < 35).



(** A tag map is well formed when its keys are distinct and each value is
    filed under its own tag. *)
Definition tagMapOk (m : TagMap) : Prop :=
  NoDup (map fst m) /\ Forall (fun kv => tag (snd kv) = fst kv) m.

(** The text holds no [{] that comes before a [}]: the condition under
    which the guarded parse of the first variant gives up on the output. *)
Definition noBracedPart (raw : jsstring) : Prop :=
  indexOf raw (lit "{") 0 < 0 \/
  RouteV1.lastIndexOf raw (lit "}") <= indexOf raw (lit "{") 0.

(** What the merge loop of the highlighter keeps true of [merged] (last
    element first): the spans are proper, each ends at or before the start
    of the next, and none starts after the spans still to come. *)
Definition mergedOk (bound : Z) (merged : list Span) : Prop :=
  StronglySorted (fun later earlier => end_ earlier <= start later) merged /\
  Forall (fun s => start s < end_ s /\ start s <= bound) merged.

(** The heuristic-only result of a validated body, as [POST] builds it. *)
Definition heuristicOnly (kb : list KbEntry) (body : Body) : AnalysisResult :=
  let kindMismatch :=
    Kind_eqb (kind body) KEmail && negb (looksLikeEmail (text body))
    && looksLikeSocial (text body) in
  let signals := extractSignals (text body) in
  fallbackResult body kindMismatch signals
    (buildAttackTypesHeuristic (kind body) (text body) (Signals.urls signals))
    (retrieveKb kb (text body) (kind body) (emailMode body)).

(** What the statements ask of the knowledge-base table: no entry lowers
    the score and no entry demands a minimum above 100. *)
Definition kbInRange (kb : list KbEntry) : Prop :=
  Forall (fun e => 0 <= risk_boost e /\
                   match min_risk e with Some m => m <= 100 | None => True end) kb.

(** ** Sample inputs *)

(** A request body [{ kind, text }] with ASCII members. *)
Definition request (kind text : string) : option JValue :=
  Some (JObj [(lit "kind", JStr (lit kind)); (lit "text", JStr (lit text))]).

(** The message of scenario S1. *)
Definition s1_text : string :=
  "Your account will be locked in 30 minutes. Verify immediately: https://bit.ly/lock-verify".

(** A table of two entries in the shape of [scam_kb.json] (the file itself
    is not among the sources). *)
Definition sampleKb : list KbEntry :=
  [ mkKbEntry (lit "format_not_email") [lit "link in bio"; lit "repost"]
      (lit "Not an email") 18 (Some 70) [] [] (lit "I will not reshare this.");
    mkKbEntry (lit "ceo_gift_cards") [lit "gift card"; lit "ceo"]
      (lit "CEO gift card fraud") 30 None [] [] [] ].



(** A JSON string literal with ASCII content. *)
Definition quoted (s : string) : jsstring := [34] ++ lit s ++ [34].

(** A model answer that is JSON and passes the schema:
    [{"risk_score": 90.5, "verdict": "dangerous"}]. *)
Definition sampleAnswer : jsstring :=
  lit "{" ++ quoted "risk_score" ++ lit ": 90.5, " ++ quoted "verdict" ++ lit ": "
  ++ quoted "dangerous" ++ lit "}".

(** A schema-valid model answer that names the tag "phishing" twice. *)
Definition repeatedTagAnswer : jsstring :=
  lit "{" ++ quoted "risk_score" ++ lit ": 50, " ++ quoted "verdict" ++ lit ": "
  ++ quoted "suspicious" ++ lit ", " ++ quoted "attack_types" ++ lit ": [{"
  ++ quoted "tag" ++ lit ": " ++ quoted "phishing" ++ lit ", "
  ++ quoted "confidence" ++ lit ": 90, " ++ quoted "rationale" ++ lit ": " ++ quoted "a"
  ++ lit "}, {"
  ++ quoted "tag" ++ lit ": " ++ quoted "phishing" ++ lit ", "
  ++ quoted "confidence" ++ lit ": 80, " ++ quoted "rationale" ++ lit ": " ++ quoted "b"
  ++ lit "}]}".

(** Projections for reading results. *)
Definition se (s : Span) : Z * Z := (start s, end_ s).

Definition brief (r : Response) : option (Z * Verdict * list jsstring * nat) :=
  match r with
  | Json a => Some (risk_score a, verdict a, map name (tactics a), length (next_steps a))
  | ErrorJson _ _ => None
  end.

(** * Further notions, for the properties beyond the specification *)

(** The nine keyword categories that have a tactic of their own (the reward
    category adds to the score only). *)
Definition tacticCategories : list (list jsstring) :=
  [ urgencyPhrases; fearPhrases; authorityPhrases; moneyPhrases; otpPhrases;
    credPhrases; attachmentPhrases; viralPhrases; getRichPhrases ].

(** The kind mismatch of a body, as [POST] computes it. *)
Definition kindMismatchOf (body : Body) : bool :=
  Kind_eqb (kind body) KEmail && negb (looksLikeEmail (text body))
  && looksLikeSocial (text body).

(** The summary states the mismatch: one of the two spellings that [POST]
    looks for occurs in it, case ignored. *)
Definition saysNotAnEmail (summary : jsstring) : bool :=
  includes (toLowerCase summary) (lit "doesn" ++ [8217] ++ lit "t look like an email")
  || includes (toLowerCase summary) (lit "doesn't look like an email").

(** The tags that the classifier gives to an email or a text, and those it
    gives to a social post. *)
Definition messageTags : list jsstring :=
  [ lit "phishing"; lit "pretexting"; lit "BEC / CEO fraud"; lit "malware lure";
    lit "code theft"; lit "credential harvesting"; lit "spam / engagement bait" ].

Definition socialTags : list jsstring :=
  [ lit "misinformation / engagement bait"; lit "investment fraud / get-rich-quick" ].

(** The map holds an entry for the tag of [t] that is at least as confident. *)
Definition represented (m : TagMap) (t : AttackType) : Prop :=
  exists e, In e (mapValues m) /\ tag e = tag t /\ (at_confidence t <= at_confidence e)%Q.

(** Two entries of one tag, for the map over the tags. *)
Definition weakEntry : AttackType := mkAttackType (lit "phishing") (zq 70) (lit "a").
Definition strongEntry : AttackType := mkAttackType (lit "phishing") (zq 90) (lit "b").

(** The phrase occurs in the lowercased text, as [findSpans] looks for it. *)
Definition phraseOccurs (text : jsstring) (p : Phrase) : bool :=
  includes (toLowerCase text) (toLowerCase (phrase p)).

(** * The display of the spans

    ** [highlightText] of the page ([src/app/page.tsx])

    The second half of the function: the merged spans cut the text into
    parts, the marked ones carrying the label and the reason of their span.
    [highlightMerged] above is its first half. *)

Record Part := mkPart {
  part_text : jsstring;
  part_tag : option jsstring;
  part_reason : option jsstring }.

(** One round of [for (const s of merged)]; the state is [(parts, idx)]. *)
Definition partsStep (text : jsstring) (acc : list Part * Z) (s : Span)
    : list Part * Z :=
  let parts := fst acc in
  let idx := snd acc in
  let parts := pushIf (start s >? idx) (mkPart (slice text idx (start s)) None None) parts in
  let parts :=
    parts ++ [mkPart (slice text (start s) (end_ s)) (Some (label s)) (Some (reason s))] in
  (parts, end_ s).

Definition highlightText (text : jsstring) (spans : list Span) : list Part :=
  if negb (nonEmpty spans) then [mkPart text None None]
  else
    let merged := highlightMerged text spans in
    let r := fold_left (partsStep text) merged ([], 0) in
    pushIf (snd r <? len text) (mkPart (slice text (snd r) (len text)) None None) (fst r).

(** ** [HighlightedText] of the analyzer component
    ([src/components/Analyzer.tsx])

    The component shows the spans of a response of [/api/analyze], whose
    offsets are numbers ([RouteV1.NSpan]: the first variant of the route
    passes on any number from 0 up).  It keeps the spans that fit the text,
    sorts them by start and keeps the first 40; it does not merge them.
    [text.slice] truncates its arguments. *)

(** [ToIntegerOrInfinity] of a finite number: truncation towards zero. *)
Definition toInteger (q : Q) : Z := if Qle_bool 0 q then Qfloor q else Qceiling q.

(** The index that [slice] makes of an integer: a negative one counts from
    the end, and the result is kept within the string. *)
Definition relativeIndex (size i : Z) : Z :=
  if i <? 0 then Z.max (size + i) 0 else Z.min i size.

(** [s.slice(a, b)] for numbers [a] and [b]. *)
Definition sliceNum (s : jsstring) (a b : Q) : jsstring :=
  let from := relativeIndex (len s) (toInteger a) in
  let to := relativeIndex (len s) (toInteger b) in
  firstn (Z.to_nat (to - from)) (skipn (Z.to_nat from) s).

(** [s.slice(a)]: the end defaults to the length. *)
Definition sliceFrom (s : jsstring) (a : Q) : jsstring := sliceNum s a (zq (len s)).

Record Piece := mkPiece {
  piece_text : jsstring;
  piece_span : option RouteV1.NSpan }.

Definition safeSpans (text : jsstring) (spans : list RouteV1.NSpan) : list RouteV1.NSpan :=
  firstn 40
    (sortBy (fun a b => Qle_bool (RouteV1.start a) (RouteV1.start b))
       (filter (fun s => Qle_bool 0 (RouteV1.start s)
                         && negb (Qle_bool (RouteV1.end_ s) (RouteV1.start s))
                         && Qle_bool (RouteV1.end_ s) (zq (len text)))
               spans)).

Definition piecesStep (text : jsstring) (acc : list Piece * Q) (s : RouteV1.NSpan)
    : list Piece * Q :=
  let pieces := fst acc in
  let cursor := snd acc in
  let pieces :=
    pushIf (negb (Qle_bool (RouteV1.start s) cursor))
           (mkPiece (sliceNum text cursor (RouteV1.start s)) None) pieces in
  let pieces :=
    pieces ++ [mkPiece (sliceNum text (RouteV1.start s) (RouteV1.end_ s)) (Some s)] in
  (pieces, RouteV1.end_ s).

Definition HighlightedText (text : jsstring) (spans : list RouteV1.NSpan) : list Piece :=
  if negb (nonEmpty (safeSpans text spans)) then [mkPiece text None]
  else
    let r := fold_left (piecesStep text) (safeSpans text spans) ([], 0%Q) in
    pushIf (negb (Qle_bool (zq (len text)) (snd r)))
           (mkPiece (sliceFrom text (snd r)) None) (fst r).

(** The whole units that [slice] makes of the offsets of a span. *)
Definition wholeUnits (s : RouteV1.NSpan) : Span :=
  mkSpan (toInteger (RouteV1.start s)) (toInteger (RouteV1.end_ s))
         (RouteV1.label s) (RouteV1.reason s).

Definition fractionalSpans : list RouteV1.NSpan :=
  [ RouteV1.mkNSpan 0 (5 # 2) (lit "a") (lit "b");
    RouteV1.mkNSpan (22 # 10) 4 (lit "a") (lit "b") ].

(** The text that a list of parts shows. *)
Definition shownText (parts : list Part) : jsstring := concat (map part_text parts).
Definition shownPieces (pieces : list Piece) : jsstring := concat (map piece_text pieces).

(** The texts that the cutting loop produces for the spans from [idx] on. *)
Fixpoint cutTexts (text : jsstring) (spans : list Span) (idx : Z) : list jsstring :=
  match spans with
  | [] => if idx <? len text then [slice text idx (len text)] else []
  | s :: rest =>
      (if start s >? idx then [slice text idx (start s)] else [])
      ++ slice text (start s) (end_ s) :: cutTexts text rest (end_ s)
  end.

(** No span starts before the end of the span before it (before [idx] for
    the first one). *)
Fixpoint chained (idx : Z) (spans : list Span) : Prop :=
  match spans with
  | [] => True
  | s :: rest => idx <= start s /\ chained (end_ s) rest
  end.

(** The number of units that the spans show twice. *)
Fixpoint excess (idx : Z) (spans : list Span) : Z :=
  match spans with
  | [] => 0
  | s :: rest => Z.max (idx - start s) 0 + excess (end_ s) rest
  end.

(** The span [m] covers the span [s]. *)
Definition covers (m s : Span) : Prop := start m <= start s /\ end_ s <= end_ m.

(** A schema-valid model answer that finds nothing wrong. *)
Definition calmAnswer : jsstring :=
  lit "{" ++ quoted "risk_score" ++ lit ": 0, " ++ quoted "verdict" ++ lit ": "
  ++ quoted "harmless" ++ lit "}".

(** A message that trips most of the score lines. *)
Definition loudText : string :=
  "urgent: verify your password, send the verification code and gift card now http://bit.ly/x".

(** Every string of the list stands in the text ([text.includes]). *)
Definition quotedFrom (text : jsstring) (l : list jsstring) : Prop :=
  Forall (fun m => includes text m = true) l.

(** The members of [sampleAnswer], without the braces. *)
Definition innerAnswer : jsstring :=
  quoted "risk_score" ++ lit ": 90.5, " ++ quoted "verdict" ++ lit ": " ++ quoted "dangerous".

(** ** [scoreLabel] of the page ([src/app/page.tsx]) *)

Definition scoreLabel (score : Z) : jsstring :=
  if score >=? 80 then lit "Cursed (High Risk)"
  else if score >=? 60 then lit "Very Suspicious"
  else if score >=? 35 then lit "Suspicious"
  else if score >=? 15 then lit "Mildly Weird"
  else lit "Probably Safe".

(** * Proofs *)


(** ** Lists *)

Lemma In_firstn_inv {A : Type} (n : nat) (l : list A) (x : A) :
  In x (firstn n l) -> In x l.
Proof.
  revert l. induction n as [|n IH]; intros [|y l] H; simpl in *; try contradiction.
  destruct H as [H|H]; [left; exact H | right; apply IH; exact H].
Qed.

Lemma NoDup_firstn_of {A : Type} (n : nat) (l : list A) :
  NoDup l -> NoDup (firstn n l).
Proof.
  revert l. induction n as [|n IH]; intros [|y l] H; simpl; try constructor.
  - inversion H; subst. intros Hin. apply In_firstn_inv in Hin. contradiction.
  - inversion H; subst. apply IH; assumption.
Qed.

(** ** Strings *)

Lemma len_nonneg (s : jsstring) : 0 <= len s.
Proof. unfold len. lia. Qed.

Lemma len_app (a b : jsstring) : len (a ++ b) = len a + len b.
Proof. unfold len. rewrite length_app. lia. Qed.

Lemma startsWith_firstn (needle s : jsstring) :
  startsWith needle s = true ->
  firstn (length needle) s = needle /\ (length needle <= length s)%nat.
Proof.
  revert s. induction needle as [|n needle IH]; intros s H.
  - split; [reflexivity | simpl; lia].
  - destruct s as [|c s]; [discriminate|].
    simpl in H. apply andb_true_iff in H. destruct H as [Hc Hs].
    apply Z.eqb_eq in Hc. subst c.
    destruct (IH _ Hs) as [E L]. simpl. rewrite E. split; [reflexivity | lia].
Qed.

Lemma search_cases (needle s : jsstring) (pos : Z) :
  0 <= pos ->
  search needle s pos = -1 \/
  (pos <= search needle s pos <= pos + len s /\
   startsWith needle (skipn (Z.to_nat (search needle s pos - pos)) s) = true).
Proof.
  revert pos. induction s as [|c s IH]; intros pos Hpos; simpl.
  - destruct (startsWith needle []) eqn:E; [right | left; reflexivity].
    replace (pos - pos) with 0 by lia. simpl. unfold len. simpl. split; [lia | exact E].
  - destruct (startsWith needle (c :: s)) eqn:E.
    + right. replace (pos - pos) with 0 by lia. simpl.
      unfold len. simpl length. split; [lia | exact E].
    + destruct (IH (pos + 1)) as [H | [Hb Hs]]; [lia | left; exact H | right].
      unfold len in *. simpl length. split; [lia|].
      replace (Z.to_nat (search needle s (pos + 1) - pos))
        with (S (Z.to_nat (search needle s (pos + 1) - (pos + 1)))) by lia.
      exact Hs.
Qed.

(** A successful [indexOf] returns an offset at or after the clamped start
    at which the needle really is. *)
Lemma indexOf_found (s needle : jsstring) (from : Z) :
  indexOf s needle from <> -1 ->
  Z.min (Z.max from 0) (len s) <= indexOf s needle from /\
  indexOf s needle from + len needle <= len s /\
  slice s (indexOf s needle from) (indexOf s needle from + len needle) = needle.
Proof.
  unfold indexOf. set (k := Z.min (Z.max from 0) (len s)). intros Hf.
  assert (Hk : 0 <= k <= len s) by (unfold k; pose proof (len_nonneg s); lia).
  destruct (search_cases needle (skipn (Z.to_nat k) s) k) as [H | [Hb Hs]];
    [lia | contradiction |].
  set (f := search needle (skipn (Z.to_nat k) s) k) in *.
  rewrite skipn_skipn in Hs.
  replace (Z.to_nat (f - k) + Z.to_nat k)%nat with (Z.to_nat f) in Hs by lia.
  destruct (startsWith_firstn _ _ Hs) as [E L].
  rewrite length_skipn in L.
  assert (Hlen : len (skipn (Z.to_nat k) s) = len s - k).
  { unfold len. rewrite length_skipn. unfold len in Hk. lia. }
  split; [lia|]. split.
  - unfold len in *. lia.
  - unfold slice. replace (f + len needle - f) with (len needle) by lia.
    unfold len. rewrite Nat2Z.id. exact E.
Qed.

(** ** The span locator *)

(** The loop pushes exactly the successive occurrences, and leaves through
    [return] exactly when it has filled the room that was left. *)
Lemma whileLoop_occurrences (cap : nat) (lower needle : jsstring) (p : Phrase)
    (idx : Z) (spans : list Span) :
  whileLoop cap lower needle p idx spans =
  (spans ++ occurrences (Nat.max 1 (room cap spans)) lower needle p idx,
   (length (occurrences (Nat.max 1 (room cap spans)) lower needle p idx)
      =? Nat.max 1 (room cap spans))%nat).
Proof.
  funelim (whileLoop cap lower needle p idx spans).
  - destruct (Nat.max 1 (room cap spans)) as [|k] eqn:Ek; [lia|].
    simpl.
    match goal with E : Z.eq_dec _ _ = _ |- _ => rewrite E end.
    cbn. rewrite app_nil_r. reflexivity.
  - assert (Ek : Nat.max 1 (room cap spans) = 1%nat).
    { match goal with L : (cap <= _)%nat |- _ => pose proof L as L' end.
      rewrite length_app in L'. simpl in L'. unfold room. lia. }
    rewrite Ek. simpl.
    match goal with E : Z.eq_dec _ _ = _ |- _ => rewrite E end.
    reflexivity.
  - match goal with IH : whileLoop _ _ _ _ _ _ = (_, _) |- _ => rewrite IH end.
    assert (Ek : Nat.max 1 (room cap spans)
                 = S (Nat.max 1 (room cap (spans ++
                        [mkSpan (indexOf lower needle idx)
                                (indexOf lower needle idx + len needle)
                                (ph_label p) (ph_reason p)])))).
    { match goal with L : (_ < cap)%nat |- _ => pose proof L as L' end.
      rewrite length_app in L'. cbn [length] in L'.
      unfold room. rewrite length_app. cbn [length]. lia. }
    rewrite Ek.
    set (k := Nat.max 1 (room cap _)).
    cbn [occurrences].
    match goal with E : Z.eq_dec _ _ = _ |- _ => rewrite E end.
    rewrite <- app_assoc. reflexivity.
Qed.

Lemma occurrences_length (n : nat) lower needle p idx :
  (length (occurrences n lower needle p idx) <= n)%nat.
Proof.
  revert idx. induction n as [|n IH]; intros idx; simpl; [lia|].
  destruct (Z.eq_dec _ _); simpl; [lia|]. specialize (IH (indexOf lower needle idx + len needle)). lia.
Qed.


Lemma occurrences_ok (n : nat) lower needle p idx :
  Forall (occurrence_ok lower needle idx) (occurrences n lower needle p idx).
Proof.
  revert idx. induction n as [|n IH]; intros idx; simpl; [constructor|].
  destruct (Z.eq_dec _ _) as [|Hf]; [constructor|].
  destruct (indexOf_found _ _ _ Hf) as (Hlo & Hhi & Hsl).
  pose proof (len_nonneg needle) as Hn. pose proof (len_nonneg lower) as Hl.
  constructor.
  - unfold occurrence_ok; simpl. auto.
  - eapply Forall_impl; [|apply IH].
    intros s (H1 & H2 & H3 & H4). unfold occurrence_ok. repeat split; auto. lia.
Qed.

Lemma occurrences_sorted (n : nat) lower needle p idx :
  StronglySorted (fun a b => end_ a <= start b) (occurrences n lower needle p idx).
Proof.
  revert idx. induction n as [|n IH]; intros idx; simpl; [constructor|].
  destruct (Z.eq_dec _ _) as [|Hf]; [constructor|].
  destruct (indexOf_found _ _ _ Hf) as (Hlo & Hhi & Hsl).
  pose proof (len_nonneg needle) as Hn. pose proof (len_nonneg lower) as Hl.
  constructor; [apply IH|].
  eapply Forall_impl; [|apply occurrences_ok].
  intros s (H1 & _). simpl. lia.
Qed.

Lemma occurrences_increasing (n : nat) lower needle p idx :
  needle <> [] ->
  StronglySorted (fun a b => start a < start b) (occurrences n lower needle p idx).
Proof.
  intros Hne.
  assert (Hpos : 0 < len needle) by (destruct needle; [contradiction | unfold len; simpl; lia]).
  revert idx. induction n as [|n IH]; intros idx; simpl; [constructor|].
  destruct (Z.eq_dec _ _) as [|Hf]; [constructor|].
  destruct (indexOf_found _ _ _ Hf) as (Hlo & Hhi & Hsl).
  pose proof (len_nonneg lower) as Hl.
  constructor; [apply IH|].
  eapply Forall_impl; [|apply occurrences_ok].
  intros s (H1 & _). simpl. lia.
Qed.


Lemma occurrences_prefix (n k : nat) lower needle p idx :
  (k <= n)%nat ->
  occurrences k lower needle p idx = firstn k (occurrences n lower needle p idx).
Proof.
  revert k idx. induction n as [|n IH]; intros k idx Hk.
  - replace k with 0%nat by lia. reflexivity.
  - destruct k as [|k]; [reflexivity|]. simpl.
    destruct (Z.eq_dec _ _); [reflexivity|].
    simpl. f_equal. apply IH. lia.
Qed.

(** A search that stopped short of its budget found every occurrence. *)
Lemma occurrences_exhausted (n m : nat) lower needle p idx :
  (length (occurrences n lower needle p idx) < n)%nat -> (n <= m)%nat ->
  occurrences m lower needle p idx = occurrences n lower needle p idx.
Proof.
  revert m idx. induction n as [|n IH]; intros m idx Hlen Hm; [lia|].
  destruct m as [|m]; [lia|]. simpl in *.
  destruct (Z.eq_dec _ _); [reflexivity|].
  simpl in Hlen. f_equal. apply IH; lia.
Qed.

(** The spans of all phrases, unmerged and in dictionary order, up to the
    cap: what the two loops of [findSpans] compute. *)
Lemma forPhrases_unmerged (cap : nat) lower phrases spans :
  (length spans < cap)%nat ->
  forPhrases cap lower phrases spans =
  firstn cap (spans ++ flat_map (fun p => occurrences cap lower (toLowerCase (phrase p)) p 0)
                                phrases).
Proof.
  revert spans. induction phrases as [|p rest IH]; intros spans Hlt; simpl.
  - rewrite app_nil_r. symmetry. apply firstn_all2. lia.
  - rewrite whileLoop_occurrences. cbn [fst snd].
    assert (Ek : Nat.max 1 (room cap spans) = (cap - length spans)%nat)
      by (unfold room; lia).
    rewrite Ek. set (k := (cap - length spans)%nat).
    set (needle := toLowerCase (phrase p)).
    pose proof (occurrences_length k lower needle p 0) as Hle.
    rewrite firstn_app.
    rewrite (firstn_all2 spans) by lia. fold k.
    destruct (Nat.eqb_spec (length (occurrences k lower needle p 0)) k) as [Hfull | Hshort].
    + f_equal. rewrite firstn_app.
      rewrite <- (occurrences_prefix cap k) by (unfold k; lia).
      replace (k - length (occurrences cap lower needle p 0))%nat with 0%nat.
      * rewrite app_nil_r. reflexivity.
      * pose proof (occurrences_prefix cap k lower needle p 0 ltac:(unfold k; lia)) as E.
        apply (f_equal (@length _)) in E. rewrite length_firstn in E. lia.
    + rewrite IH by (rewrite length_app; unfold k in *; lia).
      rewrite <- (occurrences_exhausted k cap lower needle p 0) by (unfold k in *; lia).
      rewrite <- app_assoc. rewrite firstn_app.
      rewrite (firstn_all2 spans) by lia. reflexivity.
Qed.

Lemma str_eqb_eq (a b : jsstring) : str_eqb a b = true <-> a = b.
Proof.
  revert b. induction a as [|x a IH]; intros [|y b]; simpl; split; intros H;
    try reflexivity; try discriminate.
  - apply andb_true_iff in H. destruct H as [Hx Ha].
    apply Z.eqb_eq in Hx. apply IH in Ha. subst. reflexivity.
  - injection H as Hx Ha. subst. rewrite Z.eqb_refl. simpl. apply IH. reflexivity.
Qed.

Lemma toLowerCase_nonempty (s : jsstring) : s <> [] -> toLowerCase s <> [].
Proof.
  destruct s as [|c s]; [contradiction|]. intros _.
  unfold toLowerCase. simpl. unfold lowerUnit.
  repeat match goal with |- context [if ?b then _ else _] => destruct b end;
    discriminate.
Qed.

(** ** Verdict *)

Lemma verdictFromScore_matches (score : Z) : verdictMatches score (verdictFromScore score).
Proof.
  unfold verdictMatches, verdictFromScore.
  destruct (Z.geb_spec score 70); [|destruct (Z.geb_spec score 35)];
    repeat split; intros; try discriminate; try lia; reflexivity.
Qed.

Lemma POST_verdict kb client req r :
  POST kb client req = Json r -> verdict r = verdictFromScore (risk_score r).
Proof.
  unfold POST. intros H.
  destruct req as [json|]; [|discriminate].
  destruct (BodySchema_parse json) as [body|]; [|discriminate].
  destruct client as [|[|content]]; try discriminate.
  - injection H as <-. reflexivity.
  - destruct (JSON_parse _) as [parsed|]; [|discriminate].
    destruct (AnalyzeSchema_parse parsed) as [ai|]; [|discriminate].
    injection H as <-. reflexivity.
Qed.

Lemma RouteV1_POST_verdict client req r :
  RouteV1.POST client req = RouteV1.Json r ->
  RouteV1.verdict r = verdictFromScore (RouteV1.risk_score r).
Proof.
  unfold RouteV1.POST. intros H.
  destruct req as [json|]; [|discriminate].
  destruct (RouteV1.BodySchema_parse json) as [[kind text]|]; [|discriminate].
  destruct client as [|[|content]]; try discriminate.
  - injection H as <-. reflexivity.
  - unfold RouteV1.parseModelOutput in H.
    destruct (JSON_parse _) as [parsed|].
    + destruct (RouteV1.AnalyzeSchema_parse parsed) as [ai|]; [|discriminate].
      injection H as <-. reflexivity.
    + destruct (_ && _).
      * destruct (JSON_parse _) as [parsed|]; [|discriminate].
        destruct (RouteV1.AnalyzeSchema_parse parsed) as [ai|]; [|discriminate].
        injection H as <-. reflexivity.
      * injection H as <-. reflexivity.
Qed.

(** C2.  Every result that the handler returns, heuristic-only or blended,
    carries the verdict that the fixed thresholds assign to its risk score:
    "dangerous" exactly from 70 up, "suspicious" exactly from 35 to below 70,
    "harmless" exactly below 35.  The same holds of [verdictFromScore] on any
    score, and of the first variant of the route. *)
Theorem C2_verdict_follows_thresholds :
  (forall score, verdictMatches score (verdictFromScore score)) /\
  (forall kb client req r,
      POST kb client req = Json r -> verdictMatches (risk_score r) (verdict r)) /\
  (forall client req r,
      RouteV1.POST client req = RouteV1.Json r ->
      verdictMatches (RouteV1.risk_score r) (RouteV1.verdict r)).
Proof.
  split; [exact verdictFromScore_matches|]. split.
  - intros kb client req r H. rewrite (POST_verdict _ _ _ _ H).
    apply verdictFromScore_matches.
  - intros client req r H. rewrite (RouteV1_POST_verdict _ _ _ H).
    apply verdictFromScore_matches.
Qed.

Lemma C2_witness :
  POST sampleKb NoClient (request "text" s1_text)
    = Json (heuristicOnly sampleKb (mkBody KText (lit s1_text) None None)) /\
  verdictMatches 46 suspicious.
Proof.
  split; [vm_compute; reflexivity|].
  exact (proj1 (proj2 C2_verdict_follows_thresholds) sampleKb NoClient
           (request "text" s1_text)
           (heuristicOnly sampleKb (mkBody KText (lit s1_text) None None))
           ltac:(vm_compute; reflexivity)).
Defined.

(** ** Spans *)

Lemma dictionaries_nonempty :
  Forall (fun p => toLowerCase (phrase p) <> []) (spanPhrases ++ RouteV1.spanPhrases).
Proof.
  apply Forall_forall. intros p Hp. apply toLowerCase_nonempty.
  revert p Hp. apply Forall_forall.
  repeat constructor; discriminate.
Qed.

Lemma occurrences_width (n : nat) lower needle p idx :
  Forall (fun s => end_ s - start s = len needle) (occurrences n lower needle p idx).
Proof.
  eapply Forall_impl; [|apply occurrences_ok].
  intros s (_ & E & _). lia.
Qed.

(** C10.  For every text and every phrase of the dictionary (of either
    variant of the route, whatever the cap), the spans that the loop of the
    span locator appends for that phrase have strictly increasing starts, do
    not overlap (each starts at or after the end of the one before, since the
    search resumes there), and each is as wide as the lowercased phrase. *)
Theorem C10_spans_of_one_phrase :
  forall (cap : nat) (text : jsstring) (p : Phrase) (spans : list Span),
    In p (spanPhrases ++ RouteV1.spanPhrases) ->
    exists emitted,
      fst (whileLoop cap (toLowerCase text) (toLowerCase (phrase p)) p 0 spans)
        = spans ++ emitted /\
      StronglySorted (fun a b => start a < start b) emitted /\
      StronglySorted (fun a b => end_ a <= start b) emitted /\
      Forall (fun s => end_ s - start s = len (toLowerCase (phrase p))) emitted.
Proof.
  intros cap text p spans Hp.
  pose proof (proj1 (Forall_forall _ _) dictionaries_nonempty p Hp) as Hne.
  rewrite whileLoop_occurrences. cbn [fst].
  eexists. split; [reflexivity|].
  split; [apply occurrences_increasing; exact Hne|].
  split; [apply occurrences_sorted | apply occurrences_width].
Qed.

Lemma C10_witness :
  In (mkPhrase (lit "Urgency") (lit "urgent") (lit "High-pressure wording."))
     (spanPhrases ++ RouteV1.spanPhrases) /\
  exists emitted,
    fst (whileLoop 40 (toLowerCase (lit "URGENT, urgent"))
           (toLowerCase (lit "urgent"))
           (mkPhrase (lit "Urgency") (lit "urgent") (lit "High-pressure wording.")) 0 [])
      = [] ++ emitted /\
    StronglySorted (fun a b => start a < start b) emitted /\
    StronglySorted (fun a b => end_ a <= start b) emitted /\
    Forall (fun s => end_ s - start s = len (toLowerCase (lit "urgent"))) emitted.
Proof.
  split; [left; reflexivity|].
  exact (C10_spans_of_one_phrase 40 (lit "URGENT, urgent")
           (mkPhrase (lit "Urgency") (lit "urgent") (lit "High-pressure wording.")) []
           (or_introl eq_refl)).
Defined.

Lemma findSpansCap_unmerged (cap : nat) text phrases :
  (0 < cap)%nat ->
  findSpansCap cap text phrases =
  firstn cap (flat_map (fun p => occurrences cap (toLowerCase text)
                                   (toLowerCase (phrase p)) p 0) phrases).
Proof. intros Hc. unfold findSpansCap. rewrite forPhrases_unmerged; [reflexivity | simpl; lia]. Qed.

(** What does hold of the spans of the locator: they are offsets into the
    lowercased copy of the text, which reads the lowercased phrase there. *)
Lemma findSpans_offsets_in_lowercased_copy (text : jsstring) (s : Span) :
  In s (findSpans text spanPhrases) ->
  0 <= start s < end_ s /\ end_ s <= len (toLowerCase text) /\
  exists p, In p spanPhrases /\
            slice (toLowerCase text) (start s) (end_ s) = toLowerCase (phrase p).
Proof.
  intros Hs. unfold findSpans in Hs. rewrite findSpansCap_unmerged in Hs by lia.
  apply In_firstn_inv in Hs. apply in_flat_map in Hs. destruct Hs as (p & Hp & Hs).
  pose proof (proj1 (Forall_forall _ _) (occurrences_ok _ _ _ _ _) s Hs)
    as (Hlo & Hw & Hhi & Hsl).
  assert (Hne : toLowerCase (phrase p) <> []).
  { apply (proj1 (Forall_forall _ _) dictionaries_nonempty). apply in_or_app. left. exact Hp. }
  assert (0 < len (toLowerCase (phrase p)))
    by (destruct (toLowerCase (phrase p)); [contradiction | unfold len; simpl; lia]).
  pose proof (len_nonneg (toLowerCase text)).
  split; [lia|]. split; [exact Hhi|]. exists p. split; assumption.
Qed.

Lemma toLowerCase_length (text : jsstring) :
  lowersUnitwise text -> length (toLowerCase text) = length text.
Proof.
  induction 1 as [|c t Hc _ IH]; [reflexivity|].
  unfold toLowerCase in *. simpl. rewrite length_app, Hc, IH. reflexivity.
Qed.

Lemma toLowerCase_cons (c : Z) (t : jsstring) :
  toLowerCase (c :: t) = lowerUnit c ++ toLowerCase t.
Proof. reflexivity. Qed.

Lemma toLowerCase_skipn (n : nat) (text : jsstring) :
  lowersUnitwise text ->
  toLowerCase (skipn n text) = skipn n (toLowerCase text) /\
  lowersUnitwise (skipn n text).
Proof.
  intros H. revert n. induction H as [|c t Hc Ht IH]; intros n.
  - destruct n; simpl; split; (reflexivity || constructor).
  - destruct n as [|n]; [split; [reflexivity | constructor; assumption]|].
    destruct (IH n) as [E F]. split; [|exact F].
    rewrite toLowerCase_cons. cbn [skipn].
    destruct (lowerUnit c) as [|x [|y l]]; try discriminate. exact E.
Qed.

Lemma toLowerCase_firstn (n : nat) (text : jsstring) :
  lowersUnitwise text ->
  toLowerCase (firstn n text) = firstn n (toLowerCase text).
Proof.
  intros H. revert n. induction H as [|c t Hc Ht IH]; intros n.
  - destruct n; reflexivity.
  - destruct n as [|n]; [reflexivity|].
    cbn [firstn]. rewrite !toLowerCase_cons.
    destruct (lowerUnit c) as [|x [|y l]]; try discriminate.
    simpl. rewrite IH. reflexivity.
Qed.

(** On a text that lowers unit by unit, the spans of the locator are valid
    offsets into the text itself, and the text reads the phrase there up to
    case. *)
Lemma findSpans_valid_on_unitwise_text (text : jsstring) (s : Span) :
  lowersUnitwise text ->
  In s (findSpans text spanPhrases) ->
  0 <= start s < end_ s /\ end_ s <= len text /\
  exists p, In p spanPhrases /\
            toLowerCase (slice text (start s) (end_ s)) = toLowerCase (phrase p).
Proof.
  intros Hu Hs.
  destruct (findSpans_offsets_in_lowercased_copy _ _ Hs) as (H1 & H2 & p & Hp & Hsl).
  split; [exact H1|]. split.
  - unfold len in *. rewrite toLowerCase_length in H2 by exact Hu. exact H2.
  - exists p. split; [exact Hp|]. rewrite <- Hsl. unfold slice.
    destruct (toLowerCase_skipn (Z.to_nat (start s)) text Hu) as [E F].
    rewrite toLowerCase_firstn by exact F. rewrite E. reflexivity.
Qed.

(** C5 at the failing input: the text is U+0130 followed by " urgent", 8
    units long; its lowercased copy is 9 units long and the span found there
    is (3, 9), which ends past the end of the text and covers "rgent" in it. *)
Theorem C5_span_indexes_lowercased_copy :
  len ([304] ++ lit " urgent") = 8 /\
  len (toLowerCase ([304] ++ lit " urgent")) = 9 /\
  map se (findSpans ([304] ++ lit " urgent") spanPhrases) = [(3, 9)] /\
  slice ([304] ++ lit " urgent") 3 9 = lit "rgent" /\
  map se (suspicious_spans
            (heuristicOnly [] (mkBody KText ([304] ++ lit " urgent") None None)))
    = [(3, 9)].
Proof. vm_compute. repeat split; reflexivity. Qed.

(** ** Heuristic score *)

Lemma nonEmpty_filter {A : Type} (f : A -> bool) (l : list A) :
  nonEmpty (filter f l) = existsb f l.
Proof.
  induction l as [|x l IH]; simpl; [reflexivity|].
  destruct (f x); simpl; [reflexivity | exact IH].
Qed.

Lemma addIf_plus (c : bool) (w score : Z) :
  addIf c w score = score + (if c then w else 0).
Proof. unfold addIf. destruct c; lia. Qed.

(** The score is the capped sum of the weights of the lines that fire. *)
Lemma heuristic_score_closed_form (text : jsstring) :
  Signals.heuristic_score (extractSignals text) = Z.min 100 (total (contributions text)).
Proof.
  cbv beta zeta iota delta
    [extractSignals Signals.heuristic_score contributions total fold_right fst snd triggers].
  rewrite !nonEmpty_filter, !addIf_plus. f_equal. lia.
Qed.

Lemma contributions_by_triggered (text : jsstring) :
  contributions text = combine (triggered text) weights.
Proof. reflexivity. Qed.

Lemma total_nonneg (text : jsstring) : 0 <= total (contributions text).
Proof.
  cbv beta zeta iota delta [contributions total fold_right fst snd].
  repeat match goal with |- context [if ?b then _ else _] => destruct b end; lia.
Qed.

Lemma heuristic_score_range (text : jsstring) :
  0 <= Signals.heuristic_score (extractSignals text) <= 100.
Proof.
  rewrite heuristic_score_closed_form. pose proof (total_nonneg text). lia.
Qed.

(** C9.  The heuristic score depends only on which lines of the score table
    fire, and a keyword category fires when at least one of its phrases
    occurs: two texts that trigger the same categories (and agree on having a
    URL and a shortened link) get the same score, however many phrases of a
    category each contains.  The score is the sum, capped at 100, of the
    weights of the lines that fire, each counted once. *)
Theorem C9_score_counts_each_category_once :
  forall text1 text2 : jsstring,
    triggered text1 = triggered text2 ->
    Signals.heuristic_score (extractSignals text1)
      = Signals.heuristic_score (extractSignals text2) /\
    Signals.heuristic_score (extractSignals text1)
      = Z.min 100 (total (combine (triggered text1) weights)).
Proof.
  intros text1 text2 H.
  rewrite !heuristic_score_closed_form, !contributions_by_triggered, H.
  split; reflexivity.
Qed.

Lemma C9_witness :
  triggered (lit "this is urgent") = triggered (lit "URGENT: act now, asap, immediately!") /\
  hits urgencyPhrases (lit "this is urgent") = [lit "urgent"] /\
  hits urgencyPhrases (lit "URGENT: act now, asap, immediately!")
    = [lit "act now"; lit "urgent"; lit "immediately"; lit "asap"] /\
  Signals.heuristic_score (extractSignals (lit "this is urgent"))
    = Signals.heuristic_score (extractSignals (lit "URGENT: act now, asap, immediately!")) /\
  Signals.heuristic_score (extractSignals (lit "this is urgent"))
    = Z.min 100 (total (combine (triggered (lit "this is urgent")) weights)).
Proof.
  split; [vm_compute; reflexivity|].
  split; [vm_compute; reflexivity|].
  split; [vm_compute; reflexivity|].
  exact (C9_score_counts_each_category_once
           (lit "this is urgent") (lit "URGENT: act now, asap, immediately!")
           ltac:(vm_compute; reflexivity)).
Defined.

(** C7.  Scenario S1: on the message of the scenario the lines of the score
    table that fire are the URL (+16), the shortened link (+10), urgency
    (+10, through "immediately") and fear (+10, through "locked"); the
    heuristic score is 46, which is "suspicious"; the tactics are Urgency and
    Fear; the extracted URLs hold the bit.ly link; and with no knowledge-base
    hit the handler returns that score and verdict for kind "text". *)
Theorem C7_scenario_locked_account :
  contributions (lit s1_text)
    = [(true, 16); (true, 10); (false, 16); (false, 26); (false, 18); (true, 10);
       (true, 10); (false, 7); (false, 10); (false, 10); (false, 22); (false, 22)] /\
  hits urgencyPhrases (lit s1_text) = [lit "immediately"] /\
  hits fearPhrases (lit s1_text) = [lit "locked"] /\
  Signals.heuristic_score (extractSignals (lit s1_text)) = 46 /\
  verdictFromScore 46 = suspicious /\
  map name (Signals.heuristic_tactics (extractSignals (lit s1_text)))
    = [lit "Urgency"; lit "Fear"] /\
  Signals.urls (extractSignals (lit s1_text)) = [lit "https://bit.ly/lock-verify"] /\
  (exists r, POST [] NoClient (request "text" s1_text) = Json r /\
             risk_score r = 46 /\ verdict r = suspicious /\
             map name (tactics r) = [lit "Urgency"; lit "Fear"] /\
             urls (extracted r) = [lit "https://bit.ly/lock-verify"]) /\
  (exists r, POST sampleKb NoClient (request "text" s1_text) = Json r /\
             risk_score r = 46 /\ verdict r = suspicious).
Proof.
  repeat (split; [vm_compute; reflexivity|]).
  split.
  - eexists. split; [vm_compute; reflexivity|]. vm_compute. repeat split; reflexivity.
  - eexists. split; [vm_compute; reflexivity|]. vm_compute. repeat split; reflexivity.
Qed.

(** ** Sorting and the knowledge base *)

Lemma insertSorted_Permutation {A : Type} (f : A -> A -> bool) (x : A) (l : list A) :
  Permutation (insertSorted f x l) (x :: l).
Proof.
  induction l as [|y l IH]; simpl; [reflexivity|].
  destruct (f x y); [reflexivity|].
  rewrite IH. apply perm_swap.
Qed.

Lemma sortBy_Permutation {A : Type} (f : A -> A -> bool) (l : list A) :
  Permutation (sortBy f l) l.
Proof.
  induction l as [|x l IH]; simpl; [reflexivity|].
  rewrite insertSorted_Permutation. constructor. exact IH.
Qed.

Lemma retrieveKbK_incl kb text kind emailMode k e :
  In e (retrieveKbK kb text kind emailMode k) -> In e kb.
Proof.
  unfold retrieveKbK. intros H.
  apply in_map_iff in H. destruct H as ([e' sc] & <- & H).
  apply In_firstn_inv in H.
  apply (Permutation_in _ (sortBy_Permutation _ _)) in H.
  apply filter_In in H. destruct H as [H _].
  apply in_map_iff in H. destruct H as (e'' & E & H).
  injection E as <- _. exact H.
Qed.

Lemma retrieveKb_in_range kb text kind emailMode :
  kbInRange kb -> kbInRange (retrieveKb kb text kind emailMode).
Proof.
  unfold kbInRange. rewrite !Forall_forall. intros H e He.
  apply H. eapply retrieveKbK_incl. exact He.
Qed.

Lemma kbRiskBoost_nonneg entries : kbInRange entries -> 0 <= kbRiskBoost entries.
Proof.
  unfold kbRiskBoost. intros H.
  assert (G : forall acc, 0 <= acc ->
                0 <= fold_left (fun sum e => sum + risk_boost e) entries acc).
  { induction H as [|e l [He _] _ IH]; intros acc Hacc; simpl; [exact Hacc|].
    apply IH. lia. }
  apply G. lia.
Qed.


(** ** Rounding *)

Lemma Math_round_range (x : Q) (lo hi : Z) :
  (zq lo <= x)%Q -> (x <= zq hi)%Q -> lo <= Math_round x <= hi.
Proof.
  unfold Math_round, zq. intros Hlo Hhi. split.
  - rewrite <- (Qfloor_Z lo). apply Qfloor_resp_le. lra.
  - assert (H : Qfloor (x + (1 # 2)) < hi + 1); [|lia].
    rewrite Zlt_Qlt. eapply Qle_lt_trans; [apply Qfloor_le|].
    rewrite inject_Z_plus. change (inject_Z 1) with 1%Q. lra.
Qed.

Lemma ragNudge_range (ragBoost : Z) : 0 <= ragBoost -> 0 <= ragNudge ragBoost <= 25.
Proof.
  intros H. unfold ragNudge.
  assert (0 <= Math_round (zq ragBoost / 3)); [|lia].
  assert (Hq : (0 <= zq ragBoost)%Q)
    by (unfold zq; change 0%Q with (inject_Z 0); rewrite <- Zle_Qle; exact H).
  unfold Math_round. rewrite <- (Qfloor_Z 0). apply Qfloor_resp_le.
  change (inject_Z 0) with 0%Q.
  assert ((0 <= zq ragBoost / 3)%Q); [|lra].
  apply Qle_shift_div_l; [reflexivity | lra].
Qed.

Lemma blend_range (q : Q) (h : Z) :
  (0 <= q)%Q -> (q <= 100)%Q -> 0 <= h <= 100 ->
  0 <= Math_round ((55 # 100) * q + (45 # 100) * zq h) <= 100.
Proof.
  intros Hq0 Hq1 [Hh0 Hh1].
  assert (H0 : (0 <= zq h)%Q)
    by (unfold zq; change 0%Q with (inject_Z 0); rewrite <- Zle_Qle; exact Hh0).
  assert (H1 : (zq h <= 100)%Q)
    by (unfold zq; change 100%Q with (inject_Z 100); rewrite <- Zle_Qle; exact Hh1).
  apply Math_round_range.
  - change (zq 0) with 0%Q. lra.
  - change (zq 100) with 100%Q. lra.
Qed.

(** ** Schema validation *)

Ltac bind_cases H :=
  repeat match type of H with
         | match ?e with Some _ => _ | None => None end = Some _ =>
             let E := fresh "E" in destruct e eqn:E; [|discriminate H]
         end.

Lemma zNumberIn_range lo hi v q :
  zNumberIn lo hi v = Some q -> (lo <= q)%Q /\ (q <= hi)%Q.
Proof.
  unfold zNumberIn. destruct v; try discriminate.
  destruct (Qle_bool lo q0) eqn:E1; [|discriminate].
  destruct (Qle_bool q0 hi) eqn:E2; [|discriminate].
  simpl. intros H. injection H as <-.
  split; apply Qle_bool_iff; assumption.
Qed.

Lemma AnalyzeSchema_parse_range parsed ai :
  AnalyzeSchema_parse parsed = Some ai ->
  (0 <= Ai.risk_score ai)%Q /\ (Ai.risk_score ai <= 100)%Q.
Proof.
  unfold AnalyzeSchema_parse, zObject. destruct parsed; try discriminate.
  intros H. bind_cases H. injection H as <-. simpl.
  unfold required in E. destruct (key members "risk_score"); [|discriminate].
  eapply zNumberIn_range. exact E.
Qed.

Lemma RouteV1_AnalyzeSchema_parse_range parsed ai :
  RouteV1.AnalyzeSchema_parse parsed = Some ai ->
  (0 <= RouteV1.Ai.risk_score ai)%Q /\ (RouteV1.Ai.risk_score ai <= 100)%Q.
Proof.
  unfold RouteV1.AnalyzeSchema_parse, zObject. destruct parsed; try discriminate.
  intros H. bind_cases H. injection H as <-. simpl.
  unfold required in E. destruct (key members "risk_score"); [|discriminate].
  eapply zNumberIn_range. exact E.
Qed.

(** ** The handler *)


Lemma raiseIf_true_ge (floor x : Z) : floor <= raiseIf true floor x.
Proof. unfold raiseIf. lia. Qed.


(** The cases of [POST]: the request was valid and the result is the
    heuristic-only one (no client) or the blended one (a schema-valid
    answer). *)
Lemma POST_Json_cases kb client req r :
  POST kb client req = Json r ->
  exists json body,
    req = Some json /\ BodySchema_parse json = Some body /\
    let kindMismatch :=
      Kind_eqb (kind body) KEmail && negb (looksLikeEmail (text body))
      && looksLikeSocial (text body) in
    let signals := extractSignals (text body) in
    let attackTypes :=
      buildAttackTypesHeuristic (kind body) (text body) (Signals.urls signals) in
    let kbHits := retrieveKb kb (text body) (kind body) (emailMode body) in
    (client = NoClient /\ r = heuristicOnly kb body) \/
    (exists content parsed ai,
        client = Service (Resolved content) /\
        JSON_parse (match content with Some c => c | None => lit "{}" end) = Some parsed /\
        AnalyzeSchema_parse parsed = Some ai /\
        r = blendedResult ai kindMismatch signals attackTypes kbHits).
Proof.
  unfold POST. intros H.
  destruct req as [json|]; [|discriminate].
  destruct (BodySchema_parse json) as [body|] eqn:Eb; [|discriminate].
  exists json, body. split; [reflexivity|]. split; [exact Eb|].
  destruct client as [|[|content]]; try discriminate.
  - left. injection H as <-. split; reflexivity.
  - right.
    destruct (JSON_parse _) as [parsed|] eqn:Ej; [|discriminate].
    destruct (AnalyzeSchema_parse parsed) as [ai|] eqn:Ea; [|discriminate].
    injection H as <-. exists content, parsed, ai. repeat split; assumption.
Qed.


Lemma sampleKb_in_range : kbInRange sampleKb.
Proof. repeat constructor; simpl; lia. Qed.



(** C3.  For a request of kind "email" whose text the handler finds not
    email-like (no line that starts with subject:, from:, to:, date: or cc:,
    and no @) and social-like (one of its social-bait phrases occurs), the
    heuristic-only result is returned when there is no client, and every
    result that is returned, heuristic-only or blended, has a risk score of
    at least 70 and the tab-switch instruction among its next steps. *)
Theorem C3_mismatch_floor :
  forall kb json body,
    BodySchema_parse json = Some body ->
    kind body = KEmail ->
    looksLikeEmail (text body) = false ->
    looksLikeSocial (text body) = true ->
    (exists r, POST kb NoClient (Some json) = Json r) /\
    (forall client r,
        POST kb client (Some json) = Json r ->
        70 <= risk_score r /\ In tabSwitchInstruction (next_steps r)).
Proof.
  intros kb json body Hb Hk He Hs. split.
  - unfold POST. rewrite Hb. eexists. reflexivity.
  - intros client r H.
    destruct (POST_Json_cases _ _ _ _ H) as (json' & body' & Ej & Hb' & Hcases).
    injection Ej as <-. rewrite Hb in Hb'. injection Hb' as <-.
    cbv zeta in Hcases. rewrite Hk, He, Hs in Hcases.
    change (Kind_eqb KEmail KEmail && negb false && true) with true in Hcases.
    destruct Hcases as [[_ ->] | (content & parsed & ai & _ & _ & _ & ->)].
    + unfold heuristicOnly. rewrite Hk, He, Hs.
      change (Kind_eqb KEmail KEmail && negb false && true) with true.
      split; [apply raiseIf_true_ge | left; reflexivity].
    + split; [apply raiseIf_true_ge | left; reflexivity].
Qed.

Lemma C3_witness :
  (exists r, POST sampleKb NoClient
               (request "email" "link in bio, repost to double your money") = Json r) /\
  (forall client r,
      POST sampleKb client (request "email" "link in bio, repost to double your money")
        = Json r ->
      70 <= risk_score r /\ In tabSwitchInstruction (next_steps r)).
Proof.
  exact (C3_mismatch_floor sampleKb
           (JObj [(lit "kind", JStr (lit "email"));
                  (lit "text", JStr (lit "link in bio, repost to double your money"))])
           (mkBody KEmail (lit "link in bio, repost to double your money") None None)
           ltac:(vm_compute; reflexivity) eq_refl
           ltac:(vm_compute; reflexivity) ltac:(vm_compute; reflexivity)).
Defined.

(** ** Deduplication *)

Lemma existsb_str_eqb_false (x : jsstring) (seen : list jsstring) :
  existsb (str_eqb x) seen = false -> ~ In x seen.
Proof.
  intros H Hin.
  assert (T : existsb (str_eqb x) seen = true).
  { apply existsb_exists. exists x. split; [exact Hin | apply str_eqb_eq; reflexivity]. }
  congruence.
Qed.

Lemma setFrom_not_seen (l seen : list jsstring) (x : jsstring) :
  In x (setFrom l seen) -> ~ In x seen.
Proof.
  revert seen. induction l as [|y l IH]; intros seen H; simpl in H; [contradiction|].
  destruct (existsb (str_eqb y) seen) eqn:E; [apply IH; exact H|].
  destruct H as [<- | H]; [apply existsb_str_eqb_false; exact E|].
  intros Hin. apply (IH _ H). right. exact Hin.
Qed.

Lemma setFrom_NoDup (l seen : list jsstring) : NoDup (setFrom l seen).
Proof.
  revert seen. induction l as [|y l IH]; intros seen; simpl; [constructor|].
  destruct (existsb (str_eqb y) seen); [apply IH|].
  constructor; [|apply IH].
  intros Hin. apply (setFrom_not_seen _ _ _ Hin). left. reflexivity.
Qed.

Lemma union40_NoDup (a b : list jsstring) : NoDup (union40 a b).
Proof. apply NoDup_firstn_of, setFrom_NoDup. Qed.

Lemma mapSet_keys (m : TagMap) (k : jsstring) (v : AttackType) (x : jsstring) :
  In x (map fst (mapSet m k v)) -> In x (map fst m) \/ x = k.
Proof.
  induction m as [|[k' v'] m IH]; simpl.
  - intros [<- | []]. right. reflexivity.
  - destruct (str_eqb k' k) eqn:E; simpl.
    + apply str_eqb_eq in E. subst k'. intros [<- | H]; [left; left; reflexivity | left; right; exact H].
    + intros [<- | H]; [left; left; reflexivity|].
      destruct (IH H) as [H' | ->]; [left; right; exact H' | right; reflexivity].
Qed.

Lemma mapSet_ok (m : TagMap) (v : AttackType) :
  tagMapOk m -> tagMapOk (mapSet m (tag v) v).
Proof.
  intros [Hnd Hall]. induction m as [|[k' v'] m IH]; simpl.
  - split; repeat constructor. intros [].
  - inversion Hnd as [|? ? Hk' Hnd']; subst. inversion Hall as [|? ? Hv' Hall']; subst.
    destruct (str_eqb k' (tag v)) eqn:E.
    + apply str_eqb_eq in E. subst k'. split; simpl.
      * constructor; assumption.
      * constructor; [reflexivity | assumption].
    + destruct (IH Hnd' Hall') as [IHnd IHall]. split; simpl.
      * constructor; [|exact IHnd].
        intros Hin. destruct (mapSet_keys _ _ _ _ Hin) as [H | H]; [contradiction|].
        subst k'. assert (str_eqb (tag v) (tag v) = true) by (apply str_eqb_eq; reflexivity).
        congruence.
      * constructor; [exact Hv' | exact IHall].
Qed.

Lemma keepsMax_ok (m : TagMap) (t : AttackType) : tagMapOk m -> tagMapOk (keepsMax m t).
Proof.
  intros H. unfold keepsMax.
  destruct (mapGet m (tag t)); [destruct (negb _)|]; auto using mapSet_ok.
Qed.

Lemma fold_keepsMax_ok (l : list AttackType) (m : TagMap) :
  tagMapOk m -> tagMapOk (fold_left keepsMax l m).
Proof.
  revert m. induction l as [|t l IH]; intros m H; simpl; [exact H|].
  apply IH, keepsMax_ok, H.
Qed.

Lemma mapValues_tags (m : TagMap) : tagMapOk m -> NoDup (map tag (mapValues m)).
Proof.
  intros [Hnd Hall]. unfold mapValues. rewrite map_map.
  replace (map (fun kv => tag (snd kv)) m) with (map fst m); [exact Hnd|].
  apply map_ext_Forall. eapply Forall_impl; [|exact Hall]. intros kv E. symmetry. exact E.
Qed.

(** The classifier keeps one entry for each tag. *)
Lemma buildAttackTypesHeuristic_NoDup kind text urls :
  NoDup (map tag (buildAttackTypesHeuristic kind text urls)).
Proof.
  unfold buildAttackTypesHeuristic. cbv zeta.
  match goal with
  | |- NoDup (map tag (firstn 6 (sortBy ?f (mapValues (fold_left keepsMax ?l [])))))
    => generalize l; intros tags
  end.
  rewrite <- firstn_map. apply NoDup_firstn_of.
  eapply Permutation_NoDup.
  - apply Permutation_map. symmetry. apply sortBy_Permutation.
  - apply mapValues_tags, fold_keepsMax_ok. split; constructor.
Qed.

(** C6 as the code has it.  In every result that the handler returns: when
    there is no client (heuristic-only path) no two attack types have the
    same tag; when there is a client (blended path) none of the extracted
    lists of URLs, emails and phone numbers has a duplicate. *)
Theorem C6_what_is_deduplicated :
  forall kb client req r,
    POST kb client req = Json r ->
    (client = NoClient -> NoDup (map tag (attack_types r))) /\
    (client <> NoClient ->
       NoDup (urls (extracted r)) /\ NoDup (emails (extracted r)) /\
       NoDup (phone_numbers (extracted r))).
Proof.
  intros kb client req r H.
  destruct (POST_Json_cases _ _ _ _ H) as (json & body & _ & _ & Hcases).
  cbv zeta in Hcases.
  destruct Hcases as [[-> ->] | (content & parsed & ai & -> & _ & _ & ->)].
  - split; [|intros Hc; contradiction Hc; reflexivity].
    intros _. apply buildAttackTypesHeuristic_NoDup.
  - split; [discriminate|]. intros _.
    repeat split; apply union40_NoDup.
Qed.

Lemma C6_witness :
  exists r,
    POST sampleKb (Service (Resolved (Some repeatedTagAnswer)))
         (request "text" "see example.com/a and example.com/a") = Json r /\
    (Service (Resolved (Some repeatedTagAnswer)) = NoClient ->
       NoDup (map tag (attack_types r))) /\
    (Service (Resolved (Some repeatedTagAnswer)) <> NoClient ->
       NoDup (urls (extracted r)) /\ NoDup (emails (extracted r)) /\
       NoDup (phone_numbers (extracted r))).
Proof.
  eexists. split; [vm_compute; reflexivity|].
  apply (C6_what_is_deduplicated sampleKb (Service (Resolved (Some repeatedTagAnswer)))
           (request "text" "see example.com/a and example.com/a")).
  vm_compute. reflexivity.
Defined.

(** C6 as stated fails on both paths: without a client a URL that occurs
    twice in the text is returned twice, and with a client a tag that the
    model names twice is returned twice. *)
Lemma C6_duplicates_are_returned :
  (exists r,
      POST [] NoClient (request "text" "see example.com/a and example.com/a") = Json r /\
      urls (extracted r) = [lit "example.com/a"; lit "example.com/a"] /\
      ~ NoDup (urls (extracted r))) /\
  (exists r,
      POST [] (Service (Resolved (Some repeatedTagAnswer)))
           (request "text" "see example.com/a and example.com/a") = Json r /\
      map tag (attack_types r) = [lit "phishing"; lit "phishing"] /\
      ~ NoDup (map tag (attack_types r))).
Proof.
  split.
  - eexists. split; [vm_compute; reflexivity|].
    split; [vm_compute; reflexivity|].
    intros H. inversion H as [|x l Hx _]; subst. apply Hx. left. reflexivity.
  - eexists. split; [vm_compute; reflexivity|].
    split; [vm_compute; reflexivity|].
    intros H. inversion H as [|x l Hx _]; subst. apply Hx. left. reflexivity.
Qed.

(** ** Failures of the model *)

Lemma POST_without_client kb json body :
  BodySchema_parse json = Some body ->
  POST kb NoClient (Some json) = Json (heuristicOnly kb body).
Proof. intros H. unfold POST. rewrite H. reflexivity. Qed.

Lemma RouteV1_parse_gives_up raw fallback :
  JSON_parse raw = None -> noBracedPart raw ->
  RouteV1.parseModelOutput raw fallback = inl (RouteV1.Json fallback).
Proof.
  intros Hp Hb. unfold RouteV1.parseModelOutput. rewrite Hp.
  replace ((indexOf raw (lit "{") 0 >=? 0)
           && (RouteV1.lastIndexOf raw (lit "}") >? indexOf raw (lit "{") 0))
    with false; [reflexivity|].
  symmetry. apply andb_false_iff. unfold noBracedPart in Hb.
  destruct Hb as [H | H]; [left | right].
  - rewrite Z.geb_leb. apply Z.leb_gt. exact H.
  - rewrite Z.gtb_ltb. apply Z.ltb_ge. exact H.
Qed.

(** C1 as the code has it.  For every valid request: without a client
    (the credential is missing) the handler returns the complete
    heuristic-only result; when the call to the model fails, or its answer is
    JSON that does not pass the response schema, the handler answers with an
    error of status 400.  In the first variant of the route the same holds,
    and an answer that is not JSON and holds no braced part is answered with
    the heuristic-only result. *)
Theorem C1_fallback_and_errors :
  (forall kb json body,
      BodySchema_parse json = Some body ->
      POST kb NoClient (Some json) = Json (heuristicOnly kb body) /\
      POST kb (Service Rejected) (Some json) = ErrorJson ModelCallFailed 400 /\
      (forall content parsed,
          JSON_parse (match content with Some c => c | None => lit "{}" end)
            = Some parsed ->
          AnalyzeSchema_parse parsed = None ->
          POST kb (Service (Resolved content)) (Some json)
            = ErrorJson ModelOutputOffSchema 400)) /\
  (forall json kind text,
      RouteV1.BodySchema_parse json = Some (kind, text) ->
      RouteV1.POST NoClient (Some json)
        = RouteV1.Json (RouteV1.fallbackResult (RouteV1.extractSignals text)) /\
      RouteV1.POST (Service Rejected) (Some json)
        = RouteV1.ErrorJson ModelCallFailed 400 /\
      (forall raw,
          JSON_parse raw = None -> noBracedPart raw ->
          RouteV1.POST (Service (Resolved (Some raw))) (Some json)
            = RouteV1.Json (RouteV1.fallbackResult (RouteV1.extractSignals text)))).
Proof.
  split.
  - intros kb json body Hb. split; [apply POST_without_client; exact Hb|].
    split.
    + unfold POST. rewrite Hb. reflexivity.
    + intros content parsed Hp Hs. unfold POST. rewrite Hb, Hp, Hs. reflexivity.
  - intros json kind text Hb. split; [|split].
    + unfold RouteV1.POST. rewrite Hb. reflexivity.
    + unfold RouteV1.POST. rewrite Hb. reflexivity.
    + intros raw Hp Hn. unfold RouteV1.POST. rewrite Hb.
      rewrite (RouteV1_parse_gives_up _ _ Hp Hn). reflexivity.
Qed.

Lemma C1_witness :
  (POST sampleKb NoClient (request "text" s1_text)
     = Json (heuristicOnly sampleKb (mkBody KText (lit s1_text) None None)) /\
   POST sampleKb (Service Rejected) (request "text" s1_text)
     = ErrorJson ModelCallFailed 400) /\
  RouteV1.POST (Service (Resolved (Some (lit "I cannot answer that."))))
               (request "text" s1_text)
    = RouteV1.Json (RouteV1.fallbackResult (RouteV1.extractSignals (lit s1_text))).
Proof.
  split.
  - pose proof (proj1 C1_fallback_and_errors sampleKb
                  (JObj [(lit "kind", JStr (lit "text")); (lit "text", JStr (lit s1_text))])
                  (mkBody KText (lit s1_text) None None)
                  ltac:(vm_compute; reflexivity)) as (H1 & H2 & _).
    split; [exact H1 | exact H2].
  - exact (proj2 (proj2 (proj2 C1_fallback_and_errors
                  (JObj [(lit "kind", JStr (lit "text")); (lit "text", JStr (lit s1_text))])
                  KText (lit s1_text) ltac:(vm_compute; reflexivity)))
             (lit "I cannot answer that.")
             ltac:(vm_compute; reflexivity)
             ltac:(left; vm_compute; reflexivity)).
Defined.

(** C1 as stated fails: a failed call to the model, and an answer that is
    JSON but off the schema, are answered with an error response, not with
    the heuristic-only result. *)
Lemma C1_model_failure_is_an_error :
  POST sampleKb (Service Rejected) (request "text" s1_text)
    = ErrorJson ModelCallFailed 400 /\
  POST sampleKb (Service (Resolved (Some (lit "{}")))) (request "text" s1_text)
    = ErrorJson ModelOutputOffSchema 400 /\
  POST sampleKb NoClient (request "text" s1_text)
    = Json (heuristicOnly sampleKb (mkBody KText (lit s1_text) None None)) /\
  RouteV1.POST (Service Rejected) (request "text" s1_text)
    = RouteV1.ErrorJson ModelCallFailed 400.
Proof. vm_compute. repeat split; reflexivity. Qed.

(** The first variant keeps the score in range as well. *)
Lemma RouteV1_heuristic_score_range (text : jsstring) :
  0 <= Signals.heuristic_score (RouteV1.extractSignals text) <= 100.
Proof.
  cbv beta zeta iota delta [RouteV1.extractSignals Signals.heuristic_score].
  rewrite !addIf_plus.
  repeat match goal with |- context [if ?b then _ else _] => destruct b end; lia.
Qed.

Lemma RouteV1_risk_score_in_range client req r :
  RouteV1.POST client req = RouteV1.Json r -> 0 <= RouteV1.risk_score r <= 100.
Proof.
  unfold RouteV1.POST. intros H.
  destruct req as [json|]; [|discriminate].
  destruct (RouteV1.BodySchema_parse json) as [[kind text]|]; [|discriminate].
  pose proof (RouteV1_heuristic_score_range text) as Hh.
  assert (Hblend : forall parsed,
             match RouteV1.AnalyzeSchema_parse parsed with
             | Some ai => RouteV1.Json (RouteV1.blendedResult ai (RouteV1.extractSignals text))
             | None => RouteV1.ErrorJson ModelOutputOffSchema 400
             end = RouteV1.Json r -> 0 <= RouteV1.risk_score r <= 100).
  { intros parsed Hr.
    destruct (RouteV1.AnalyzeSchema_parse parsed) as [ai|] eqn:Ea; [|discriminate].
    injection Hr as <-. destruct (RouteV1_AnalyzeSchema_parse_range _ _ Ea).
    apply blend_range; assumption. }
  destruct client as [|[|content]]; try discriminate.
  - injection H as <-. exact Hh.
  - unfold RouteV1.parseModelOutput in H.
    destruct (JSON_parse _) as [parsed|]; [exact (Hblend _ H)|].
    destruct (_ && _).
    + destruct (JSON_parse _) as [parsed|]; [exact (Hblend _ H) | discriminate].
    + injection H as <-. exact Hh.
Qed.

(** ** The span list that the route returns *)




(** ** The page's highlighter *)

Lemma Forall_Permutation {A : Type} (P : A -> Prop) (l l' : list A) :
  Permutation l l' -> Forall P l -> Forall P l'.
Proof.
  intros Hp H. apply Forall_forall. intros x Hx.
  apply (proj1 (Forall_forall _ _) H). apply (Permutation_in _ (Permutation_sym Hp) Hx).
Qed.

Lemma insertSorted_sorted {A : Type} (f : A -> A -> bool) (R : A -> A -> Prop) :
  (forall x y, f x y = true -> R x y) ->
  (forall x y, f x y = false -> R y x) ->
  (forall x y z, R x y -> R y z -> R x z) ->
  forall x l, StronglySorted R l -> StronglySorted R (insertSorted f x l).
Proof.
  intros Ht Hf Htr x l Hl. induction Hl as [|y l Hl IH Hy]; simpl.
  - repeat constructor.
  - destruct (f x y) eqn:E.
    + constructor; [constructor; assumption|].
      constructor; [apply Ht; exact E|].
      eapply Forall_impl; [|exact Hy]. intros z Hz. eapply Htr; [apply Ht; exact E | exact Hz].
    + constructor; [exact IH|].
      apply (Forall_Permutation _ (x :: l)).
      * symmetry. apply insertSorted_Permutation.
      * constructor; [apply Hf; exact E | exact Hy].
Qed.

Lemma sortBy_start_sorted (l : list Span) :
  StronglySorted (fun a b => start a <= start b)
                 (sortBy (fun a b => start a <=? start b) l).
Proof.
  induction l as [|x l IH]; simpl; [constructor|].
  apply insertSorted_sorted with (R := fun a b => start a <= start b); auto.
  - intros a b H. apply Z.leb_le. exact H.
  - intros a b H. apply Z.leb_gt in H. lia.
  - intros a b c. lia.
Qed.

Lemma StronglySorted_snoc {A : Type} (R : A -> A -> Prop) (l : list A) (x : A) :
  StronglySorted R l -> Forall (fun a => R a x) l -> StronglySorted R (l ++ [x]).
Proof.
  intros Hs Hx. induction Hs as [|y l Hl IH Hy]; simpl; [repeat constructor|].
  inversion Hx as [|? ? Hyx Hx']; subst.
  constructor; [apply IH; exact Hx'|].
  apply Forall_app. split; [exact Hy | repeat constructor; exact Hyx].
Qed.

Lemma StronglySorted_rev {A : Type} (R : A -> A -> Prop) (l : list A) :
  StronglySorted R l -> StronglySorted (fun a b => R b a) (rev l).
Proof.
  induction 1 as [|x l Hl IH Hx]; simpl; [constructor|].
  apply StronglySorted_snoc; [exact IH | apply Forall_rev; exact Hx].
Qed.

Lemma mergeStep_ok (merged : list Span) (s : Span) (bound : Z) :
  mergedOk bound merged -> start s < end_ s -> bound <= start s ->
  mergedOk (start s) (mergeStep merged s).
Proof.
  intros [Hs Hv] Hp Hb. unfold mergeStep.
  destruct merged as [|last before].
  - split; repeat constructor; lia.
  - inversion Hs as [|? ? Hs' Hlast]; subst. inversion Hv as [|? ? [Hl1 Hl2] Hv']; subst.
    destruct (Z.geb_spec (start s) (end_ last)).
    + split.
      * constructor; [exact Hs|]. constructor; [lia|].
        eapply Forall_impl; [|exact Hlast]. simpl. intros b Hbl. lia.
      * constructor; [lia|]. eapply Forall_impl; [|exact Hv]. simpl. intros b [? ?]. lia.
    + destruct (Z.gtb_spec (end_ s) (end_ last)).
      * split.
        -- constructor; [exact Hs'|]. exact Hlast.
        -- constructor; [simpl; lia|].
           eapply Forall_impl; [|exact Hv']. simpl. intros b [? ?]. lia.
      * split; [exact Hs|].
        eapply Forall_impl; [|exact Hv]. simpl. intros b [? ?]. lia.
Qed.

Lemma fold_mergeStep_ok (sorted merged : list Span) (bound : Z) :
  StronglySorted (fun a b => start a <= start b) sorted ->
  Forall (fun s => start s < end_ s /\ bound <= start s) sorted ->
  mergedOk bound merged ->
  exists bound', mergedOk bound' (fold_left mergeStep sorted merged).
Proof.
  revert merged bound. induction sorted as [|s sorted IH]; intros merged bound Hs Hv Hm.
  - exists bound. exact Hm.
  - inversion Hs as [|? ? Hs' Hle]; subst. inversion Hv as [|? ? [Hp Hb] Hv']; subst.
    simpl. apply (IH _ (start s)); [exact Hs' | | apply (mergeStep_ok _ _ bound); assumption].
    apply Forall_forall. intros b Hin. split.
    + exact (proj1 (proj1 (Forall_forall _ _) Hv' b Hin)).
    + exact (proj1 (Forall_forall _ _) Hle b Hin).
Qed.

(** The spans that the page highlights do not overlap: in display order each
    ends at or before the start of the next (two may touch), and each is
    proper.  The merge that the route itself does not do happens here. *)
Lemma highlightMerged_no_overlap (text : jsstring) (spans : list Span) :
  StronglySorted (fun a b => end_ a <= start b) (highlightMerged text spans) /\
  Forall (fun s => start s < end_ s) (highlightMerged text spans).
Proof.
  unfold highlightMerged. cbv zeta.
  set (sorted := sortBy _ (filter (fitsText text) spans)).
  assert (Hfit : Forall (fun s => start s < end_ s /\ 0 <= start s) sorted).
  { apply (Forall_Permutation _ (filter (fitsText text) spans)).
    - symmetry. apply sortBy_Permutation.
    - apply Forall_forall. intros s Hs. apply filter_In in Hs. destruct Hs as [_ Hs].
      unfold fitsText in Hs. apply andb_true_iff in Hs. destruct Hs as [Hs H3].
      apply andb_true_iff in Hs. destruct Hs as [H1 H2].
      apply Z.geb_le in H1. rewrite Z.gtb_ltb in H3. apply Z.ltb_lt in H3. lia. }
  destruct (fold_mergeStep_ok sorted [] 0 (sortBy_start_sorted _) Hfit)
    as (bound & Hs & Hv); [split; constructor|].
  split.
  - apply (StronglySorted_rev _ _ Hs).
  - apply Forall_rev. eapply Forall_impl; [|exact Hv]. simpl. intros s [H _]. exact H.
Qed.

(** * Properties beyond the specification *)

(** ** Request validation *)

Lemma BodySchema_parse_text (json : JValue) (body : Body) :
  BodySchema_parse json = Some body ->
  exists members,
    json = JObj members /\
    objGet members (lit "text") = Some (JStr (text body)) /\ 3 <= len (text body).
Proof.
  unfold BodySchema_parse, zObject. destruct json as [| | | |items|members]; try discriminate.
  intros H. exists members. split; [reflexivity|].
  bind_cases H. injection H as <-. simpl.
  unfold required, key in *.
  destruct (objGet members (lit "text")) as [v|]; [|discriminate].
  unfold zText, zString in *. destruct v; try discriminate.
  destruct (Z.leb_spec 3 (len s)); [|discriminate].
  match goal with E : Some _ = Some _ |- _ => injection E as <- end.
  split; [reflexivity | assumption].
Qed.

(** A request whose body is not an object with a string member [text] of at
    least three code units is answered with status 400, whether or not there
    is a client: the model is never consulted for it. *)
Theorem invalid_body_is_rejected :
  forall kb client json,
    ~ (exists members s,
          json = JObj members /\ objGet members (lit "text") = Some (JStr s) /\
          3 <= len s) ->
    POST kb client (Some json) = ErrorJson InvalidBody 400.
Proof.
  intros kb client json Hno. unfold POST.
  destruct (BodySchema_parse json) as [body|] eqn:E; [|reflexivity].
  exfalso. apply Hno.
  destruct (BodySchema_parse_text _ _ E) as (members & Ej & Ht & Hl).
  exists members, (text body). repeat split; assumption.
Qed.

Lemma invalid_body_is_rejected_witness :
  POST sampleKb (Service (Resolved (Some sampleAnswer)))
       (Some (JObj [(lit "kind", JStr (lit "text")); (lit "text", JStr (lit "hi"))]))
  = ErrorJson InvalidBody 400.
Proof.
  apply (invalid_body_is_rejected sampleKb (Service (Resolved (Some sampleAnswer)))).
  intros (members & s & E & Ht & Hl).
  injection E as <-. vm_compute in Ht. injection Ht as <-.
  vm_compute in Hl. apply Hl. reflexivity.
Defined.

(** A body that gives no [kind], [emailMode] or [senderEmail] is analysed as
    kind "text": without a client the answer is the heuristic-only result
    of that text. *)
Theorem kind_defaults_to_text :
  forall kb members s,
    objGet members (lit "text") = Some (JStr s) -> 3 <= len s ->
    objGet members (lit "kind") = None ->
    objGet members (lit "emailMode") = None ->
    objGet members (lit "senderEmail") = None ->
    POST kb NoClient (Some (JObj members))
      = Json (heuristicOnly kb (mkBody KText s None None)).
Proof.
  intros kb members s Ht Hl Hk Hm Hs.
  apply POST_without_client.
  unfold BodySchema_parse, zObject, key, required, withDefault, optional.
  rewrite Hk, Ht, Hm, Hs. unfold zText, zString.
  destruct (Z.leb_spec 3 (len s)); [reflexivity | lia].
Qed.

Lemma kind_defaults_to_text_witness :
  POST sampleKb NoClient (Some (JObj [(lit "text", JStr (lit "call me now"))]))
  = Json (heuristicOnly sampleKb (mkBody KText (lit "call me now") None None)).
Proof.
  apply (kind_defaults_to_text sampleKb [(lit "text", JStr (lit "call me now"))]
           (lit "call me now"));
    vm_compute; (reflexivity || discriminate).
Defined.

(** ** Size and completeness of a result *)

Lemma length_firstn_le {A : Type} (n : nat) (l : list A) : (length (firstn n l) <= n)%nat.
Proof. rewrite length_firstn. lia. Qed.

Lemma findSpansCap_length (cap : nat) text phrases :
  (0 < cap)%nat -> (length (findSpansCap cap text phrases) <= cap)%nat.
Proof. intros H. rewrite findSpansCap_unmerged by exact H. apply length_firstn_le. Qed.

Lemma pushIf_length {A : Type} (c : bool) (x : A) (l : list A) :
  (length l <= length (pushIf c x l) <= S (length l))%nat.
Proof. unfold pushIf. destruct c; [rewrite length_app; simpl|]; lia. Qed.

Lemma pushIf_bound {A : Type} (c : bool) (x : A) (l : list A) (n : nat) :
  (length l <= n)%nat -> (length (pushIf c x l) <= S n)%nat.
Proof. pose proof (pushIf_length c x l). lia. Qed.

(** There is always a tactic, and never more than nine. *)
Lemma heuristic_tactics_length (text : jsstring) :
  (1 <= length (Signals.heuristic_tactics (extractSignals text)) <= 9)%nat.
Proof.
  cbv beta zeta iota delta [extractSignals Signals.heuristic_tactics].
  match goal with
  | |- context [pushIf (negb (nonEmpty ?t)) lowSignal ?t] => set (T := t)
  end.
  assert (HT : (length T <= 9)%nat).
  { unfold T. repeat apply pushIf_bound. simpl. lia. }
  destruct T as [|x T]; simpl in *; [lia|]. lia.
Qed.

Lemma extractSignals_caps (text : jsstring) :
  (length (Signals.urls (extractSignals text)) <= 40)%nat /\
  (length (Signals.emails (extractSignals text)) <= 40)%nat /\
  (length (Signals.phone_numbers (extractSignals text)) <= 40)%nat /\
  (length (Signals.suspicious_spans (extractSignals text)) <= 40)%nat.
Proof.
  cbv beta zeta iota delta
    [extractSignals Signals.urls Signals.emails Signals.phone_numbers
     Signals.suspicious_spans].
  repeat split; try apply length_firstn_le.
  apply findSpansCap_length. lia.
Qed.

Lemma fallback_next_steps_length body kindMismatch signals attackTypes kbHits :
  (3 <= length (next_steps (fallbackResult body kindMismatch signals attackTypes kbHits))
     <= 5)%nat.
Proof.
  unfold fallbackResult. cbn [next_steps].
  destruct kindMismatch; [simpl; lia|].
  destruct (kind body); [| destruct (emailMode_is_work (emailMode body)) |]; simpl; lia.
Qed.

(** The lists of a returned result are bounded: at most 6 attack types, at
    most 40 URLs, 40 emails and 40 phone numbers, at most 10 next steps;
    without a client also at most 40 spans and at most 9 tactics.  (With a
    client the spans and tactics are the model's, which the handler does not
    cut.) *)
Theorem result_lists_are_bounded :
  forall kb client req r,
    POST kb client req = Json r ->
    (length (attack_types r) <= 6)%nat /\
    (length (urls (extracted r)) <= 40)%nat /\
    (length (emails (extracted r)) <= 40)%nat /\
    (length (phone_numbers (extracted r)) <= 40)%nat /\
    (length (next_steps r) <= 10)%nat /\
    (client = NoClient ->
       (length (suspicious_spans r) <= 40)%nat /\ (length (tactics r) <= 9)%nat).
Proof.
  intros kb client req r H.
  destruct (POST_Json_cases _ _ _ _ H) as (json & body & _ & _ & Hcases).
  cbv zeta in Hcases.
  destruct Hcases as [[-> ->] | (content & parsed & ai & -> & _ & _ & ->)].
  - pose proof (extractSignals_caps (text body)) as (Hu & He & Hp & Hs).
    pose proof (fallback_next_steps_length body (kindMismatchOf body)
                  (extractSignals (text body))
                  (buildAttackTypesHeuristic (kind body) (text body)
                     (Signals.urls (extractSignals (text body))))
                  (retrieveKb kb (text body) (kind body) (emailMode body))) as Hn.
    unfold heuristicOnly. fold (kindMismatchOf body).
    split; [apply length_firstn_le|].
    split; [exact Hu|]. split; [exact He|]. split; [exact Hp|].
    split; [lia|]. intros _. split; [exact Hs|].
    pose proof (heuristic_tactics_length (text body)) as Ht.
    cbn [tactics fallbackResult]. lia.
  - split; [apply length_firstn_le|].
    split; [apply length_firstn_le|]. split; [apply length_firstn_le|].
    split; [apply length_firstn_le|].
    split; [|discriminate].
    cbn [next_steps blendedResult].
    destruct (_ && _ && _); apply length_firstn_le.
Qed.

Lemma result_lists_are_bounded_witness :
  exists r,
    POST sampleKb (Service (Resolved (Some repeatedTagAnswer)))
         (request "email" "link in bio, repost to double your money") = Json r /\
    (length (attack_types r) <= 6)%nat /\
    (length (urls (extracted r)) <= 40)%nat /\
    (length (emails (extracted r)) <= 40)%nat /\
    (length (phone_numbers (extracted r)) <= 40)%nat /\
    (length (next_steps r) <= 10)%nat /\
    (Service (Resolved (Some repeatedTagAnswer)) = NoClient ->
       (length (suspicious_spans r) <= 40)%nat /\ (length (tactics r) <= 9)%nat).
Proof.
  eexists. split; [vm_compute; reflexivity|].
  apply (result_lists_are_bounded sampleKb (Service (Resolved (Some repeatedTagAnswer)))
           (request "email" "link in bio, repost to double your money")).
  vm_compute. reflexivity.
Defined.

Lemma orElse_nonempty (a b : jsstring) : b <> [] -> orElse a b <> [].
Proof. unfold orElse. destruct a; [auto | discriminate]. Qed.

(** Without a client the result is complete: it names at least one tactic,
    gives three to five next steps, and its safe reply and its summary are
    not empty, whatever the text and the knowledge-base table. *)
Theorem heuristic_result_is_complete :
  forall kb body,
    tactics (heuristicOnly kb body) <> [] /\
    (3 <= length (next_steps (heuristicOnly kb body)) <= 5)%nat /\
    safe_reply (heuristicOnly kb body) <> [] /\
    summary (heuristicOnly kb body) <> [].
Proof.
  intros kb body. unfold heuristicOnly. fold (kindMismatchOf body).
  split; [|split; [apply fallback_next_steps_length|split]].
  - cbn [tactics fallbackResult].
    pose proof (heuristic_tactics_length (text body)) as H.
    destruct (Signals.heuristic_tactics (extractSignals (text body)));
      [simpl in H; lia | discriminate].
  - cbn [safe_reply fallbackResult]. apply orElse_nonempty.
    destruct (kind body); [| destruct (emailMode_is_work (emailMode body)) |];
      discriminate.
  - cbn [summary fallbackResult].
    destruct (kindMismatchOf body); [discriminate|].
    match goal with |- (if ?c then _ else _) <> [] => destruct c end; discriminate.
Qed.

(** ** Tactics *)

Lemma In_pushIf {A : Type} (c : bool) (x : A) (l : list A) (y : A) :
  In y (pushIf c x l) -> In y l \/ (c = true /\ y = x).
Proof.
  unfold pushIf. destruct c; [|auto]. intros H. apply in_app_or in H.
  destruct H as [H | [<- | []]]; auto.
Qed.

Lemma evidence_of_hits (phrases : list jsstring) (text e : jsstring) :
  In e (firstn 3 (filter (fun s => includes (toLowerCase text) s) phrases)) ->
  includes (toLowerCase text) e = true.
Proof.
  intros H. apply In_firstn_inv in H. apply filter_In in H. exact (proj2 H).
Qed.

(** Every tactic of the signal extractor quotes at most three phrases as
    evidence, each of which occurs in the lowercased text, and its
    confidence lies between 60 and 92. *)
Theorem tactic_evidence_occurs_in_text :
  forall text t,
    In t (Signals.heuristic_tactics (extractSignals text)) ->
    (length (evidence t) <= 3)%nat /\
    (forall e, In e (evidence t) -> includes (toLowerCase text) e = true) /\
    (60 <= confidence t)%Q /\ (confidence t <= 92)%Q.
Proof.
  intros text t.
  cbv beta zeta iota delta [extractSignals Signals.heuristic_tactics].
  intros H.
  repeat (apply In_pushIf in H; destruct H as [H | [_ ->]]);
    [destruct H | ..]; cbn [evidence confidence lowSignal];
    (split; [try apply length_firstn_le; simpl; lia|]);
    (split; [intros e He; try (exact (evidence_of_hits _ _ _ He)); destruct He|]);
    split; unfold Qle; simpl; lia.
Qed.

Lemma tactic_evidence_occurs_in_text_witness :
  exists t,
    In t (Signals.heuristic_tactics (extractSignals (lit "URGENT: act now, asap!"))) /\
    evidence t = [lit "act now"; lit "urgent"; lit "asap"] /\
    (length (evidence t) <= 3)%nat /\
    (forall e, In e (evidence t) ->
               includes (toLowerCase (lit "URGENT: act now, asap!")) e = true) /\
    (60 <= confidence t)%Q /\ (confidence t <= 92)%Q.
Proof.
  assert (H : In (mkTactic (lit "Urgency") (80 # 1)
                    (lit "Deadlines and pressure reduce careful checking.")
                    [lit "act now"; lit "urgent"; lit "asap"])
                 (Signals.heuristic_tactics (extractSignals (lit "URGENT: act now, asap!"))))
    by (vm_compute; left; reflexivity).
  eexists. split; [exact H|]. split; [reflexivity|].
  exact (tactic_evidence_occurs_in_text _ _ H).
Defined.

Lemma pushIf_nil {A : Type} (c : bool) (x : A) (l : list A) :
  pushIf c x l = [] -> c = false /\ l = [].
Proof.
  unfold pushIf. destruct c; [|auto]. destruct l; discriminate.
Qed.

Lemma tactic_triggers_spelled (text : jsstring) :
  existsb (fun phrases => triggers phrases text) tacticCategories =
  triggers urgencyPhrases text || (triggers fearPhrases text
  || (triggers authorityPhrases text || (triggers moneyPhrases text
  || (triggers otpPhrases text || (triggers credPhrases text
  || (triggers attachmentPhrases text || (triggers viralPhrases text
  || (triggers getRichPhrases text || false)))))))).
Proof. reflexivity. Qed.

Lemma lowSignal_alone (text : jsstring) :
  Signals.heuristic_tactics (extractSignals text) = [lowSignal] <->
  existsb (fun phrases => triggers phrases text) tacticCategories = false.
Proof.
  rewrite tactic_triggers_spelled. unfold triggers.
  cbv beta zeta iota delta [extractSignals Signals.heuristic_tactics].
  rewrite !nonEmpty_filter.
  match goal with
  | |- context [pushIf (negb (nonEmpty ?t)) lowSignal ?t] => remember t as T eqn:ET
  end.
  split.
  - intros H. destruct T as [|x T'].
    + symmetry in ET.
      repeat (apply pushIf_nil in ET; destruct ET as [-> ET]).
      reflexivity.
    + exfalso. simpl in H. injection H as Hx _.
      assert (Hin : In x (x :: T')) by (left; reflexivity).
      rewrite ET in Hin.
      repeat (apply In_pushIf in Hin; destruct Hin as [Hin | [_ Hin]]);
        [destruct Hin | ..]; rewrite Hin in Hx; discriminate.
  - intros H.
    repeat (apply orb_false_elim in H; destruct H as [? H]).
    repeat match goal with
           | E : existsb _ _ = false |- _ => rewrite E in ET; clear E
           end.
    subst T. reflexivity.
Qed.

(** The "Low Signal" tactic stands alone exactly when none of the nine
    categories that have a tactic is triggered.  The reward category is not
    one of them: a text that only triggers it scores 10 and still shows
    "Low Signal". *)
Theorem low_signal_means_no_tactic_category :
  forall text,
    Signals.heuristic_tactics (extractSignals text) = [lowSignal] <->
    existsb (fun phrases => triggers phrases text) tacticCategories = false.
Proof. exact lowSignal_alone. Qed.

Lemma triggered_spelled (text : jsstring) :
  existsb (fun b => b) (triggered text) =
  nonEmpty (firstn 40 (matchAll true urlRegex text))
  || (existsb (test true shortenerRegex) (firstn 40 (matchAll true urlRegex text))
  || (triggers moneyPhrases text || (triggers otpPhrases text
  || (triggers credPhrases text || (triggers urgencyPhrases text
  || (triggers fearPhrases text || (triggers authorityPhrases text
  || (triggers rewardPhrases text || (triggers attachmentPhrases text
  || (triggers viralPhrases text || (triggers getRichPhrases text || false))))))))))).
Proof. reflexivity. Qed.

(** A text that triggers no line of the score table scores 0 and shows only
    "Low Signal"; with no knowledge-base hit the handler returns 0 and
    "harmless" for it. *)
Theorem quiet_text_is_harmless :
  forall kb body,
    existsb (fun b => b) (triggered (text body)) = false ->
    retrieveKb kb (text body) (kind body) (emailMode body) = [] ->
    kindMismatchOf body = false ->
    Signals.heuristic_score (extractSignals (text body)) = 0 /\
    tactics (heuristicOnly kb body) = [lowSignal] /\
    risk_score (heuristicOnly kb body) = 0 /\
    verdict (heuristicOnly kb body) = harmless.
Proof.
  intros kb body Hq Hkb Hm.
  assert (Hs : Signals.heuristic_score (extractSignals (text body)) = 0).
  { rewrite heuristic_score_closed_form. rewrite triggered_spelled in Hq.
    cbv beta zeta iota delta [contributions total fold_right fst snd].
    repeat (apply orb_false_elim in Hq; destruct Hq as [? Hq]).
    repeat match goal with E : _ = false |- _ => rewrite E; clear E end.
    reflexivity. }
  split; [exact Hs|].
  unfold heuristicOnly. fold (kindMismatchOf body). rewrite Hkb, Hm.
  cbn [tactics risk_score verdict fallbackResult]. rewrite Hs.
  split; [|split; reflexivity].
  apply lowSignal_alone. rewrite tactic_triggers_spelled.
  rewrite triggered_spelled in Hq.
  repeat (apply orb_false_elim in Hq; destruct Hq as [? Hq]).
  repeat match goal with E : _ = false |- _ => rewrite E; clear E end.
  reflexivity.
Qed.

Lemma quiet_text_is_harmless_witness :
  Signals.heuristic_score (extractSignals (lit "see you at noon")) = 0 /\
  tactics (heuristicOnly sampleKb (mkBody KSocial (lit "see you at noon") None None))
    = [lowSignal] /\
  risk_score (heuristicOnly sampleKb (mkBody KSocial (lit "see you at noon") None None)) = 0 /\
  verdict (heuristicOnly sampleKb (mkBody KSocial (lit "see you at noon") None None))
    = harmless.
Proof.
  exact (quiet_text_is_harmless sampleKb (mkBody KSocial (lit "see you at noon") None None)
           ltac:(vm_compute; reflexivity) ltac:(vm_compute; reflexivity)
           ltac:(vm_compute; reflexivity)).
Defined.

(** ** Attack types *)

Lemma StronglySorted_firstn {A : Type} (R : A -> A -> Prop) (n : nat) (l : list A) :
  StronglySorted R l -> StronglySorted R (firstn n l).
Proof.
  intros H. revert n. induction H as [|x l Hl IH Hx]; intros [|n]; simpl; try constructor.
  - apply IH.
  - apply Forall_forall. intros y Hy. apply In_firstn_inv in Hy.
    exact (proj1 (Forall_forall _ _) Hx y Hy).
Qed.

Lemma sortBy_confidence_sorted (l : list AttackType) :
  StronglySorted (fun a b => at_confidence b <= at_confidence a)%Q
    (sortBy (fun a b => Qle_bool (at_confidence b) (at_confidence a)) l).
Proof.
  induction l as [|x l IH]; simpl; [constructor|].
  apply insertSorted_sorted
    with (R := fun a b => (at_confidence b <= at_confidence a)%Q); auto.
  - intros a b H. apply Qle_bool_iff. exact H.
  - intros a b H. apply Qlt_le_weak, Qnot_le_lt. intros Hle.
    apply Qle_bool_iff in Hle. congruence.
  - intros a b c Hab Hbc. eapply Qle_trans; eassumption.
Qed.

Lemma mapSet_values (m : TagMap) (k : jsstring) (v e : AttackType) :
  In e (mapValues (mapSet m k v)) -> In e (mapValues m) \/ e = v.
Proof.
  unfold mapValues. induction m as [|[k' v'] m IH]; simpl.
  - intros [<- | []]. right. reflexivity.
  - destruct (str_eqb k' k); simpl.
    + intros [<- | H]; [right; reflexivity | left; right; exact H].
    + intros [<- | H]; [left; left; reflexivity|].
      destruct (IH H) as [H' | ->]; [left; right; exact H' | right; reflexivity].
Qed.

Lemma keepsMax_values (m : TagMap) (t e : AttackType) :
  In e (mapValues (keepsMax m t)) -> In e (mapValues m) \/ e = t.
Proof.
  unfold keepsMax. destruct (mapGet m (tag t)); [destruct (negb _)|]; intros H.
  - exact (mapSet_values _ _ _ _ H).
  - left. exact H.
  - exact (mapSet_values _ _ _ _ H).
Qed.

Lemma fold_keepsMax_values (l : list AttackType) (m : TagMap) (e : AttackType) :
  In e (mapValues (fold_left keepsMax l m)) -> In e (mapValues m) \/ In e l.
Proof.
  revert m. induction l as [|t l IH]; intros m H; simpl in *; [left; exact H|].
  destruct (IH _ H) as [H' | H']; [|right; right; exact H'].
  destruct (keepsMax_values _ _ _ H') as [H'' | ->]; [left; exact H'' | right; left; reflexivity].
Qed.

(** What the result of the classifier is made of: the rules that fired. *)
Lemma buildAttackTypesHeuristic_from_rules kind text urls e :
  In e (buildAttackTypesHeuristic kind text urls) ->
  (65 <= at_confidence e)%Q /\ (at_confidence e <= 95)%Q /\
  (if Kind_eqb kind KSocial then In (tag e) socialTags else In (tag e) messageTags).
Proof.
  unfold buildAttackTypesHeuristic. cbv zeta. intros H.
  apply In_firstn_inv in H.
  apply (Permutation_in _ (sortBy_Permutation _ _)) in H.
  apply fold_keepsMax_values in H. destruct H as [[] | H].
  destruct kind; cbn [Kind_eqb orb] in H |- *;
    repeat (apply In_pushIf in H; destruct H as [H | [Hc ->]]);
    try (destruct H);
    cbn [at_confidence tag];
    try (split; [unfold Qle, zq; simpl; lia|];
         split; [unfold Qle, zq; simpl; lia|];
         simpl; tauto).
  all: destruct (test true hasOtpRegex text), (test true hasCredRegex text),
         (nonEmpty urls); try discriminate Hc;
       (split; [unfold Qle, zq; simpl; lia|]);
       (split; [unfold Qle, zq; simpl; lia|]); simpl; tauto.
Qed.

(** The attack types of the classifier are ranked: the list is in order of
    decreasing confidence, holds at most six entries, and every confidence
    lies between 65 and 95. *)
Theorem attack_types_are_ranked :
  forall kind text urls,
    StronglySorted (fun a b => at_confidence b <= at_confidence a)%Q
      (buildAttackTypesHeuristic kind text urls) /\
    (length (buildAttackTypesHeuristic kind text urls) <= 6)%nat /\
    Forall (fun e => 65 <= at_confidence e /\ at_confidence e <= 95)%Q
      (buildAttackTypesHeuristic kind text urls).
Proof.
  intros kind text urls. split; [|split].
  - unfold buildAttackTypesHeuristic. cbv zeta.
    apply StronglySorted_firstn, sortBy_confidence_sorted.
  - unfold buildAttackTypesHeuristic. cbv zeta. apply length_firstn_le.
  - apply Forall_forall. intros e He.
    destruct (buildAttackTypesHeuristic_from_rules _ _ _ _ He) as (H1 & H2 & _).
    split; assumption.
Qed.

(** The tags follow the kind of the message: a social post only gets the
    two social tags, an email or a text only the seven message tags (so a
    social post is never tagged "phishing", whatever it says). *)
Theorem attack_types_follow_kind :
  forall kind text urls,
    Forall (fun e => if Kind_eqb kind KSocial then In (tag e) socialTags
                     else In (tag e) messageTags)
      (buildAttackTypesHeuristic kind text urls).
Proof.
  intros kind text urls. apply Forall_forall. intros e He.
  exact (proj2 (proj2 (buildAttackTypesHeuristic_from_rules _ _ _ _ He))).
Qed.

Lemma str_eqb_refl (a : jsstring) : str_eqb a a = true.
Proof. apply str_eqb_eq. reflexivity. Qed.

Lemma str_eqb_neq (a b : jsstring) : a <> b -> str_eqb a b = false.
Proof.
  intros H. destruct (str_eqb a b) eqn:E; [|reflexivity].
  apply str_eqb_eq in E. contradiction.
Qed.

Lemma mapGet_mapSet_same (m : TagMap) (k : jsstring) (v : AttackType) :
  mapGet (mapSet m k v) k = Some v.
Proof.
  induction m as [|[k' v'] m IH]; simpl.
  - rewrite str_eqb_refl. reflexivity.
  - destruct (str_eqb k' k) eqn:E; simpl.
    + rewrite str_eqb_refl. reflexivity.
    + rewrite E. exact IH.
Qed.

Lemma mapGet_mapSet_other (m : TagMap) (k k' : jsstring) (v : AttackType) :
  k' <> k -> mapGet (mapSet m k v) k' = mapGet m k'.
Proof.
  intros Hne. induction m as [|[k0 v0] m IH]; simpl.
  - rewrite str_eqb_neq; [reflexivity | congruence].
  - destruct (str_eqb k0 k) eqn:E; simpl.
    + apply str_eqb_eq in E. subst k0.
      rewrite !str_eqb_neq by congruence. reflexivity.
    + destruct (str_eqb k0 k'); [reflexivity | exact IH].
Qed.

Lemma mapGet_In (m : TagMap) (k : jsstring) (v : AttackType) :
  tagMapOk m -> mapGet m k = Some v -> In v (mapValues m) /\ tag v = k.
Proof.
  intros [_ Hall]. unfold mapValues.
  induction Hall as [|[k' v'] m Hkv Hall IH]; simpl; [discriminate|].
  destruct (str_eqb k' k) eqn:E.
  - intros [= ->]. apply str_eqb_eq in E. simpl in Hkv. split; [left; reflexivity | congruence].
  - intros H. destruct (IH H) as [H1 H2]. split; [right; exact H1 | exact H2].
Qed.

Lemma jsstring_eq_dec (a b : jsstring) : {a = b} + {a <> b}.
Proof. apply list_eq_dec, Z.eq_dec. Qed.

(** The loop over the tags keeps, for an entry that it has passed, an entry
    of the same tag that is at least as confident. *)
Lemma keepsMax_best (m : TagMap) (t u : AttackType) :
  (u = t \/ exists e, mapGet m (tag u) = Some e /\ (at_confidence u <= at_confidence e)%Q) ->
  exists e, mapGet (keepsMax m t) (tag u) = Some e /\ (at_confidence u <= at_confidence e)%Q.
Proof.
  intros H. unfold keepsMax.
  destruct (mapGet m (tag t)) as [prev|] eqn:Ep.
  - destruct (Qle_bool (at_confidence t) (at_confidence prev)) eqn:Eq; simpl.
    + destruct H as [-> | H]; [|exact H].
      exists prev. split; [exact Ep | apply Qle_bool_iff; exact Eq].
    + destruct H as [-> | (e & He & Hle)].
      * exists t. split; [apply mapGet_mapSet_same | apply Qle_refl].
      * destruct (jsstring_eq_dec (tag u) (tag t)) as [Et | Et].
        -- rewrite Et in *. exists t. split; [apply mapGet_mapSet_same|].
           assert (e = prev) by congruence. subst e.
           eapply Qle_trans; [exact Hle|].
           apply Qlt_le_weak, Qnot_le_lt. intros Hc.
           apply Qle_bool_iff in Hc. congruence.
        -- exists e. rewrite mapGet_mapSet_other by exact Et. split; assumption.
  - destruct H as [-> | (e & He & Hle)].
    + exists t. split; [apply mapGet_mapSet_same | apply Qle_refl].
    + destruct (jsstring_eq_dec (tag u) (tag t)) as [Et | Et].
      * rewrite Et in He. congruence.
      * exists e. rewrite mapGet_mapSet_other by exact Et. split; assumption.
Qed.

Lemma fold_keepsMax_best (l : list AttackType) (m : TagMap) (u : AttackType) :
  (In u l \/ exists e, mapGet m (tag u) = Some e /\ (at_confidence u <= at_confidence e)%Q) ->
  exists e, mapGet (fold_left keepsMax l m) (tag u) = Some e /\
            (at_confidence u <= at_confidence e)%Q.
Proof.
  revert m. induction l as [|t l IH]; intros m H; simpl.
  - destruct H as [[] | H]. exact H.
  - apply IH. destruct H as [[-> | H] | H].
    + right. apply keepsMax_best. left. reflexivity.
    + left. exact H.
    + right. apply keepsMax_best. right. exact H.
Qed.

(** The map over the tags (the loop that keeps an entry when its tag is new
    or when it is more confident than the entry held) loses no tag and
    keeps the best: for every entry of the list, the values of the map hold
    an entry of the same tag whose confidence is at least as high, and
    every value of the map is an entry of the list. *)
Theorem best_entry_of_each_tag_is_kept :
  forall (tags : list AttackType) (t : AttackType),
    In t tags ->
    represented (fold_left keepsMax tags []) t /\
    incl (mapValues (fold_left keepsMax tags [])) tags.
Proof.
  intros tags t Hin. split.
  - destruct (fold_keepsMax_best tags [] t (or_introl Hin)) as (e & He & Hle).
    assert (Hok : tagMapOk (fold_left keepsMax tags [])).
    { apply fold_keepsMax_ok. split; constructor. }
    destruct (mapGet_In _ _ _ Hok He) as [H1 H2].
    exists e. repeat split; assumption.
  - intros e He. apply fold_keepsMax_values in He. destruct He as [[] | He]. exact He.
Qed.

Lemma best_entry_of_each_tag_is_kept_witness :
  In weakEntry [weakEntry; strongEntry] /\
  represented (fold_left keepsMax [weakEntry; strongEntry] []) weakEntry /\
  mapValues (fold_left keepsMax [weakEntry; strongEntry] []) = [strongEntry].
Proof.
  split; [left; reflexivity|]. split.
  - exact (proj1 (best_entry_of_each_tag_is_kept [weakEntry; strongEntry] weakEntry
                    (or_introl eq_refl))).
  - reflexivity.
Defined.

(** ** Span locator: what is found *)

Lemma occurrences_head (n : nat) lower needle p :
  includes lower needle = true ->
  exists rest,
    occurrences (S n) lower needle p 0 =
    mkSpan (indexOf lower needle 0) (indexOf lower needle 0 + len needle)
           (ph_label p) (ph_reason p) :: rest.
Proof.
  unfold includes. intros H. simpl.
  destruct (Z.eq_dec (indexOf lower needle 0) (-1)) as [E | E].
  - rewrite E in H. discriminate.
  - eexists. reflexivity.
Qed.

Lemma occurrences_none (n : nat) lower needle p :
  includes lower needle = false -> occurrences n lower needle p 0 = [].
Proof.
  unfold includes. intros H. destruct n; [reflexivity|]. simpl.
  destruct (Z.eq_dec (indexOf lower needle 0) (-1)) as [E | E]; [reflexivity|].
  apply negb_false_iff, Z.eqb_eq in H. contradiction.
Qed.

Lemma flat_map_nil {A B : Type} (f : A -> list B) (l : list A) :
  flat_map f l = [] <-> Forall (fun x => f x = []) l.
Proof.
  induction l as [|x l IH]; simpl; split; intros H; try constructor; try reflexivity.
  - apply app_eq_nil in H. tauto.
  - apply IH. apply app_eq_nil in H. tauto.
  - inversion H as [|? ? Hx Hl]; subst. rewrite Hx. simpl. apply IH. exact Hl.
Qed.

(** The span locator misses no phrase while there is room: for a cap that
    is not zero, a phrase of the dictionary that occurs in the lowercased
    text has a span at its first occurrence, with its label and reason,
    unless the list has reached the cap; and the list is empty exactly when
    no phrase of the dictionary occurs. *)
Theorem occurring_phrase_is_marked :
  forall (cap : nat) (text : jsstring) (phrases : list Phrase),
    (0 < cap)%nat ->
    (forall p, In p phrases -> phraseOccurs text p = true ->
       length (findSpansCap cap text phrases) = cap \/
       In (mkSpan (indexOf (toLowerCase text) (toLowerCase (phrase p)) 0)
                  (indexOf (toLowerCase text) (toLowerCase (phrase p)) 0
                   + len (toLowerCase (phrase p)))
                  (ph_label p) (ph_reason p))
          (findSpansCap cap text phrases)) /\
    (findSpansCap cap text phrases = [] <->
     existsb (phraseOccurs text) phrases = false).
Proof.
  intros cap text phrases Hcap. rewrite findSpansCap_unmerged by exact Hcap.
  set (F := flat_map _ phrases). split.
  - intros p Hin Hocc.
    destruct (Nat.lt_ge_cases (length F) cap) as [Hlt | Hge].
    + right. rewrite firstn_all2 by lia. unfold F. apply in_flat_map.
      exists p. split; [exact Hin|].
      destruct cap as [|n]; [lia|].
      destruct (occurrences_head n (toLowerCase text) (toLowerCase (phrase p)) p Hocc)
        as (rest & ->).
      left. reflexivity.
    + left. rewrite length_firstn. lia.
  - split.
    + intros H.
      assert (HF : F = []).
      { destruct F as [|x F']; [reflexivity|]. destruct cap; [lia | discriminate]. }
      unfold F in HF. apply flat_map_nil in HF.
      destruct (existsb (phraseOccurs text) phrases) eqn:E; [|reflexivity].
      apply existsb_exists in E. destruct E as (p & Hin & Hocc).
      pose proof (proj1 (Forall_forall _ _) HF p Hin) as Hp. simpl in Hp.
      destruct cap as [|n]; [lia|].
      destruct (occurrences_head n (toLowerCase text) (toLowerCase (phrase p)) p Hocc)
        as (rest & Hr).
      rewrite Hr in Hp. discriminate.
    + intros H.
      assert (HF : F = []).
      { unfold F. apply flat_map_nil. apply Forall_forall. intros p Hin.
        apply occurrences_none.
        destruct (phraseOccurs text p) eqn:E; [|exact E].
        assert (T : existsb (phraseOccurs text) phrases = true)
          by (apply existsb_exists; exists p; split; assumption).
        congruence. }
      rewrite HF. apply firstn_nil.
Qed.

Lemma occurring_phrase_is_marked_witness :
  (0 < 40)%nat /\
  findSpansCap 40 (lit "URGENT: call the bank") spanPhrases <> [] /\
  existsb (phraseOccurs (lit "hello")) spanPhrases = false.
Proof.
  split; [lia|]. split.
  - intros H.
    apply (proj2 (occurring_phrase_is_marked 40 (lit "URGENT: call the bank") spanPhrases
                    (Nat.lt_0_succ 39))) in H.
    vm_compute in H. discriminate.
  - reflexivity.
Defined.

(** ** The union of the extracted lists *)

Lemma setFrom_In (l seen : list jsstring) (x : jsstring) :
  In x (setFrom l seen) <-> In x l /\ ~ In x seen.
Proof.
  split.
  - intros H. split; [|exact (setFrom_not_seen _ _ _ H)].
    revert seen H. induction l as [|y l IH]; intros seen H; simpl in H; [contradiction|].
    destruct (existsb (str_eqb y) seen).
    + right. exact (IH _ H).
    + destruct H as [<- | H]; [left; reflexivity | right; exact (IH _ H)].
  - revert seen. induction l as [|y l IH]; intros seen [Hin Hns]; simpl in *; [contradiction|].
    destruct (existsb (str_eqb y) seen) eqn:E.
    + destruct Hin as [-> | Hin]; [|apply IH; split; assumption].
      apply existsb_exists in E. destruct E as (z & Hz & Ez).
      apply str_eqb_eq in Ez. subst z. contradiction.
    + destruct (jsstring_eq_dec y x) as [-> | Hne]; [left; reflexivity|].
      right. apply IH. split; [destruct Hin; [contradiction | assumption]|].
      intros [-> | H]; contradiction.
Qed.

Lemma In_firstn_or_full {A : Type} (n : nat) (l : list A) (x : A) :
  In x l -> In x (firstn n l) \/ length (firstn n l) = n.
Proof.
  intros H. destruct (Nat.lt_ge_cases (length l) n) as [Hlt | Hge].
  - left. rewrite firstn_all2 by lia. exact H.
  - right. rewrite length_firstn. lia.
Qed.

(** The union of what the model extracted and what the expressions found
    (a Set cut at 40 entries, at 30 in the first variant of the route) adds
    nothing and, while it is not full, loses nothing: an entry of the
    union comes from one of the two lists, and an entry of either list is in
    the union unless the union has reached its cap. *)
Theorem union_keeps_both_lists :
  forall (a b : list jsstring) (x : jsstring),
    (In x (union40 a b) -> In x a \/ In x b) /\
    (In x a \/ In x b -> In x (union40 a b) \/ length (union40 a b) = 40%nat) /\
    (In x (RouteV1.union30 a b) -> In x a \/ In x b) /\
    (In x a \/ In x b ->
     In x (RouteV1.union30 a b) \/ length (RouteV1.union30 a b) = 30%nat).
Proof.
  intros a b x. unfold union40, RouteV1.union30.
  assert (Hin : In x (setFrom (a ++ b) []) <-> In x a \/ In x b).
  { rewrite setFrom_In, in_app_iff. simpl. tauto. }
  repeat split; intros H.
  - apply Hin. exact (In_firstn_inv _ _ _ H).
  - apply In_firstn_or_full. apply Hin. exact H.
  - apply Hin. exact (In_firstn_inv _ _ _ H).
  - apply In_firstn_or_full. apply Hin. exact H.
Qed.

(** ** Knowledge-base retrieval *)

Lemma sortBy_score_sorted (l : list (KbEntry * Z)) :
  StronglySorted (fun a b => snd b <= snd a) (sortBy (fun a b => snd b <=? snd a) l).
Proof.
  induction l as [|x l IH]; simpl; [constructor|].
  apply insertSorted_sorted with (R := fun a b : KbEntry * Z => snd b <= snd a); auto.
  - intros a b H. apply Z.leb_le. exact H.
  - intros a b H. apply Z.leb_gt in H. lia.
  - intros a b c. lia.
Qed.

Lemma StronglySorted_app_inv {A : Type} (R : A -> A -> Prop) (l1 l2 : list A) :
  StronglySorted R (l1 ++ l2) ->
  forall a b, In a l1 -> In b l2 -> R a b.
Proof.
  induction l1 as [|x l1 IH]; simpl; intros H a b Ha Hb; [contradiction|].
  inversion H as [|? ? Hs Hx]; subst.
  destruct Ha as [<- | Ha].
  - apply (proj1 (Forall_forall _ _) Hx). apply in_or_app. right. exact Hb.
  - exact (IH Hs a b Ha Hb).
Qed.

Lemma StronglySorted_map {A B : Type} (f : A -> B) (R : B -> B -> Prop) (l : list A) :
  StronglySorted (fun a b => R (f a) (f b)) l -> StronglySorted R (map f l).
Proof.
  induction 1 as [|x l Hl IH Hx]; simpl; constructor; [exact IH|].
  apply Forall_map. exact Hx.
Qed.

(** The retrieval returns the best entries of the table: at most [k] of
    them ([k] is 4 in the route), each with a positive score, in order of
    decreasing score; and an entry of the table with a positive score that
    is left out scores no more than any entry returned, the list then
    holding [k] entries. *)
Theorem retrieval_returns_the_best_entries :
  forall kb text kind emailMode (k : nat),
    (length (retrieveKbK kb text kind emailMode k) <= k)%nat /\
    Forall (fun e => In e kb /\ 0 < kbScore text kind emailMode e)
      (retrieveKbK kb text kind emailMode k) /\
    StronglySorted (fun a b => kbScore text kind emailMode b <= kbScore text kind emailMode a)
      (retrieveKbK kb text kind emailMode k) /\
    (forall e, In e kb -> 0 < kbScore text kind emailMode e ->
       In e (retrieveKbK kb text kind emailMode k) \/
       (length (retrieveKbK kb text kind emailMode k) = k /\
        Forall (fun h => kbScore text kind emailMode e <= kbScore text kind emailMode h)
          (retrieveKbK kb text kind emailMode k))).
Proof.
  intros kb text kind emailMode k.
  set (score := kbScore text kind emailMode).
  unfold retrieveKbK. cbv zeta. fold score.
  set (scored := map (fun e => (e, score e)) kb).
  set (L := sortBy (fun a b : KbEntry * Z => snd b <=? snd a)
              (filter (fun x => 0 <? snd x) scored)).
  assert (HL : forall x, In x L <-> In (fst x) kb /\ snd x = score (fst x) /\ 0 < snd x).
  { intros x. unfold L. split.
    - intros H. apply (Permutation_in _ (sortBy_Permutation _ _)) in H.
      apply filter_In in H. destruct H as [H Hp].
      apply in_map_iff in H. destruct H as (e & <- & He). simpl in *.
      repeat split; [exact He | apply Z.ltb_lt; exact Hp].
    - intros (H1 & H2 & H3).
      apply (Permutation_in _ (Permutation_sym (sortBy_Permutation _ _))).
      apply filter_In. split; [|apply Z.ltb_lt; exact H3].
      apply in_map_iff. exists (fst x). split; [|exact H1].
      destruct x as [e s]. simpl in *. congruence. }
  assert (Hs : StronglySorted (fun a b : KbEntry * Z => snd b <= snd a) L)
    by apply sortBy_score_sorted.
  split; [rewrite length_map; apply length_firstn_le|].
  split; [|split].
  - apply Forall_forall. intros e He.
    apply in_map_iff in He. destruct He as (x & <- & Hx).
    apply In_firstn_inv in Hx. apply HL in Hx. destruct Hx as (H1 & H2 & H3).
    split; [exact H1 | rewrite <- H2; exact H3].
  - apply StronglySorted_map.
    assert (Hs' : StronglySorted (fun a b : KbEntry * Z => score (fst b) <= score (fst a)) L).
    { clear - Hs HL.
      assert (Hall : Forall (fun x => snd x = score (fst x)) L).
      { apply Forall_forall. intros x Hx. apply HL in Hx. tauto. }
      clear HL. induction Hs as [|x l Hl IH Hx]; [constructor|].
      inversion Hall as [|? ? Ex Hall']; subst.
      constructor; [apply IH; exact Hall'|].
      apply Forall_forall. intros y Hy.
      pose proof (proj1 (Forall_forall _ _) Hx y Hy) as Hxy.
      pose proof (proj1 (Forall_forall _ _) Hall' y Hy) as Ey.
      simpl in Hxy. rewrite <- Ex, <- Ey. exact Hxy. }
    apply StronglySorted_firstn. exact Hs'.
  - intros e He Hpos.
    assert (Hin : In (e, score e) L) by (apply HL; simpl; tauto).
    rewrite <- (firstn_skipn k L) in Hin, Hs.
    apply in_app_or in Hin. destruct Hin as [Hin | Hin].
    + left. apply in_map_iff. exists (e, score e). split; [reflexivity | exact Hin].
    + right. split.
      * rewrite length_map, length_firstn.
        destruct (Nat.lt_ge_cases (length L) k) as [Hlt | Hge]; [|lia].
        rewrite skipn_all2 in Hin by lia. contradiction.
      * apply Forall_forall. intros h Hh.
        apply in_map_iff in Hh. destruct Hh as (x & <- & Hx).
        pose proof (StronglySorted_app_inv _ _ _ Hs x (e, score e) Hx Hin) as Hle.
        simpl in Hle.
        assert (Ex : snd x = score (fst x)).
        { apply In_firstn_inv in Hx. apply HL in Hx. tauto. }
        rewrite <- Ex. exact Hle.
Qed.

(** ** The summary of a mismatched message *)

Lemma startsWith_app (needle a rest : jsstring) :
  startsWith needle a = true -> startsWith needle (a ++ rest) = true.
Proof.
  revert a. induction needle as [|n needle IH]; intros a H; [reflexivity|].
  destruct a as [|c a]; [discriminate|]. simpl in *.
  apply andb_true_iff in H. destruct H as [-> H]. simpl. apply IH. exact H.
Qed.

Lemma search_finds (needle pre s : jsstring) (pos : Z) :
  0 <= pos -> startsWith needle s = true -> search needle (pre ++ s) pos <> -1.
Proof.
  revert pos. induction pre as [|c pre IH]; intros pos Hpos H.
  - simpl. destruct s; simpl; rewrite H; lia.
  - simpl. destruct (startsWith needle (c :: pre ++ s)); [lia|]. apply IH; [lia | exact H].
Qed.

Lemma includes_app (a rest needle : jsstring) :
  includes a needle = true -> includes (a ++ rest) needle = true.
Proof.
  unfold includes, indexOf. cbv zeta. intros H.
  apply negb_true_iff, Z.eqb_neq in H. apply negb_true_iff, Z.eqb_neq.
  replace (Z.min (Z.max 0 0) (len a)) with 0 in H by (pose proof (len_nonneg a); lia).
  replace (Z.min (Z.max 0 0) (len (a ++ rest))) with 0
    by (pose proof (len_nonneg (a ++ rest)); lia).
  simpl in *.
  destruct (search_cases needle a 0 (Z.le_refl 0)) as [E | [_ Hs]]; [contradiction|].
  rewrite <- (firstn_skipn (Z.to_nat (search needle a 0 - 0)) a), <- app_assoc.
  apply search_finds; [lia|]. apply startsWith_app. exact Hs.
Qed.

Lemma toLowerCase_app (a b : jsstring) :
  toLowerCase (a ++ b) = toLowerCase a ++ toLowerCase b.
Proof. unfold toLowerCase. apply flat_map_app. Qed.

(** When the message was sent as an email but reads like a social post, the
    summary of every result says that it does not look like an email: the
    heuristic-only result carries the fixed mismatch summary, and the
    blended result puts the sentence in front of the model's summary unless
    that summary already says so. *)
Theorem mismatch_is_stated_in_summary :
  forall kb client json body r,
    BodySchema_parse json = Some body ->
    kindMismatchOf body = true ->
    POST kb client (Some json) = Json r ->
    saysNotAnEmail (summary r) = true.
Proof.
  intros kb client json body r Hb Hm Hr.
  destruct (POST_Json_cases _ _ _ _ Hr) as (json' & body' & [= <-] & Hb' & Hc).
  rewrite Hb in Hb'. injection Hb' as <-. cbv zeta in Hc.
  unfold kindMismatchOf in Hm.
  destruct Hc as [[_ ->] | (content & parsed & ai & _ & _ & _ & ->)].
  - unfold heuristicOnly, fallbackResult. cbv zeta. rewrite Hm. cbn [summary].
    vm_compute. reflexivity.
  - unfold blendedResult. cbv zeta. rewrite Hm. cbn [summary andb].
    unfold saysNotAnEmail.
    destruct (includes (toLowerCase (Ai.summary ai))
                (lit "doesn" ++ [8217] ++ lit "t look like an email")) eqn:E1;
      [cbn [negb andb]; rewrite E1; reflexivity|].
    destruct (includes (toLowerCase (Ai.summary ai)) (lit "doesn't look like an email")) eqn:E2;
      [cbn [negb andb]; rewrite E1, E2; reflexivity|].
    cbn [negb andb]. rewrite toLowerCase_app.
    rewrite includes_app; [reflexivity|]. vm_compute. reflexivity.
Qed.

Lemma mismatch_is_stated_in_summary_witness :
  exists r,
    POST sampleKb (Service (Resolved (Some sampleAnswer)))
      (request "email" "link in bio, repost to double your money") = Json r /\
    saysNotAnEmail (summary r) = true.
Proof.
  eexists. split; [vm_compute; reflexivity|].
  apply (mismatch_is_stated_in_summary sampleKb (Service (Resolved (Some sampleAnswer)))
           (JObj [(lit "kind", JStr (lit "email"));
                  (lit "text", JStr (lit "link in bio, repost to double your money"))])
           (mkBody KEmail (lit "link in bio, repost to double your money") None None)).
  - vm_compute. reflexivity.
  - vm_compute. reflexivity.
  - vm_compute. reflexivity.
Defined.

(** ** What the knowledge base does to the score *)

Lemma kbMinRisk_ge (entries : list KbEntry) (e : KbEntry) (m : Z) :
  In e entries -> min_risk e = Some m -> m <= kbMinRisk entries.
Proof.
  unfold kbMinRisk.
  assert (G : forall l acc,
             acc <= fold_left (fun m e => Z.max m (match min_risk e with
                                                   | Some r => r | None => 0 end)) l acc).
  { induction l as [|x l IH]; intros acc; cbn [fold_left]; [lia|].
    etransitivity; [|apply IH]. lia. }
  assert (K : forall l acc, In e l -> min_risk e = Some m ->
             m <= fold_left (fun m e => Z.max m (match min_risk e with
                                                 | Some r => r | None => 0 end)) l acc).
  { induction l as [|x l IH]; intros acc Hin Hm; [contradiction|].
    cbn [fold_left]. destruct Hin as [-> | Hin].
    - rewrite Hm. etransitivity; [|apply G]. lia.
    - apply IH; assumption. }
  apply K.
Qed.

Lemma raised_ge_base (c1 c2 : bool) (f1 f2 x : Z) :
  x <= raiseIf c1 f1 (raiseIf c2 f2 x).
Proof. unfold raiseIf. destruct c1, c2; lia. Qed.

Lemma raised_ge_floor (kbHits : list KbEntry) (c : bool) (x : Z) (e : KbEntry) (m : Z) :
  In e kbHits -> min_risk e = Some m -> 0 <= x ->
  m <= raiseIf c 70 (raiseIf (negb (kbMinRisk kbHits =? 0)) (kbMinRisk kbHits) x).
Proof.
  intros Hin Hm Hx. pose proof (kbMinRisk_ge _ _ _ Hin Hm) as Hge.
  unfold raiseIf. destruct (kbMinRisk kbHits =? 0) eqn:E; simpl.
  - apply Z.eqb_eq in E. destruct c; lia.
  - destruct c; lia.
Qed.

(** The knowledge base only raises the score.  For a table whose boosts are
    not negative and whose minimum risks do not exceed 100: the risk score
    of every result is at least the minimum risk of every entry retrieved;
    without a client it is at least the heuristic score; and it is the
    heuristic score itself when nothing is retrieved and the kind is not
    mismatched. *)
Theorem knowledge_base_only_raises_score :
  forall kb client json body r,
    kbInRange kb ->
    BodySchema_parse json = Some body ->
    POST kb client (Some json) = Json r ->
    (forall e m, In e (retrieveKb kb (text body) (kind body) (emailMode body)) ->
                 min_risk e = Some m -> m <= risk_score r) /\
    (client = NoClient ->
     Signals.heuristic_score (extractSignals (text body)) <= risk_score r) /\
    (client = NoClient -> kindMismatchOf body = false ->
     retrieveKb kb (text body) (kind body) (emailMode body) = [] ->
     risk_score r = Signals.heuristic_score (extractSignals (text body))).
Proof.
  intros kb client json body r Hkb Hb Hr.
  destruct (POST_Json_cases _ _ _ _ Hr) as (json' & body' & [= <-] & Hb' & Hc).
  rewrite Hb in Hb'. injection Hb' as <-. cbv zeta in Hc.
  pose proof (retrieveKb_in_range kb (text body) (kind body) (emailMode body) Hkb) as Hhits.
  pose proof (heuristic_score_range (text body)) as Hh.
  pose proof (ragNudge_range _ (kbRiskBoost_nonneg _ Hhits)) as Hn.
  destruct Hc as [[Hcl ->] | (content & parsed & ai & Hcl & _ & Hai & ->)].
  - unfold heuristicOnly, fallbackResult. cbv zeta. cbn [risk_score].
    split; [|split].
    + intros e m Hin Hm. apply (raised_ge_floor _ _ _ e m Hin Hm). lia.
    + intros _. etransitivity; [|apply raised_ge_base]. lia.
    + intros _ Hm He. unfold kindMismatchOf in Hm. rewrite Hm, He.
      change (kbMinRisk []) with 0. change (kbRiskBoost []) with 0.
      change (ragNudge 0) with 0. unfold raiseIf. simpl. lia.
  - unfold blendedResult. cbv zeta. cbn [risk_score].
    destruct (AnalyzeSchema_parse_range _ _ Hai) as [Hq0 Hq1].
    pose proof (blend_range _ _ Hq0 Hq1 Hh) as Hbl.
    split; [|split].
    + intros e m Hin Hm. apply (raised_ge_floor _ _ _ e m Hin Hm). lia.
    + intros Hc. rewrite Hc in Hcl. discriminate.
    + intros Hc. rewrite Hc in Hcl. discriminate.
Qed.

Lemma knowledge_base_only_raises_score_witness :
  kbInRange sampleKb /\
  exists r,
    POST sampleKb NoClient (request "social" "link in bio, repost this") = Json r /\
    In (nth 0 sampleKb (mkKbEntry [] [] [] 0 None [] [] []))
       (retrieveKb sampleKb (lit "link in bio, repost this") KSocial None) /\
    Signals.heuristic_score (extractSignals (lit "link in bio, repost this")) < 70 /\
    70 <= risk_score r.
Proof.
  split; [exact sampleKb_in_range|].
  eexists. split; [vm_compute; reflexivity|].
  split; [vm_compute; left; reflexivity|].
  split; [vm_compute; reflexivity|].
  apply (proj1 (knowledge_base_only_raises_score sampleKb NoClient
           (JObj [(lit "kind", JStr (lit "social"));
                  (lit "text", JStr (lit "link in bio, repost this"))])
           (mkBody KSocial (lit "link in bio, repost this") None None) _
           sampleKb_in_range ltac:(vm_compute; reflexivity) ltac:(vm_compute; reflexivity))
          (nth 0 sampleKb (mkKbEntry [] [] [] 0 None [] [] [])) 70).
  - vm_compute. left. reflexivity.
  - reflexivity.
Defined.

(** ** The display of the spans *)

Lemma slice_length (text : jsstring) (a b : Z) :
  0 <= a <= b -> b <= len text -> len (slice text a b) = b - a.
Proof.
  unfold slice, len. intros Ha Hb. rewrite length_firstn, length_skipn. lia.
Qed.

Lemma slice_skipn (text : jsstring) (a b : Z) :
  0 <= a <= b -> slice text a b ++ skipn (Z.to_nat b) text = skipn (Z.to_nat a) text.
Proof.
  unfold slice. intros Ha.
  rewrite <- (firstn_skipn (Z.to_nat (b - a)) (skipn (Z.to_nat a) text)) at 2.
  f_equal. rewrite skipn_skipn. f_equal. lia.
Qed.

Lemma slice_to_end (text : jsstring) (a : Z) :
  0 <= a -> slice text a (len text) = skipn (Z.to_nat a) text.
Proof.
  unfold slice, len. intros Ha. apply firstn_all2. rewrite length_skipn. lia.
Qed.

Lemma partsStep_texts (text : jsstring) (l : list Span) (parts : list Part) (idx : Z) :
  map part_text
    (let r := fold_left (partsStep text) l (parts, idx) in
     pushIf (snd r <? len text) (mkPart (slice text (snd r) (len text)) None None) (fst r))
  = map part_text parts ++ cutTexts text l idx.
Proof.
  revert parts idx. induction l as [|s l IH]; intros parts idx; cbv zeta.
  - simpl. unfold pushIf. destruct (idx <? len text); [|rewrite app_nil_r; reflexivity].
    rewrite map_app. reflexivity.
  - cbn [fold_left cutTexts]. unfold partsStep at 2. cbn [fst snd]. cbv zeta in IH.
    rewrite IH. unfold pushIf. destruct (start s >? idx);
      rewrite ?map_app; cbn [map part_text]; rewrite <- ?app_assoc; reflexivity.
Qed.

(** Spans that follow one another cut the text without loss. *)
Lemma cutTexts_chained (text : jsstring) (spans : list Span) (idx : Z) :
  0 <= idx ->
  Forall (fun s => start s <= end_ s) spans ->
  chained idx spans ->
  concat (cutTexts text spans idx) = skipn (Z.to_nat idx) text.
Proof.
  revert idx. induction spans as [|s rest IH]; intros idx Hidx Hp Hc; cbn [cutTexts].
  - destruct (idx <? len text) eqn:E.
    + simpl. rewrite app_nil_r. apply slice_to_end. exact Hidx.
    + apply Z.ltb_ge in E. simpl. symmetry. apply skipn_all2. unfold len in E. lia.
  - destruct Hc as [Hs Hc]. inversion Hp as [|? ? Hse Hp']; subst.
    rewrite concat_app. cbn [concat]. rewrite IH by (assumption || lia).
    rewrite slice_skipn by lia.
    destruct (start s >? idx) eqn:E.
    + simpl. rewrite app_nil_r. apply slice_skipn. lia.
    + simpl. f_equal. rewrite Z.gtb_ltb in E. apply Z.ltb_ge in E. f_equal. lia.
Qed.

Lemma excess_nonneg (idx : Z) (spans : list Span) : 0 <= excess idx spans.
Proof.
  revert idx. induction spans as [|s rest IH]; intros idx; simpl; [lia|].
  specialize (IH (end_ s)). lia.
Qed.

Lemma excess_chained (idx : Z) (spans : list Span) :
  excess idx spans = 0 <-> chained idx spans.
Proof.
  revert idx. induction spans as [|s rest IH]; intros idx; simpl; [tauto|].
  pose proof (excess_nonneg (end_ s) rest). rewrite <- IH. lia.
Qed.

(** The length of what the cutting loop shows: the rest of the text and the
    units shown twice. *)
Lemma cutTexts_length (text : jsstring) (spans : list Span) (idx : Z) :
  0 <= idx <= len text ->
  Forall (fun s => 0 <= start s /\ start s <= end_ s /\ end_ s <= len text) spans ->
  len (concat (cutTexts text spans idx)) = len text - idx + excess idx spans.
Proof.
  revert idx. induction spans as [|s rest IH]; intros idx Hidx Hf; cbn [cutTexts excess].
  - destruct (idx <? len text) eqn:E.
    + simpl. rewrite app_nil_r. rewrite slice_length; lia.
    + apply Z.ltb_ge in E. unfold len at 1. simpl. lia.
  - inversion Hf as [|? ? (H0 & H1 & H2) Hf']; subst.
    rewrite concat_app. cbn [concat]. rewrite !len_app.
    rewrite IH by (assumption || lia).
    rewrite slice_length by lia.
    destruct (start s >? idx) eqn:E.
    + rewrite Z.gtb_ltb in E. apply Z.ltb_lt in E.
      simpl. rewrite app_nil_r. rewrite slice_length by lia. lia.
    + rewrite Z.gtb_ltb in E. apply Z.ltb_ge in E. unfold len at 1. simpl. lia.
Qed.

Lemma cutTexts_exact (text : jsstring) (spans : list Span) :
  Forall (fun s => 0 <= start s /\ start s <= end_ s /\ end_ s <= len text) spans ->
  concat (cutTexts text spans 0) = text <-> chained 0 spans.
Proof.
  intros Hf. split.
  - intros H. apply excess_chained.
    pose proof (cutTexts_length text spans 0) as L.
    rewrite H in L. pose proof (len_nonneg text).
    specialize (L ltac:(lia) Hf). lia.
  - intros H. rewrite cutTexts_chained; [reflexivity | lia | | exact H].
    eapply Forall_impl; [|exact Hf]. simpl. intros s Hs. lia.
Qed.

Lemma fitsText_spelled (text : jsstring) (s : Span) :
  fitsText text s = true <-> 0 <= start s /\ start s < end_ s /\ end_ s <= len text.
Proof.
  unfold fitsText. rewrite !andb_true_iff, Z.geb_le, Z.leb_le, Z.gtb_ltb, Z.ltb_lt. lia.
Qed.

Lemma mergeStep_within (lo hi : Z) (merged : list Span) (s : Span) :
  Forall (fun m => lo <= start m /\ end_ m <= hi) merged ->
  lo <= start s /\ end_ s <= hi ->
  Forall (fun m => lo <= start m /\ end_ m <= hi) (mergeStep merged s).
Proof.
  intros Hm Hs. unfold mergeStep. destruct merged as [|last before]; [repeat constructor; tauto|].
  inversion Hm as [|? ? Hl Hb]; subst.
  destruct (start s >=? end_ last); [constructor; assumption|].
  destruct (end_ s >? end_ last); [|exact Hm].
  constructor; [simpl; lia | exact Hb].
Qed.

Lemma fold_mergeStep_within (lo hi : Z) (sorted merged : list Span) :
  Forall (fun m => lo <= start m /\ end_ m <= hi) merged ->
  Forall (fun m => lo <= start m /\ end_ m <= hi) sorted ->
  Forall (fun m => lo <= start m /\ end_ m <= hi) (fold_left mergeStep sorted merged).
Proof.
  revert merged. induction sorted as [|s sorted IH]; intros merged Hm Hs; simpl; [exact Hm|].
  inversion Hs; subst. apply IH; [apply mergeStep_within|]; assumption.
Qed.

Lemma mergeStep_covers (merged : list Span) (s x : Span) :
  Forall (fun m => start m <= start s) merged ->
  (x = s \/ exists m, In m merged /\ covers m x) ->
  exists m, In m (mergeStep merged s) /\ covers m x.
Proof.
  intros Hb Hx. unfold mergeStep. destruct merged as [|last before].
  - destruct Hx as [-> | (m & [] & _)]. exists s. split; [left; reflexivity | unfold covers; lia].
  - inversion Hb as [|? ? Hl Hb']; subst.
    destruct (Z.geb_spec (start s) (end_ last)) as [H1 | H1].
    + destruct Hx as [-> | (m & Hm & Hc)].
      * exists s. split; [left; reflexivity | unfold covers; lia].
      * exists m. split; [right; exact Hm | exact Hc].
    + destruct (Z.gtb_spec (end_ s) (end_ last)) as [H2 | H2].
      * destruct Hx as [-> | (m & [<- | Hm] & Hc)].
        -- eexists. split; [left; reflexivity | unfold covers; simpl; lia].
        -- eexists. split; [left; reflexivity | unfold covers in *; simpl; lia].
        -- exists m. split; [right; exact Hm | exact Hc].
      * destruct Hx as [-> | Hx]; [|exact Hx].
        exists last. split; [left; reflexivity | unfold covers; lia].
Qed.

Lemma mergeStep_starts (merged : list Span) (s : Span) :
  Forall (fun m => start m <= start s) merged ->
  Forall (fun m => start m <= start s) (mergeStep merged s).
Proof.
  intros Hb. unfold mergeStep. destruct merged as [|last before]; [repeat constructor; lia|].
  inversion Hb as [|? ? Hl Hb']; subst.
  destruct (start s >=? end_ last); [constructor; [lia | exact Hb]|].
  destruct (end_ s >? end_ last); [|exact Hb].
  constructor; [simpl; lia | exact Hb'].
Qed.

Lemma fold_mergeStep_covers (sorted merged : list Span) (x : Span) :
  StronglySorted (fun a b => start a <= start b) sorted ->
  Forall (fun m => Forall (fun s => start m <= start s) sorted) merged ->
  (In x sorted \/ exists m, In m merged /\ covers m x) ->
  exists m, In m (fold_left mergeStep sorted merged) /\ covers m x.
Proof.
  revert merged. induction sorted as [|s sorted IH]; intros merged Hs Hb Hx; simpl.
  - destruct Hx as [[] | Hx]. exact Hx.
  - inversion Hs as [|? ? Hs' Hhead]; subst.
    assert (Hbs : Forall (fun m => start m <= start s) merged).
    { eapply Forall_impl; [|exact Hb]. simpl. intros m Hm. inversion Hm; assumption. }
    apply IH; [exact Hs'| |].
    + pose proof (mergeStep_starts merged s Hbs) as Hst.
      eapply Forall_impl; [|exact Hst]. simpl. intros m Hm.
      eapply Forall_impl; [|exact Hhead]. simpl. intros b Hsb. lia.
    + destruct Hx as [[<- | Hx] | Hx].
      * right. apply mergeStep_covers; [exact Hbs | left; reflexivity].
      * left. exact Hx.
      * right. apply mergeStep_covers; [exact Hbs | right; exact Hx].
Qed.

Lemma highlightMerged_within (text : jsstring) (spans : list Span) :
  Forall (fun m => 0 <= start m /\ end_ m <= len text) (highlightMerged text spans).
Proof.
  unfold highlightMerged. cbv zeta. apply Forall_rev.
  apply fold_mergeStep_within; [constructor|].
  apply (Forall_Permutation _ (filter (fitsText text) spans)).
  - symmetry. apply sortBy_Permutation.
  - apply Forall_forall. intros s Hs. apply filter_In in Hs. destruct Hs as [_ Hs].
    apply fitsText_spelled in Hs. lia.
Qed.

(** The merge of the page's highlighter loses no span that fits the text:
    every merged span lies within the text and is not empty, and every
    span of the response that fits the text is covered by a merged span. *)
Theorem merged_spans_cover_the_fitting_spans :
  forall (text : jsstring) (spans : list Span),
    Forall (fun m => 0 <= start m /\ start m < end_ m /\ end_ m <= len text)
      (highlightMerged text spans) /\
    Forall (fun s => fitsText text s = true ->
                     exists m, In m (highlightMerged text spans) /\ covers m s) spans.
Proof.
  intros text spans. split.
  - pose proof (highlightMerged_within text spans) as Hw.
    destruct (highlightMerged_no_overlap text spans) as [_ Hp].
    apply Forall_forall. intros m Hm.
    pose proof (proj1 (Forall_forall _ _) Hw m Hm).
    pose proof (proj1 (Forall_forall _ _) Hp m Hm). simpl in *. lia.
  - apply Forall_forall. intros s Hin Hfit.
    unfold highlightMerged. cbv zeta.
    destruct (fold_mergeStep_covers
                (sortBy (fun a b => start a <=? start b) (filter (fitsText text) spans))
                [] s (sortBy_start_sorted _) (Forall_nil _)) as (m & Hm & Hc).
    + left. apply (Permutation_in _ (Permutation_sym (sortBy_Permutation _ _))).
      apply filter_In. split; assumption.
    + exists m. split; [apply in_rev in Hm; exact Hm | exact Hc].
Qed.

Lemma sorted_chained (idx : Z) (l : list Span) :
  StronglySorted (fun a b => end_ a <= start b) l ->
  Forall (fun s => idx <= start s) l ->
  chained idx l.
Proof.
  intros Hs. revert idx. induction Hs as [|s l Hl IH Hh]; intros idx Hi; simpl; [exact I|].
  inversion Hi; subst. split; [assumption|]. apply IH. exact Hh.
Qed.

(** The page's highlighter never alters the text: put together, the parts
    that [highlightText] cuts (plain and marked) are the text it was given,
    whatever the spans of the response. *)
Theorem highlighted_parts_are_the_text :
  forall (text : jsstring) (spans : list Span),
    shownText (highlightText text spans) = text.
Proof.
  intros text spans. unfold shownText, highlightText.
  destruct (nonEmpty spans); cbn [negb]; [|simpl; apply app_nil_r].
  rewrite partsStep_texts. cbn [map app].
  destruct (highlightMerged_no_overlap text spans) as [Hs Hp].
  pose proof (highlightMerged_within text spans) as Hw.
  change text with (skipn (Z.to_nat 0) text) at 3.
  apply cutTexts_chained; [lia | |].
  - eapply Forall_impl; [|exact Hp]. simpl. intros s H. lia.
  - apply sorted_chained; [exact Hs|].
    eapply Forall_impl; [|exact Hw]. simpl. intros s H. lia.
Qed.

Lemma toInteger_nonneg (q : Q) : (0 <= q)%Q -> toInteger q = Qfloor q /\ 0 <= Qfloor q.
Proof.
  intros H. unfold toInteger.
  assert (E : Qle_bool 0 q = true) by (apply Qle_bool_iff; exact H).
  rewrite E. split; [reflexivity|].
  change 0 with (Qfloor 0). apply Qfloor_resp_le. exact H.
Qed.

Lemma Qfloor_le_len (q : Q) (n : Z) : (q <= zq n)%Q -> Qfloor q <= n.
Proof.
  intros H. rewrite <- (Qfloor_Z n). apply Qfloor_resp_le. exact H.
Qed.

Lemma sliceNum_in_range (text : jsstring) (a b : Q) :
  (0 <= a)%Q -> (a <= b)%Q -> (b <= zq (len text))%Q ->
  sliceNum text a b = slice text (Qfloor a) (Qfloor b) /\
  0 <= Qfloor a <= Qfloor b /\ Qfloor b <= len text.
Proof.
  intros Ha Hab Hb.
  assert (Hb0 : (0 <= b)%Q) by (eapply Qle_trans; eassumption).
  destruct (toInteger_nonneg a Ha) as [Ea Ha0].
  destruct (toInteger_nonneg b Hb0) as [Eb _].
  pose proof (Qfloor_resp_le _ _ Hab) as Hfl.
  pose proof (Qfloor_le_len _ _ Hb) as Hbl.
  split; [|lia].
  unfold sliceNum, slice, relativeIndex. cbv zeta. rewrite Ea, Eb.
  destruct (Z.ltb_spec (Qfloor a) 0); [lia|].
  destruct (Z.ltb_spec (Qfloor b) 0); [lia|].
  rewrite !Z.min_l by lia. reflexivity.
Qed.

Lemma slice_empty (text : jsstring) (a : Z) : slice text a a = [].
Proof. unfold slice. rewrite Z.sub_diag. reflexivity. Qed.

(** What the component shows is what the whole units of the spans cut. *)
Lemma piecesStep_texts (text : jsstring) (l : list RouteV1.NSpan) (pieces : list Piece)
    (cursor : Q) :
  (0 <= cursor)%Q -> (cursor <= zq (len text))%Q ->
  Forall (fun s => (0 <= RouteV1.start s)%Q /\ (RouteV1.start s < RouteV1.end_ s)%Q /\
                   (RouteV1.end_ s <= zq (len text))%Q) l ->
  concat (map piece_text
    (let r := fold_left (piecesStep text) l (pieces, cursor) in
     pushIf (negb (Qle_bool (zq (len text)) (snd r)))
            (mkPiece (sliceFrom text (snd r)) None) (fst r)))
  = concat (map piece_text pieces)
    ++ concat (cutTexts text (map wholeUnits l) (Qfloor cursor)).
Proof.
  revert pieces cursor. induction l as [|s l IH]; intros pieces cursor Hc0 Hc1 Hf; cbv zeta.
  - cbn [fold_left fst snd map cutTexts]. unfold pushIf.
    destruct (Qle_bool (zq (len text)) cursor) eqn:E; cbn [negb].
    + apply Qle_bool_iff in E.
      pose proof (Qfloor_resp_le _ _ E) as Hfl. unfold zq in Hfl. rewrite Qfloor_Z in Hfl.
      destruct (Z.ltb_spec (Qfloor cursor) (len text)); [lia|].
      simpl. rewrite app_nil_r. reflexivity.
    + assert (Hlt : (cursor < zq (len text))%Q).
      { apply Qnot_le_lt. intros Hle. apply Qle_bool_iff in Hle. congruence. }
      assert (Hfl : Qfloor cursor < len text).
      { rewrite Zlt_Qlt. eapply Qle_lt_trans; [apply Qfloor_le | exact Hlt]. }
      destruct (Z.ltb_spec (Qfloor cursor) (len text)); [|lia].
      rewrite map_app, concat_app. cbn [map piece_text concat]. f_equal. f_equal.
      unfold sliceFrom.
      destruct (sliceNum_in_range text cursor (zq (len text)) Hc0 Hc1 (Qle_refl _)) as [-> _].
      unfold zq. rewrite Qfloor_Z. reflexivity.
  - inversion Hf as [|? ? (Hs0 & Hse & He1) Hf']; subst.
    assert (Hse' : (RouteV1.start s <= RouteV1.end_ s)%Q) by (apply Qlt_le_weak; exact Hse).
    assert (He0 : (0 <= RouteV1.end_ s)%Q) by (eapply Qle_trans; eassumption).
    cbn [fold_left]. unfold piecesStep at 2. cbn [fst snd]. cbv zeta in IH.
    rewrite IH by assumption.
    assert (Ew : wholeUnits s
                 = mkSpan (Qfloor (RouteV1.start s)) (Qfloor (RouteV1.end_ s))
                          (RouteV1.label s) (RouteV1.reason s)).
    { unfold wholeUnits.
      rewrite (proj1 (toInteger_nonneg _ Hs0)), (proj1 (toInteger_nonneg _ He0)).
      reflexivity. }
    cbn [map]. rewrite Ew. cbn [cutTexts start end_].
    destruct (sliceNum_in_range text _ _ Hs0 Hse' He1) as [-> _].
    rewrite map_app, !concat_app. cbn [map piece_text concat].
    rewrite app_nil_r, <- !app_assoc. unfold pushIf.
    destruct (Qle_bool (RouteV1.start s) cursor) eqn:E; cbn [negb].
    + apply Qle_bool_iff in E. pose proof (Qfloor_resp_le _ _ E) as Hfl.
      destruct (Z.gtb_spec (Qfloor (RouteV1.start s)) (Qfloor cursor)); [lia|].
      cbn [concat app]. rewrite ?app_nil_r, <- ?app_assoc. reflexivity.
    + assert (Hlt : (cursor <= RouteV1.start s)%Q).
      { apply Qlt_le_weak, Qnot_le_lt. intros Hle. apply Qle_bool_iff in Hle. congruence. }
      pose proof (Qfloor_resp_le _ _ Hlt) as Hfl.
      assert (Hs1 : (RouteV1.start s <= zq (len text))%Q) by (eapply Qle_trans; eassumption).
      destruct (sliceNum_in_range text _ _ Hc0 Hlt Hs1) as [-> _].
      rewrite map_app, concat_app. cbn [map piece_text concat].
      rewrite app_nil_r, <- !app_assoc.
      destruct (Z.gtb_spec (Qfloor (RouteV1.start s)) (Qfloor cursor));
        [cbn [concat app]; rewrite ?app_nil_r, <- ?app_assoc; reflexivity|].
      replace (Qfloor (RouteV1.start s)) with (Qfloor cursor) by lia.
      rewrite slice_empty. cbn [concat app]. rewrite ?app_nil_r, <- ?app_assoc. reflexivity.
Qed.

Lemma safeSpans_fit (text : jsstring) (spans : list RouteV1.NSpan) :
  Forall (fun s => (0 <= RouteV1.start s)%Q /\ (RouteV1.start s < RouteV1.end_ s)%Q /\
                   (RouteV1.end_ s <= zq (len text))%Q) (safeSpans text spans).
Proof.
  apply Forall_forall. intros s Hs. unfold safeSpans in Hs.
  apply In_firstn_inv in Hs.
  apply (Permutation_in _ (sortBy_Permutation _ _)) in Hs.
  apply filter_In in Hs. destruct Hs as [_ Hs].
  apply andb_true_iff in Hs. destruct Hs as [Hs H3].
  apply andb_true_iff in Hs. destruct Hs as [H1 H2].
  apply Qle_bool_iff in H1. apply Qle_bool_iff in H3. apply negb_true_iff in H2.
  repeat split; [exact H1 | | exact H3].
  apply Qnot_le_lt. intros Hle. apply Qle_bool_iff in Hle. congruence.
Qed.

Lemma wholeUnits_fit (text : jsstring) (l : list RouteV1.NSpan) :
  Forall (fun s => (0 <= RouteV1.start s)%Q /\ (RouteV1.start s < RouteV1.end_ s)%Q /\
                   (RouteV1.end_ s <= zq (len text))%Q) l ->
  Forall (fun s => 0 <= start s /\ start s <= end_ s /\ end_ s <= len text)
    (map wholeUnits l).
Proof.
  intros H. apply Forall_map. eapply Forall_impl; [|exact H].
  intros s (H0 & Hse & H1). unfold wholeUnits. cbn [start end_].
  assert (Hse' : (RouteV1.start s <= RouteV1.end_ s)%Q) by (apply Qlt_le_weak; exact Hse).
  assert (He0 : (0 <= RouteV1.end_ s)%Q) by (eapply Qle_trans; eassumption).
  destruct (toInteger_nonneg _ H0) as [-> ?].
  destruct (toInteger_nonneg _ He0) as [-> ?].
  pose proof (Qfloor_resp_le _ _ Hse'). pose proof (Qfloor_le_len _ _ H1). lia.
Qed.

(** The analyzer component does not merge.  Its spans carry numbers, which
    [slice] truncates to whole units.  What it shows is as long as the text
    plus the whole units of the overlaps, and it is the text itself exactly
    when no span that it keeps (those that fit, the first 40 by start)
    begins, in whole units, before the end of the span before it: spans
    that overlap by a unit or more make it show a stretch of the text
    twice. *)
Theorem analyzer_repeats_overlapping_spans :
  forall (text : jsstring) (spans : list RouteV1.NSpan),
    len (shownPieces (HighlightedText text spans))
      = len text + excess 0 (map wholeUnits (safeSpans text spans)) /\
    (shownPieces (HighlightedText text spans) = text <->
     chained 0 (map wholeUnits (safeSpans text spans))).
Proof.
  intros text spans. unfold shownPieces, HighlightedText.
  pose proof (safeSpans_fit text spans) as Hf.
  destruct (safeSpans text spans) as [|s l] eqn:E; cbn [nonEmpty negb].
  - simpl. rewrite app_nil_r. split; [lia | tauto].
  - pose proof (len_nonneg text) as Hl.
    rewrite piecesStep_texts;
      [| apply Qle_refl
       | unfold zq; change 0%Q with (inject_Z 0); rewrite <- Zle_Qle; exact Hl
       | exact Hf].
    cbn [map concat app]. change (Qfloor 0) with 0.
    pose proof (wholeUnits_fit text (s :: l) Hf) as Hw. split.
    + rewrite cutTexts_length; [lia | lia | exact Hw].
    + apply cutTexts_exact. exact Hw.
Qed.

(** ** How far the model can move the score *)

Lemma blend_anchored (q : Q) (h : Z) :
  (0 <= q)%Q -> 45 * h - 50 < 100 * Math_round ((55 # 100) * q + (45 # 100) * zq h).
Proof.
  intros Hq. unfold Math_round.
  set (x := ((55 # 100) * q + (45 # 100) * zq h + (1 # 2))%Q).
  pose proof (Qlt_floor x) as Hlt.
  rewrite Zlt_Qlt. replace (45 * h - 50) with (45 * h + (-50)) by lia.
  rewrite inject_Z_mult, inject_Z_plus, inject_Z_mult.
  rewrite inject_Z_plus in Hlt. change (inject_Z (-50)) with (-50 # 1).
  change (inject_Z 45) with (45 # 1).
  change (inject_Z 100) with (100 # 1). change (inject_Z 1) with (1 # 1) in Hlt.
  unfold x in Hlt |- *. unfold zq in *. lra.
Qed.

(** The model cannot talk the heuristics down.  For a table in range, the
    risk score of every result is more than 0.45 times the heuristic score
    minus one half, whatever the model answered; so a message whose
    heuristic score is 77 or more is never given the verdict
    "harmless". *)
Theorem model_cannot_silence_the_heuristics :
  forall kb client json body r,
    kbInRange kb ->
    BodySchema_parse json = Some body ->
    POST kb client (Some json) = Json r ->
    45 * Signals.heuristic_score (extractSignals (text body)) - 50 < 100 * risk_score r /\
    (77 <= Signals.heuristic_score (extractSignals (text body)) -> verdict r <> harmless).
Proof.
  intros kb client json body r Hkb Hb Hr.
  pose proof (POST_verdict _ _ _ _ Hr) as Hv.
  destruct (POST_Json_cases _ _ _ _ Hr) as (json' & body' & [= <-] & Hb' & Hc).
  rewrite Hb in Hb'. injection Hb' as <-. cbv zeta in Hc.
  pose proof (retrieveKb_in_range kb (text body) (kind body) (emailMode body) Hkb) as Hhits.
  pose proof (heuristic_score_range (text body)) as Hh.
  pose proof (ragNudge_range _ (kbRiskBoost_nonneg _ Hhits)) as Hn.
  assert (Hrisk : 45 * Signals.heuristic_score (extractSignals (text body)) - 50
                  < 100 * risk_score r).
  { destruct Hc as [[_ ->] | (content & parsed & ai & _ & _ & Hai & ->)].
    - unfold heuristicOnly, fallbackResult. cbv zeta. cbn [risk_score].
      match goal with |- _ < 100 * raiseIf ?c1 ?f1 (raiseIf ?c2 ?f2 ?x) =>
        pose proof (raised_ge_base c1 c2 f1 f2 x) end. lia.
    - unfold blendedResult. cbv zeta. cbn [risk_score].
      destruct (AnalyzeSchema_parse_range _ _ Hai) as [Hq0 Hq1].
      pose proof (blend_range _ _ Hq0 Hq1 Hh) as Hbl.
      pose proof (blend_anchored (Ai.risk_score ai)
                    (Signals.heuristic_score (extractSignals (text body))) Hq0) as Han.
      match goal with |- _ < 100 * raiseIf ?c1 ?f1 (raiseIf ?c2 ?f2 ?x) =>
        pose proof (raised_ge_base c1 c2 f1 f2 x) end. lia. }
  split; [exact Hrisk|].
  intros H77 Hharm. rewrite Hharm in Hv.
  unfold verdictFromScore in Hv.
  destruct (risk_score r >=? 70) eqn:E1; [discriminate|].
  destruct (risk_score r >=? 35) eqn:E2; [discriminate|].
  rewrite Z.geb_leb in E2. apply Z.leb_gt in E2. lia.
Qed.

Lemma model_cannot_silence_the_heuristics_witness :
  kbInRange sampleKb /\
  77 <= Signals.heuristic_score (extractSignals (lit loudText)) /\
  exists r,
    POST sampleKb (Service (Resolved (Some calmAnswer))) (request "text" loudText) = Json r /\
    verdict r <> harmless.
Proof.
  split; [exact sampleKb_in_range|].
  split; [vm_compute; discriminate|].
  eexists. split; [vm_compute; reflexivity|].
  apply (proj2 (model_cannot_silence_the_heuristics sampleKb
                  (Service (Resolved (Some calmAnswer)))
                  (JObj [(lit "kind", JStr (lit "text")); (lit "text", JStr (lit loudText))])
                  (mkBody KText (lit loudText) None None) _
                  sampleKb_in_range ltac:(vm_compute; reflexivity)
                  ltac:(vm_compute; reflexivity))).
  vm_compute. discriminate.
Defined.

(** ** What is extracted stands in the text *)

Lemma startsWith_firstn_self (n : nat) (s : jsstring) : startsWith (firstn n s) s = true.
Proof.
  revert s. induction n as [|n IH]; intros [|c s]; simpl; try reflexivity.
  rewrite Z.eqb_refl. apply IH.
Qed.

Lemma part_is_included (s : jsstring) (b n : nat) :
  includes s (firstn n (skipn b s)) = true.
Proof.
  unfold includes, indexOf. cbv zeta. apply negb_true_iff, Z.eqb_neq.
  replace (Z.min (Z.max 0 0) (len s)) with 0 by (pose proof (len_nonneg s); lia).
  simpl. rewrite <- (firstn_skipn b s) at 2.
  apply search_finds; [lia | apply startsWith_firstn_self].
Qed.

Lemma matchAllFrom_included (fuel : nat) (ic : bool) (r : regex) (s : jsstring) (i : nat) :
  Forall (fun m => includes s m = true) (matchAllFrom fuel ic r s i).
Proof.
  revert i. induction fuel as [|fuel IH]; intros i; simpl; [constructor|].
  destruct (if (length s <? i)%nat then None else execFrom (length s) ic r s i)
    as [[b e]|]; [|constructor].
  constructor; [apply part_is_included | apply IH].
Qed.

(** The heuristic extraction quotes the message: every URL, email address
    and phone number that [extractSignals] returns (in either variant of
    the route) stands in the text as it is, and so does everything in the
    [extracted] lists of the result that is served without a client. *)
Theorem extracted_strings_stand_in_the_text :
  forall (kb : list KbEntry) (body : Body),
    quotedFrom (text body) (Signals.urls (extractSignals (text body))) /\
    quotedFrom (text body) (Signals.emails (extractSignals (text body))) /\
    quotedFrom (text body) (Signals.phone_numbers (extractSignals (text body))) /\
    quotedFrom (text body) (Signals.urls (RouteV1.extractSignals (text body))) /\
    quotedFrom (text body) (Signals.emails (RouteV1.extractSignals (text body))) /\
    quotedFrom (text body) (Signals.phone_numbers (RouteV1.extractSignals (text body))) /\
    quotedFrom (text body) (urls (extracted (heuristicOnly kb body))) /\
    quotedFrom (text body) (emails (extracted (heuristicOnly kb body))) /\
    quotedFrom (text body) (phone_numbers (extracted (heuristicOnly kb body))).
Proof.
  intros kb body. unfold quotedFrom.
  assert (H : forall ic r n,
             Forall (fun m => includes (text body) m = true)
                    (firstn n (matchAll ic r (text body)))).
  { intros ic r n. apply Forall_forall. intros m Hm. apply In_firstn_inv in Hm.
    exact (proj1 (Forall_forall _ _) (matchAllFrom_included _ _ _ _ _) m Hm). }
  repeat split; apply H.
Qed.

(** ** The braced part of the model's output (first variant) *)

Lemma search_char (c : Z) (pre rest : jsstring) (pos : Z) :
  ~ In c pre -> search [c] (pre ++ c :: rest) pos = pos + len pre.
Proof.
  revert pos. induction pre as [|x pre IH]; intros pos Hn.
  - simpl. rewrite Z.eqb_refl. simpl. unfold len. simpl. lia.
  - cbn [app search startsWith].
    assert (E : (c =? x) = false) by (apply Z.eqb_neq; intros ->; apply Hn; left; reflexivity).
    rewrite E. cbn [andb]. rewrite IH by (intros H; apply Hn; right; exact H).
    unfold len. cbn [length]. lia.
Qed.

Lemma searchLast_none (c : Z) (post : jsstring) (pos best : Z) :
  ~ In c post -> RouteV1.searchLast [c] post pos best = best.
Proof.
  revert pos best. induction post as [|x post IH]; intros pos best Hn; [reflexivity|].
  cbn [RouteV1.searchLast startsWith].
  assert (E : (c =? x) = false) by (apply Z.eqb_neq; intros ->; apply Hn; left; reflexivity).
  rewrite E. cbn [andb]. apply IH. intros H. apply Hn. right. exact H.
Qed.

Lemma searchLast_char (c : Z) (a post : jsstring) (pos best : Z) :
  ~ In c post -> RouteV1.searchLast [c] (a ++ c :: post) pos best = pos + len a.
Proof.
  intros Hn. revert pos best. induction a as [|x a IH]; intros pos best.
  - cbn [app RouteV1.searchLast startsWith]. rewrite Z.eqb_refl. cbn [andb].
    rewrite searchLast_none by exact Hn. unfold len. simpl. lia.
  - cbn [app RouteV1.searchLast]. rewrite IH. unfold len. cbn [length]. lia.
Qed.

(** When the model's output is not JSON as a whole, the first variant of
    the route reads the text from the first [{] to the last [}]: for an
    output that holds a braced part between a prefix without [{] and a
    suffix without [}] (prose around the answer, a code fence), the guarded
    parse gives what [JSON.parse] makes of the braced part alone, and an
    error when that is not JSON either. *)
Theorem braced_part_of_model_output :
  forall (pre mid post : jsstring) (fallback : RouteV1.AnalysisResult),
    ~ In 123 pre -> ~ In 125 post ->
    RouteV1.parseModelOutput (pre ++ lit "{" ++ mid ++ lit "}" ++ post) fallback =
    match JSON_parse (pre ++ lit "{" ++ mid ++ lit "}" ++ post) with
    | Some parsed => inr parsed
    | None =>
        match JSON_parse (lit "{" ++ mid ++ lit "}") with
        | Some parsed => inr parsed
        | None => inl (RouteV1.ErrorJson ModelOutputNotJson 400)
        end
    end.
Proof.
  intros pre mid post fallback Hpre Hpost. unfold RouteV1.parseModelOutput.
  destruct (JSON_parse (pre ++ lit "{" ++ mid ++ lit "}" ++ post)); [reflexivity|].
  cbv zeta. change (lit "{") with [123]. change (lit "}") with [125].
  assert (Ha : indexOf (pre ++ [123] ++ mid ++ [125] ++ post) [123] 0 = len pre).
  { unfold indexOf. cbv zeta.
    replace (Z.min (Z.max 0 0) (len (pre ++ [123] ++ mid ++ [125] ++ post))) with 0
      by (pose proof (len_nonneg (pre ++ [123] ++ mid ++ [125] ++ post)); lia).
    cbn [Z.to_nat skipn app]. rewrite search_char by exact Hpre. lia. }
  assert (Hb : RouteV1.lastIndexOf (pre ++ [123] ++ mid ++ [125] ++ post) [125]
               = len pre + 1 + len mid).
  { unfold RouteV1.lastIndexOf.
    replace (pre ++ [123] ++ mid ++ [125] ++ post)
      with ((pre ++ [123] ++ mid) ++ 125 :: post)
      by (rewrite <- !app_assoc; reflexivity).
    rewrite searchLast_char by exact Hpost. rewrite !len_app.
    change (len [123]) with 1. lia. }
  rewrite Ha, Hb.
  pose proof (len_nonneg pre) as Hp. pose proof (len_nonneg mid) as Hm.
  replace ((len pre >=? 0) && (len pre + 1 + len mid >? len pre)) with true
    by (symmetry; apply andb_true_iff; split;
        [apply Z.geb_le; lia | rewrite Z.gtb_ltb; apply Z.ltb_lt; lia]).
  replace (slice (pre ++ [123] ++ mid ++ [125] ++ post) (len pre) (len pre + 1 + len mid + 1))
    with ([123] ++ mid ++ [125]); [reflexivity|].
  unfold slice, len.
  replace (Z.to_nat (Z.of_nat (length pre))) with (length pre + 0)%nat by lia.
  rewrite skipn_app, skipn_all2 by lia.
  replace (length pre + 0 - length pre)%nat with 0%nat by lia. cbn [skipn app].
  replace (Z.to_nat (Z.of_nat (length pre) + 1 + Z.of_nat (length mid) + 1
                     - Z.of_nat (length pre)))
    with (length ([123%Z] ++ mid ++ [125%Z]) + 0)%nat
    by (rewrite !length_app; simpl; lia).
  replace (123 :: mid ++ 125 :: post) with (([123] ++ mid ++ [125]) ++ post)
    by (simpl; rewrite <- app_assoc; reflexivity).
  rewrite firstn_app_2. simpl. rewrite app_nil_r. reflexivity.
Qed.

Lemma braced_part_of_model_output_witness :
  ~ In 123 (lit "Answer: ") /\ ~ In 125 (lit " (done)") /\
  exists parsed,
    RouteV1.parseModelOutput
      (lit "Answer: " ++ lit "{" ++ innerAnswer ++ lit "}" ++ lit " (done)")
      (RouteV1.fallbackResult (RouteV1.extractSignals (lit "hello"))) = inr parsed /\
    JSON_parse (lit "{" ++ innerAnswer ++ lit "}") = Some parsed.
Proof.
  assert (H1 : ~ In 123 (lit "Answer: ")) by (intros H; vm_compute in H; intuition discriminate).
  assert (H2 : ~ In 125 (lit " (done)")) by (intros H; vm_compute in H; intuition discriminate).
  split; [exact H1|]. split; [exact H2|].
  eexists. split.
  - rewrite (braced_part_of_model_output (lit "Answer: ") innerAnswer (lit " (done)") _ H1 H2).
    vm_compute. reflexivity.
  - vm_compute. reflexivity.
Defined.

(** ** The label of the page and the verdict of the route *)

(** The page shows [scoreLabel] of the risk score beside the verdict of the
    response.  The two agree on what is harmless (below 35: "Probably Safe"
    or "Mildly Weird"); the top label, "Cursed (High Risk)", only comes
    with the verdict "dangerous", while a dangerous score below 80 is
    labelled "Very Suspicious". *)
Theorem score_label_agrees_with_verdict :
  forall score : Z,
    (verdictFromScore score = harmless <->
     scoreLabel score = lit "Mildly Weird" \/ scoreLabel score = lit "Probably Safe") /\
    (scoreLabel score = lit "Cursed (High Risk)" -> verdictFromScore score = dangerous) /\
    (verdictFromScore score = dangerous ->
     scoreLabel score = lit "Cursed (High Risk)" \/ scoreLabel score = lit "Very Suspicious") /\
    (scoreLabel score = lit "Suspicious" -> verdictFromScore score = suspicious).
Proof.
  intros score. unfold verdictFromScore, scoreLabel.
  destruct (Z.geb_spec score 80), (Z.geb_spec score 70), (Z.geb_spec score 60),
           (Z.geb_spec score 35), (Z.geb_spec score 15); try lia;
    repeat split; intros Hyp; try discriminate Hyp; try reflexivity;
    try (left; reflexivity); try (right; reflexivity);
    try (destruct Hyp as [Hyp | Hyp]; discriminate Hyp).
Qed.

(** ** Sanity checks of the embedding on concrete inputs *)

Example spans_of_repeated_phrase :
  map se (findSpans (lit "urgenturgent IRS") spanPhrases) = [(0,6);(6,12);(13,16)].
Proof. vm_compute. reflexivity. Qed.

Example urls_keep_repeats :
  Signals.urls (extractSignals (lit "see example.com/a and example.com/a now, or www.x.org"))
  = [lit "example.com/a"; lit "example.com/a"; lit "www.x.org"].
Proof. vm_compute. reflexivity. Qed.

Example emails_found :
  Signals.emails (extractSignals (lit "write to Bob.Smith@Example.co.uk, or a@b.c"))
  = [lit "Bob.Smith@Example.co.uk"].
Proof. vm_compute. reflexivity. Qed.

Example phones_found :
  Signals.phone_numbers (extractSignals (lit "call +1 (555) 123-4567 or 555.123.4567x or 12345"))
  = [lit "+1 (555) 123-4567"; lit "555.123.4567"].
Proof. vm_compute. reflexivity. Qed.

Example json_rejects :
  JSON_parse (lit "not json") = None /\ JSON_parse (lit "[1,]") = None /\
  JSON_parse (lit "01") = None /\ JSON_parse (lit "{} x") = None.
Proof. vm_compute. repeat split; reflexivity. Qed.

Example json_accepts :
  JSON_parse (lit "{" ++ quoted "a" ++ lit " : [1, -2.5e1, true, null, 0.5, "
              ++ quoted "x\ny\u0041" ++ lit "]}")
  = Some (JObj [(lit "a", JArr [JNum 1; JNum (-25 # 1); JBool true; JNull; JNum (1 # 2);
                                JStr (lit "x" ++ [10] ++ lit "yA")])]).
Proof. vm_compute. reflexivity. Qed.

Example post_mismatch :
  brief (POST [] NoClient (request "email" "link in bio, repost to double your money"))
  = Some (70, dangerous,
          [lit "Virality / Engagement Bait"; lit "Too-Good-To-Be-True Money Claim"], 4%nat).
Proof. vm_compute. reflexivity. Qed.

Example post_blended :
  brief (POST [] (Service (Resolved (Some sampleAnswer))) (request "text" "hello there, urgent"))
  = Some (54, suspicious, [], 0%nat).
Proof. vm_compute. reflexivity. Qed.

Example post_empty_answer :
  POST [] (Service (Resolved None)) (request "text" "hello there")
  = ErrorJson ModelOutputOffSchema 400.
Proof. vm_compute. reflexivity. Qed.

Example v1_unparseable_braces :
  RouteV1.POST (Service (Resolved (Some (lit "sure: {not json}"))))
               (request "text" "hello there urgent")
  = RouteV1.ErrorJson ModelOutputNotJson 400.
Proof. vm_compute. reflexivity. Qed.

Example v1_braces_off_schema :
  RouteV1.POST (Service (Resolved (Some (lit "sure: {} ok"))))
               (request "text" "hello there urgent")
  = RouteV1.ErrorJson ModelOutputOffSchema 400.
Proof. vm_compute. reflexivity. Qed.

Example kb_retrieval :
  map id (retrieveKb sampleKb (lit "the CEO needs a gift card, repost") KText (Some work))
  = [lit "ceo_gift_cards"; lit "format_not_email"].
Proof. vm_compute. reflexivity. Qed.

Example highlight_merges_overlap :
  map se (highlightMerged (lit "irshare before it's deleted urgenturgent")
            (findSpans (lit "irshare before it's deleted urgenturgent") spanPhrases))
  = [(0, 27); (28, 34); (34, 40)].
Proof. vm_compute. reflexivity. Qed.

Example analyzer_shows_overlap_twice :
  map piece_text
    (HighlightedText (lit "irshare before it's deleted")
       (map RouteV1.ofSpan (findSpans (lit "irshare before it's deleted") spanPhrases)))
  = [lit "irs"; lit "share before it's deleted"].
Proof. vm_compute. reflexivity. Qed.

Example analyzer_truncates_offsets :
  map piece_text (HighlightedText (lit "abcdef") fractionalSpans)
  = [lit "ab"; lit "cd"; lit "ef"].
Proof. vm_compute. reflexivity. Qed.

Example page_shows_overlap_once :
  highlightText (lit "the irshare before it's deleted!")
    (findSpans (lit "the irshare before it's deleted!") spanPhrases)
  = [ mkPart (lit "the ") None None;
      mkPart (lit "irshare before it's deleted") (Some (lit "Authority"))
        (Some (lit "Common authority-scam pattern."));
      mkPart (lit "!") None None ].
Proof. vm_compute. reflexivity. Qed.

Example score_labels :
  map scoreLabel [0; 14; 15; 34; 35; 59; 60; 79; 80; 100]
  = lits ["Probably Safe"; "Probably Safe"; "Mildly Weird"; "Mildly Weird"; "Suspicious";
          "Suspicious"; "Very Suspicious"; "Very Suspicious"; "Cursed (High Risk)";
          "Cursed (High Risk)"]%string.
Proof. vm_compute. reflexivity. Qed.
